(** * NexGen Dispatch Optimizer: data preparation and scoring engine

    A shallow embedding of [app.py]: the column-name cleaner, the left joins
    that build the master table, median imputation, the delivery-delay
    feature, the candidate filter, the predictor, min-max normalisation, the
    weighted score and the final ranking.

    Numbers are IEEE binary64 values ([float], the kernel's primitive floats),
    which is what Python's [float] and pandas' [float64] columns are; an
    [int64] entry is represented by the [float64] of the same value.  Header
    characters are code points below 256 ([ascii]).

    The library calls follow pandas 2 and pandas 3.  The two releases differ
    in one construction of the page, an in-place method called on a column
    selected from a table ([pandas_mode] below); where they differ both
    behaviours are modelled. *)

From Stdlib Require Import ZArith NArith Ascii String Floats Sorted Lia.
From Stdlib Require Uint63.
From stdpp Require Import base option list strings.

Set Warnings "-inexact-float".

Local Open Scope string_scope.
Local Open Scope list_scope.

(* ================================================================== *)
(** * Column names: [clean_col_names] *)
(* ================================================================== *)

Module ColNames.

Definition code (c : ascii) : N := N_of_ascii c.

(** [str.lower] on one character: A-Z, and the Latin-1 capitals
    U+00C0..U+00DE except the multiplication sign U+00D7. *)
Definition lower_char (c : ascii) : ascii :=
  let n := code c in
  if ((65 <=? n) && (n <=? 90))%N then ascii_of_N (n + 32)
  else if ((192 <=? n) && (n <=? 222) && negb (n =? 215))%N then ascii_of_N (n + 32)
  else c.

(** The class [\s] of a [str] pattern, on code points below 256. *)
Definition is_space (c : ascii) : bool :=
  let n := code c in
  (((9 <=? n) && (n <=? 13)) || ((28 <=? n) && (n <=? 32))
   || (n =? 133) || (n =? 160))%N.

(** The class [[\s\(\)/]]. *)
Definition in_class (c : ascii) : bool :=
  is_space c || Ascii.eqb c "(" || Ascii.eqb c ")" || Ascii.eqb c "/".

Definition is_underscore (c : ascii) : bool := Ascii.eqb c "_".

(** [.str.lower()] *)
Fixpoint lower (s : string) : string :=
  match s with
  | EmptyString => EmptyString
  | String c t => String (lower_char c) (lower t)
  end.

(** [.str.replace(r'[\s\(\)/]', '_', regex=True)] *)
Fixpoint replace_class (s : string) : string :=
  match s with
  | EmptyString => EmptyString
  | String c t => String (if in_class c then "_"%char else c) (replace_class t)
  end.

(** [.str.replace(r'__+', '_', regex=True)]: every maximal run of two or
    more underscores becomes one underscore. *)
Fixpoint replace_runs (s : string) : string :=
  match s with
  | EmptyString => EmptyString
  | String c t =>
      match t with
      | String d _ =>
          if is_underscore c && is_underscore d then replace_runs t
          else String c (replace_runs t)
      | EmptyString => String c EmptyString
      end
  end.

Fixpoint lstrip (s : string) : string :=
  match s with
  | EmptyString => EmptyString
  | String c t => if is_underscore c then lstrip t else s
  end.

Fixpoint rstrip (s : string) : string :=
  match s with
  | EmptyString => EmptyString
  | String c t =>
      match rstrip t with
      | EmptyString => if is_underscore c then EmptyString else String c EmptyString
      | t' => String c t'
      end
  end.

(** [.str.strip('_')] *)
Definition strip (s : string) : string := rstrip (lstrip s).

(** One header through the three assignments of [clean_col_names]. *)
Definition clean_name (s : string) : string :=
  strip (replace_runs (replace_class (lower s))).

(** [df.columns] after [clean_col_names(df)]. *)
Definition clean_headers (cols : list string) : list string :=
  map clean_name cols.

End ColNames.

(* ================================================================== *)
(** * Exceptions *)
(* ================================================================== *)

(** The exceptions the modelled code can raise: a missing column or key
    ([KeyError]); arithmetic on an entry that is not a number, or between a
    time-zone aware and a time-zone naive column ([TypeError]); a merge on
    key columns that cannot be compared or on a key label that is not unique,
    and a default call of [pd.to_datetime] on text that is no date
    ([ValueError]); a merge whose suffixes produce a duplicate column
    ([MergeError]); a difference of timestamps that does not fit in 64 bits
    ([OverflowError]); and a timestamp that does not fit in 64 bits at a
    finer resolution ([OutOfBoundsDatetime]). *)
Inductive error : Type :=
| KeyError (key : string)
| TypeError
| ValueError
| MergeError
| OverflowError
| OutOfBoundsDatetime.

(** pandas up to 2.x runs without copy-on-write unless the option is set;
    pandas 3 always runs with it. *)
Inductive pandas_mode : Type :=
| InPlace       (* pandas 2 with its default settings *)
| CopyOnWrite.  (* pandas 3, and pandas 2 with [mode.copy_on_write] set *)

Inductive result (A : Type) : Type :=
| Ok (a : A)
| Raise (e : error).
Arguments Ok {A} a.
Arguments Raise {A} e.

Definition bind {A B : Type} (m : result A) (k : A -> result B) : result B :=
  match m with
  | Ok a => k a
  | Raise e => Raise e
  end.

Notation "'do' x <- m ; k" := (bind m (fun x => k))
  (at level 10, x name, m at level 100, k at level 200).

Fixpoint mapM {A B : Type} (f : A -> result B) (l : list A) : result (list B) :=
  match l with
  | [] => Ok []
  | a :: t => do b <- f a; do bs <- mapM f t; Ok (b :: bs)
  end.

Fixpoint foldM {A B : Type} (f : B -> A -> result B) (l : list A) (b : B) : result B :=
  match l with
  | [] => Ok b
  | a :: t => do b' <- f b a; foldM f t b'
  end.

(* ================================================================== *)
(** * Tables *)
(* ================================================================== *)

(** One entry of a column.  A missing number is [Num nan], a missing
    timestamp is [NaT]; a timestamp counts the ticks of its column's
    resolution since 1970. *)
Inductive cell : Type :=
| Num (x : float)
| Str (s : string)
| Time (t : Z)
| NaT.

Abbreviation Series := (list cell).

(** A [DataFrame]: the labels of its rows ([df.index]; a table read from a
    file has the labels 0, 1, 2, ...) and its named columns, in order. *)
Record DataFrame : Type := mkDataFrame {
  index : list nat;
  columns : list (string * Series)
}.

(** [len(df)] *)
Definition nrows (df : DataFrame) : nat := length (index df).

(** A row taken out of a table ([.iloc[i]]): a [Series] indexed by column
    name. *)
Abbreviation Row := (list (string * cell)).

Definition NA : cell := Num nan.

(** [pd.isna] *)
Definition isna (c : cell) : bool :=
  match c with
  | Num x => is_nan x
  | NaT => true
  | _ => false
  end.

Definition as_float (c : cell) : result float :=
  match c with
  | Num x => Ok x
  | _ => Raise TypeError
  end.

Fixpoint assoc {V : Type} (k : string) (l : list (string * V)) : option V :=
  match l with
  | [] => None
  | (k', v) :: t => if String.eqb k' k then Some v else assoc k t
  end.

(** [df.columns] *)
Definition column_names (df : DataFrame) : list string := map fst (columns df).

Definition mem_string (c : string) (l : list string) : bool :=
  existsb (String.eqb c) l.

(** [col in df.columns] *)
Definition has_column (col : string) (df : DataFrame) : bool :=
  mem_string col (column_names df).

(** [df[col]] *)
Definition getitem (col : string) (df : DataFrame) : result Series :=
  match assoc col (columns df) with
  | Some s => Ok s
  | None => Raise (KeyError col)
  end.

(** [row[col]] *)
Definition row_get (col : string) (r : Row) : result cell :=
  match assoc col r with
  | Some c => Ok c
  | None => Raise (KeyError col)
  end.

Fixpoint assoc_set {V : Type} (k : string) (v : V) (l : list (string * V))
  : list (string * V) :=
  match l with
  | [] => [(k, v)]
  | (k', v') :: t => if String.eqb k' k then (k, v) :: t else (k', v') :: assoc_set k v t
  end.

(** [df[col] = s]: replaces the column, or appends it as the last one. *)
Definition setitem (col : string) (s : Series) (df : DataFrame) : DataFrame :=
  {| index := index df; columns := assoc_set col s (columns df) |}.

(** [df[col] = v] with a scalar [v], broadcast over the rows. *)
Definition setitem_scalar (col : string) (v : cell) (df : DataFrame) : DataFrame :=
  setitem col (repeat v (nrows df)) df.

(** Numeric view of a column. *)
Definition floats (col : string) (df : DataFrame) : result (list float) :=
  do s <- getitem col df; mapM as_float s.

(** Row selection by position ([take]): row [k] of the result is row
    [idx !! k] of the table, with its label. *)
Definition take_series (idx : list nat) (s : Series) : Series :=
  map (fun i => nth i s NA) idx.

Definition take_rows (idx : list nat) (df : DataFrame) : DataFrame :=
  {| index := map (fun i => nth i (index df) 0) idx;
     columns := map (fun cs => (fst cs, take_series idx (snd cs))) (columns df) |}.

(** Positions of the [true] entries of a mask, ascending. *)
Fixpoint nonzero_from (i : nat) (mask : list bool) : list nat :=
  match mask with
  | [] => []
  | b :: m => if b then i :: nonzero_from (S i) m else nonzero_from (S i) m
  end.

Definition nonzero (mask : list bool) : list nat := nonzero_from 0 mask.

(** [df[mask]] *)
Definition boolean_index (mask : list bool) (df : DataFrame) : DataFrame :=
  take_rows (nonzero mask) df.

(** [df.iloc[i]] *)
Definition iloc (i : nat) (df : DataFrame) : Row :=
  map (fun cs => (fst cs, nth i (snd cs) NA)) (columns df).

(** [df.empty]: no rows or no columns. *)
Definition empty (df : DataFrame) : bool :=
  Nat.eqb (nrows df) 0 || Nat.eqb (length (columns df)) 0.

(** Every column has one entry per row. *)
Definition wf_frame (df : DataFrame) : Prop :=
  Forall (fun cs => length (snd cs) = nrows df) (columns df).

(* ================================================================== *)
(** * The master table: [load_and_prepare_data] *)
(* ================================================================== *)

(** [clean_col_names(df)]: only the headers change. *)
Definition clean_col_names (df : DataFrame) : DataFrame :=
  {| index := index df;
     columns := map (fun cs => (ColNames.clean_name (fst cs), snd cs)) (columns df) |}.

(** ** Left joins on [order_id] *)

(** Equality of join keys; missing keys match each other. *)
Definition key_eqb (a b : cell) : bool :=
  match a, b with
  | Num x, Num y => (x =? y)%float || (is_nan x && is_nan y)
  | Str s, Str t => String.eqb s t
  | Time s, Time t => Z.eqb s t
  | NaT, NaT => true
  | _, _ => false
  end.

(** Rows of the right table whose key equals [k]. *)
Definition matches (k : cell) (rkeys : Series) : list nat :=
  nonzero (map (key_eqb k) rkeys).

(** The indexer of a left join: the left rows in order, each once per
    matching right row, or once with no right row. *)
Definition left_join_row (rkeys : Series) (i : nat) (k : cell) : list (nat * option nat) :=
  match matches k rkeys with
  | [] => [(i, None)]
  | js => map (fun j => (i, Some j)) js
  end.

Definition left_join_indexer (lkeys rkeys : Series) : list (nat * option nat) :=
  concat (imap (left_join_row rkeys) lkeys).

Definition take_left (ix : list (nat * option nat)) (s : Series) : Series :=
  map (fun p => nth (fst p) s NA) ix.

Definition take_right (ix : list (nat * option nat)) (s : Series) : Series :=
  map (fun p => match snd p with Some j => nth j s NA | None => NA end) ix.

(** The dtype of a column as [pd.read_csv] infers it and as a merge keeps
    it: a column of numbers is numeric ([int64] or [float64]), a column of
    timestamps is [datetime64], and any other column holds objects (text,
    with [nan] where a value is missing). *)
Inductive dtype : Type :=
| numeric_dtype
| datetime_dtype
| object_dtype.

Definition is_num (c : cell) : bool :=
  match c with
  | Num _ => true
  | _ => false
  end.

Definition is_datetime (c : cell) : bool :=
  match c with
  | Time _ | NaT => true
  | _ => false
  end.

Definition dtype_of (s : Series) : dtype :=
  if forallb is_num s then numeric_dtype
  else if forallb is_datetime s then datetime_dtype
  else object_dtype.

Definition dtype_eqb (a b : dtype) : bool :=
  match a, b with
  | numeric_dtype, numeric_dtype
  | datetime_dtype, datetime_dtype
  | object_dtype, object_dtype => true
  | _, _ => false
  end.

(** How many columns of a table have the label [c]. *)
Definition count_label (c : string) (df : DataFrame) : nat :=
  length (List.filter (String.eqb c) (column_names df)).

(** The key column of one side of a merge: [KeyError] when the table has no
    column of that label, [ValueError] when it has more than one. *)
Definition key_values (on : string) (df : DataFrame) : result Series :=
  match count_label on df with
  | 0 => Raise (KeyError on)
  | 1 => getitem on df
  | _ => Raise ValueError
  end.

(** The check of the two key columns: when both have rows, a numeric key
    column is not merged with a column of text, nor a [datetime64] column
    with a column of another dtype. *)
Definition coerce_merge_keys (lkeys rkeys : Series) : result unit :=
  match lkeys, rkeys with
  | [], _ | _, [] => Ok tt
  | _, _ =>
      if dtype_eqb (dtype_of lkeys) (dtype_of rkeys) then Ok tt else Raise ValueError
  end.

(** A column other than the key that both tables have gets a suffix. *)
Definition overlaps (on : string) (left right : DataFrame) (c : string) : bool :=
  negb (String.eqb c on)
  && mem_string c (column_names left) && mem_string c (column_names right).

Definition suffixed (on : string) (left right : DataFrame) (sfx c : string) : string :=
  if overlaps on left right c then c ++ sfx else c.

Definition drop_key (on : string) (cols : list (string * Series)) : list (string * Series) :=
  List.filter (fun cs => negb (String.eqb (fst cs) on)) cols.

(** [Index.duplicated()]: whether the label occurs earlier in the list. *)
Fixpoint duplicated_from (seen l : list string) : list bool :=
  match l with
  | [] => []
  | c :: t => mem_string c seen :: duplicated_from (c :: seen) t
  end.

Definition duplicated (l : list string) : list bool := duplicated_from [] l.

(** The labels of one side that the suffixes turned into duplicates:
    duplicates among the labels with their suffixes that were no duplicates
    among the labels as they were. *)
Definition suffix_duplicates (before after : list string) : list string :=
  map fst
    (List.filter snd
       (zip after
          (zip_with (fun now earlier => now && negb earlier)
             (duplicated after) (duplicated before)))).

(** [pd.merge(left, right, on=on, how='left')].  The key is looked up in the
    right table, then in the left one; the key columns are checked; the rows
    are joined; and the labels of each side are checked once the suffixes
    are on. *)
Definition merge (left right : DataFrame) (on : string) : result DataFrame :=
  do rkeys <- key_values on right;
  do lkeys <- key_values on left;
  do checked <- coerce_merge_keys lkeys rkeys;
  let ix := left_join_indexer lkeys rkeys in
  let rcols := drop_key on (columns right) in
  let llabels := map (suffixed on left right "_x") (map fst (columns left)) in
  let rlabels := map (suffixed on left right "_y") (map fst rcols) in
  match suffix_duplicates (map fst (columns left)) llabels
        ++ suffix_duplicates (map fst rcols) rlabels with
  | [] =>
      Ok {| index := seq 0 (length ix);
            columns :=
              map (fun cs => (suffixed on left right "_x" (fst cs), take_left ix (snd cs)))
                  (columns left)
              ++ map (fun cs => (suffixed on left right "_y" (fst cs),
                                 take_right ix (snd cs)))
                     rcols |}
  | _ :: _ => Raise MergeError
  end.

Definition merge_all (orders performance routes costs : DataFrame) : result DataFrame :=
  do master_df <- merge orders performance "order_id";
  do master_df <- merge master_df routes "order_id";
  merge master_df costs "order_id".

(** ** Median imputation *)

Definition num_cols_to_fill : list string :=
  [ "distance_km"; "traffic_delays_hours"; "fuel_consumption_liters";
    "toll_charges"; "delivery_cost"; "customer_rating" ].

Definition dropna (l : list float) : list float :=
  List.filter (fun x => negb (is_nan x)) l.

Fixpoint insert_float (x : float) (l : list float) : list float :=
  match l with
  | [] => [x]
  | y :: t => if (x <=? y)%float then x :: l else y :: insert_float x t
  end.

Definition sort_floats (l : list float) : list float :=
  foldr insert_float [] l.

(** The median of the values that are present: the middle one, or the mean
    of the two middle ones; [nan] when nothing is present. *)
Definition median (l : list float) : float :=
  let v := sort_floats (dropna l) in
  let n := length v in
  if Nat.eqb n 0 then nan
  else if Nat.even n then ((nth (n / 2 - 1) v nan + nth (n / 2) v nan) / 2)%float
  else nth (n / 2) v nan.

(** [s.median()] *)
Definition series_median (s : Series) : result float :=
  do xs <- mapM as_float s; Ok (median xs).

(** [s.fillna(v)] *)
Definition fillna (v : float) (s : Series) : Series :=
  map (fun c => if isna c then Num v else c) s.

(** [df[col].fillna(v, inplace=True)]: the method is called on the column
    that [df[col]] returns.  Without copy-on-write that column shares its
    data with the table, and the table is filled; with copy-on-write it is a
    column of its own, and the table stays as it is. *)
Definition fillna_selected (mode : pandas_mode) (col : string) (v : float)
    (df : DataFrame) : result DataFrame :=
  do s <- getitem col df;
  Ok match mode with
     | InPlace => setitem col (fillna v s) df
     | CopyOnWrite => df
     end.

(** The body of the loop over [num_cols_to_fill]. *)
Definition fill_num_col (mode : pandas_mode) (master_df : DataFrame) (col : string)
  : result DataFrame :=
  if has_column col master_df then
    do s <- getitem col master_df;
    do median_val <- series_median s;
    fillna_selected mode col median_val master_df
  else
    Ok (setitem_scalar col (Num 0) master_df).

Definition fill_numeric (mode : pandas_mode) (master_df : DataFrame) : result DataFrame :=
  foldM (fill_num_col mode) num_cols_to_fill master_df.

(** ** Delivery delay *)

(** The resolution of a [datetime64] column. *)
Inductive resolution : Type :=
| Seconds
| Milliseconds
| Microseconds
| Nanoseconds.

Definition ticks_per_second (r : resolution) : Z :=
  match r with
  | Seconds => 1
  | Milliseconds => 1000
  | Microseconds => 1000000
  | Nanoseconds => 1000000000
  end.

(** A [datetime64] column: its resolution, whether it carries a time zone,
    and per entry the timestamp in ticks of the resolution since 1970 (in
    UTC when the column carries a time zone), or nothing for [NaT]. *)
Record datetimes : Type := mkDatetimes {
  unit_of : resolution;
  tz_aware : bool;
  stamps : list (option Z)
}.

Definition int64_min : Z := - 2 ^ 63.
Definition int64_max : Z := 2 ^ 63 - 1.

Definition fits_int64 (z : Z) : bool := (int64_min <=? z)%Z && (z <=? int64_max)%Z.

(** [as_unit]: the timestamps of a column at a finer resolution;
    [OutOfBoundsDatetime] when one of them does not fit in 64 bits there. *)
Definition as_unit (r : resolution) (d : datetimes) : result (list (option Z)) :=
  let k := (ticks_per_second r / ticks_per_second (unit_of d))%Z in
  mapM (fun o =>
          match o with
          | None => Ok None
          | Some t =>
              if fits_int64 (t * k) then Ok (Some (t * k)%Z) else Raise OutOfBoundsDatetime
          end)
       (stamps d).

(** The two columns of a subtraction at one resolution, the finer of the
    two: only the coarser column is converted. *)
Definition ensure_matching_resos (a p : datetimes)
  : result (resolution * list (option Z) * list (option Z)) :=
  if (ticks_per_second (unit_of a) <? ticks_per_second (unit_of p))%Z then
    do sa <- as_unit (unit_of p) a; Ok (unit_of p, sa, stamps p)
  else if (ticks_per_second (unit_of p) <? ticks_per_second (unit_of a))%Z then
    do sp <- as_unit (unit_of a) p; Ok (unit_of a, stamps a, sp)
  else Ok (unit_of a, stamps a, stamps p).

(** [actual - promised] on two entries: the 64-bit difference of the ticks,
    checked for overflow; the bit pattern of [int64_min] is [NaT]. *)
Definition timedelta (actual promised : option Z) : result (option Z) :=
  match actual, promised with
  | Some a, Some p =>
      let d := (a - p)%Z in
      if fits_int64 d then Ok (if (d =? int64_min)%Z then None else Some d)
      else Raise OverflowError
  | _, _ => Ok None
  end.

(** [actual - promised] on two [datetime64] columns: a column of
    differences at the common resolution.  A column with a time zone and
    one without cannot be subtracted. *)
Definition sub_datetimes (actual promised : datetimes)
  : result (resolution * list (option Z)) :=
  do matched <- ensure_matching_resos actual promised;
  let '(r, sa, sp) := matched in
  if Bool.eqb (tz_aware actual) (tz_aware promised) then
    do deltas <- mapM (fun ap => timedelta (fst ap) (snd ap)) (zip sa sp);
    Ok (r, deltas)
  else Raise TypeError.

(** The [errors] argument of [pd.to_datetime]. *)
Inductive errors_arg : Type :=
| errors_raise    (* the default *)
| errors_coerce.

Definition datetime_cell (o : option Z) : cell :=
  match o with
  | Some t => Time t
  | None => NaT
  end.

(** The entries of a [datetime64] column. *)
Definition datetime_cells (d : datetimes) : Series := map datetime_cell (stamps d).

Section Delay.

(** What [pd.to_datetime] reads in a column: the [datetime64] column with,
    per entry, the timestamp the entry denotes, or nothing where the entry
    is missing or is no date.  The resolution and the time zone are those of
    the column as a whole.  (For a column whose entries carry different UTC
    offsets pandas 2 returns a column of objects and pandas 3 raises; the
    page fails on such a column either way, and it is outside this
    model.) *)
Variable parse : Series -> datetimes.

(** [Timedelta.total_seconds], on a number of ticks of a resolution. *)
Variable total_seconds : resolution -> Z -> float.

(** Whether an entry that is present was read as no date. *)
Definition unparsed (c : cell) (o : option Z) : bool :=
  negb (isna c) && match o with None => true | Some _ => false end.

(** [pd.to_datetime(s, errors=...)]: with [errors='raise'] an entry that is
    no date raises; with [errors='coerce'] it becomes [NaT]. *)
Definition to_datetime (errors : errors_arg) (s : Series) : result datetimes :=
  match errors with
  | errors_coerce => Ok (parse s)
  | errors_raise =>
      if existsb (fun co => unparsed (fst co) (snd co)) (zip s (stamps (parse s)))
      then Raise ValueError
      else Ok (parse s)
  end.

(** [.dt.total_seconds() / 3600] on one entry. *)
Definition delay_hours (r : resolution) (d : option Z) : float :=
  (match d with
   | Some ticks => total_seconds r ticks
   | None => nan
   end / 3600)%float.

(** The three assignments of the delay and the fill that follows.  The
    subtraction reads the two columns that were just assigned. *)
Definition add_delay (mode : pandas_mode) (master_df : DataFrame) : result DataFrame :=
  do promised <- getitem "promised_delivery_days" master_df;
  do promised <- to_datetime errors_coerce promised;
  let master_df := setitem "promised_delivery_days" (datetime_cells promised) master_df in
  do actual <- getitem "actual_delivery_days" master_df;
  do actual <- to_datetime errors_coerce actual;
  let master_df := setitem "actual_delivery_days" (datetime_cells actual) master_df in
  do difference <- sub_datetimes actual promised;
  let delay := map (fun d => Num (delay_hours (fst difference) d)) (snd difference) in
  let master_df := setitem "delivery_delay_hours" delay master_df in
  fillna_selected mode "delivery_delay_hours" 0 master_df.

(** [load_and_prepare_data], from the tables as read from the files; the
    result is [(master_df, fleet)]. *)
Definition load_and_prepare_data (mode : pandas_mode)
    (orders performance routes fleet costs : DataFrame)
  : result (DataFrame * DataFrame) :=
  let orders := clean_col_names orders in
  let performance := clean_col_names performance in
  let routes := clean_col_names routes in
  let fleet := clean_col_names fleet in
  let costs := clean_col_names costs in
  do master_df <- merge_all orders performance routes costs;
  do master_df <- fill_numeric mode master_df;
  do master_df <- add_delay mode master_df;
  Ok (master_df, fleet).

End Delay.

(* ================================================================== *)
(** * The recommendation *)
(* ================================================================== *)

Definition ASSUMED_FUEL_PRICE_PER_LITER : float := 1.50.
Definition ASSUMED_LABOR_COST_PER_HOUR : float := 20.00.

(** The three sliders, normalised to sum to one. *)
Definition normalize_weights (weight_cost weight_time weight_co2 : float)
  : float * float * float :=
  let total_weight := (weight_cost + weight_time + weight_co2)%float in
  if (0 <? total_weight)%float then
    ((weight_cost / total_weight)%float,
     (weight_time / total_weight)%float,
     (weight_co2 / total_weight)%float)
  else ((1 / 3)%float, (1 / 3)%float, (1 / 3)%float).

(** ** Candidate filter *)

Definition perishable_category (c : cell) : bool :=
  match c with
  | Str s => String.eqb s "Food & Beverage" || String.eqb s "Healthcare"
  | _ => false
  end.

Definition is_perishable (order_details : Row) : result bool :=
  do category <- row_get "product_category" order_details;
  Ok (perishable_category category).

(** [vehicle_type == 'refrigerated unit'] on one entry. *)
Definition is_refrigerated (v_type : cell) : bool :=
  match v_type with
  | Str s => String.eqb s "refrigerated unit"
  | _ => false
  end.

Definition eligible (perishable : bool) (v_type : cell) : bool :=
  if perishable then is_refrigerated v_type else negb (is_refrigerated v_type).

Definition suitable_vehicles (perishable : bool) (fleet_df : DataFrame) : result DataFrame :=
  do v_types <- getitem "vehicle_type" fleet_df;
  Ok (boolean_index (map (eligible perishable) v_types) fleet_df).

(** The candidate filter on its own. *)
Definition candidates (order_details : Row) (fleet_df : DataFrame) : result DataFrame :=
  do perishable <- is_perishable order_details;
  suitable_vehicles perishable fleet_df.

(** ** Predictor *)

Definition required_fleet_cols : list string :=
  [ "vehicle_type"; "fuel_efficiency_km_per_l"; "co2_emissions_kg_per_km"; "capacity_kg" ].

Definition get_speed (v_type : cell) : float :=
  match v_type with
  | Str s =>
      if String.eqb s "express bike" || String.eqb s "van" then 60%float
      else if String.eqb s "truck" then 45%float
      else 50%float
  | _ => 50%float
  end.

Definition nums (l : list float) : Series := map Num l.

Definition predict (order_details : Row) (suitable : DataFrame) : result DataFrame :=
  do distance <- bind (row_get "distance_km" order_details) as_float;
  do traffic <- bind (row_get "traffic_delays_hours" order_details) as_float;
  do tolls <- bind (row_get "toll_charges" order_details) as_float;
  do v_types <- getitem "vehicle_type" suitable;
  let suitable := setitem "avg_speed_kmh" (nums (map get_speed v_types)) suitable in
  do speed <- floats "avg_speed_kmh" suitable;
  let suitable :=
    setitem "predicted_time_hours"
            (nums (map (fun s => (distance / s + traffic)%float) speed)) suitable in
  do efficiency <- floats "fuel_efficiency_km_per_l" suitable;
  let fuel_needed_liters := map (fun e => (distance / e)%float) efficiency in
  let fuel_cost := map (fun f => (f * ASSUMED_FUEL_PRICE_PER_LITER)%float) fuel_needed_liters in
  do time <- floats "predicted_time_hours" suitable;
  let labor_cost := map (fun t => (t * ASSUMED_LABOR_COST_PER_HOUR)%float) time in
  let suitable :=
    setitem "predicted_cost"
            (nums (zip_with (fun f l => (f + l + tolls)%float) fuel_cost labor_cost))
            suitable in
  do co2 <- floats "co2_emissions_kg_per_km" suitable;
  Ok (setitem "predicted_co2_kg" (nums (map (fun c => (distance * c)%float) co2)) suitable).

(** ** Normaliser and scorer *)

(** [col.min()] and [col.max()]: missing values are skipped; [nan] when
    nothing is present. *)
Definition series_min (col : list float) : float :=
  match dropna col with
  | [] => nan
  | x :: t => foldl (fun m v => if (v <? m)%float then v else m) x t
  end.

Definition series_max (col : list float) : float :=
  match dropna col with
  | [] => nan
  | x :: t => foldl (fun m v => if (m <? v)%float then v else m) x t
  end.

(** What [normalize] returns: a column, or the scalar of its last line. *)
Inductive value : Type :=
| Column (s : list float)
| Scalar (x : float).

Definition normalize (col : list float) : value :=
  let min_val := series_min col in
  let max_val := series_max col in
  if (0 <? max_val - min_val)%float then
    Column (map (fun v => ((v - min_val) / (max_val - min_val))%float) col)
  else Scalar 0%float.

(** Assigning a [value] to a column of a table of [n] rows. *)
Definition broadcast (n : nat) (v : value) : list float :=
  match v with
  | Column s => s
  | Scalar x => repeat x n
  end.

Fixpoint zip3_with {A B C D : Type} (f : A -> B -> C -> D)
    (la : list A) (lb : list B) (lc : list C) : list D :=
  match la, lb, lc with
  | a :: ta, b :: tb, c :: tc => f a b c :: zip3_with f ta tb tc
  | _, _, _ => []
  end.

Definition score (weights : float * float * float) (suitable : DataFrame)
  : result DataFrame :=
  let '(weight_cost_norm, weight_time_norm, weight_co2_norm) := weights in
  let n := nrows suitable in
  do cost <- floats "predicted_cost" suitable;
  let suitable := setitem "norm_cost" (nums (broadcast n (normalize cost))) suitable in
  do time <- floats "predicted_time_hours" suitable;
  let suitable := setitem "norm_time" (nums (broadcast n (normalize time))) suitable in
  do co2 <- floats "predicted_co2_kg" suitable;
  let suitable := setitem "norm_co2" (nums (broadcast n (normalize co2))) suitable in
  do norm_cost <- floats "norm_cost" suitable;
  do norm_time <- floats "norm_time" suitable;
  do norm_co2 <- floats "norm_co2" suitable;
  Ok (setitem "optimization_score"
        (nums (zip3_with
                 (fun c t e =>
                    (weight_cost_norm * c + weight_time_norm * t + weight_co2_norm * e)%float)
                 norm_cost norm_time norm_co2))
        suitable).

(** ** Ranking *)

(** The order [sort_values] sorts by: ascending, missing values last. *)
Definition score_le (x y : float) : bool :=
  is_nan y || (negb (is_nan x) && (x <=? y)%float).

Definition ascending_na_last (keys : list float) : Prop :=
  forall i j x y, i < j -> keys !! i = Some x -> keys !! j = Some y -> score_le x y = true.

(** [df.sort_values(key)] with the default [kind]: the rows in an order
    that is ascending in the column [key].  The default [kind='quicksort']
    is not a stable sort, so the call fixes nothing about the order of rows
    with equal keys: every ascending rearrangement is a possible result, and
    which one is returned depends on the routine numpy runs. *)
Definition sort_values (key : string) (df out : DataFrame) : Prop :=
  exists keys idx,
    floats key df = Ok keys
    /\ Permutation idx (seq 0 (nrows df))
    /\ ascending_na_last (map (fun i => nth i keys nan) idx)
    /\ out = take_rows idx df.

(** A stable argsort (insertion sort), as [kind='stable'] would give. *)
Fixpoint insert_index (keys : list float) (i : nat) (l : list nat) : list nat :=
  match l with
  | [] => [i]
  | j :: t =>
      if score_le (nth i keys nan) (nth j keys nan) then i :: l
      else j :: insert_index keys i t
  end.

Definition argsort_stable (keys : list float) (n : nat) : list nat :=
  foldr (insert_index keys) [] (seq 0 n).

(** The call with [kind='stable']. *)
Definition sort_values_stable (key : string) (df : DataFrame) : result DataFrame :=
  do keys <- floats key df;
  Ok (take_rows (argsort_stable keys (nrows df)) df).

(** ** numpy's quicksort *)

(** [np.argsort(kind='quicksort')] as numpy's generic routine computes it
    ([aquicksort] of npysort/quicksort.cpp; where numpy dispatches to a
    vectorised kernel, ties come out in that kernel's order).  The routine
    sorts an array [tosort] of positions by the keys [v]: a range of more
    than 17 positions is partitioned around the median of three and the
    larger part is pushed on a stack; a range of at most 17 positions is
    insertion sorted.  At the depth limit numpy switches to heapsort; that
    case is outside this model ([None], as when a loop runs out of
    fuel). *)
Definition less (a b : float) : bool := (a <? b)%float || (is_nan b && negb (is_nan a)).

Definition SMALL_QUICKSORT : nat := 16.

Section Quicksort.

Variable v : list float.

Definition key_at (tosort : list nat) (p : nat) : float := nth (nth p tosort 0) v nan.

Definition swap (p q : nat) (tosort : list nat) : list nat :=
  <[p := nth q tosort 0]> (<[q := nth p tosort 0]> tosort).

Definition swap_if_less (p q : nat) (tosort : list nat) : list nat :=
  if less (key_at tosort p) (key_at tosort q) then swap p q tosort else tosort.

(** [do { ++pi; } while (less(v[*pi], vp));] *)
Fixpoint scan_up (fuel : nat) (tosort : list nat) (vp : float) (pi : nat) : option nat :=
  match fuel with
  | 0 => None
  | S fuel =>
      if less (key_at tosort (S pi)) vp then scan_up fuel tosort vp (S pi) else Some (S pi)
  end.

(** [do { --pj; } while (less(vp, v[*pj]));] *)
Fixpoint scan_down (tosort : list nat) (vp : float) (pj : nat) : option nat :=
  match pj with
  | 0 => None
  | S pj => if less vp (key_at tosort pj) then scan_down tosort vp pj else Some pj
  end.

Fixpoint partition_loop (fuel : nat) (tosort : list nat) (vp : float) (pi pj : nat)
  : option (list nat * nat) :=
  match fuel with
  | 0 => None
  | S fuel =>
      pi ← scan_up (length tosort) tosort vp pi;
      pj ← scan_down tosort vp pj;
      if (pj <=? pi)%nat then Some (tosort, pi)
      else partition_loop fuel (swap pi pj tosort) vp pi pj
  end.

(** The partition of the range [pl..pr]; the result is the array and the
    position of the pivot. *)
Definition partition (tosort : list nat) (pl pr : nat) : option (list nat * nat) :=
  let pm := pl + (pr - pl) / 2 in
  let tosort := swap_if_less pm pl tosort in
  let tosort := swap_if_less pr pm tosort in
  let tosort := swap_if_less pm pl tosort in
  let vp := key_at tosort pm in
  let tosort := swap pm (pr - 1) tosort in
  '(tosort, pi) ← partition_loop (length tosort) tosort vp pl (pr - 1);
  Some (swap pi (pr - 1) tosort, pi).

(** [while (pj > pl && less(vp, v[*pk])) { *pj-- = *pk--; }] *)
Fixpoint shift_up (tosort : list nat) (pl : nat) (vp : float) (pj : nat) : list nat * nat :=
  match pj with
  | 0 => (tosort, 0)
  | S pk =>
      if (pl <? pj)%nat && less vp (key_at tosort pk)
      then shift_up (<[pj := nth pk tosort 0]> tosort) pl vp pk
      else (tosort, pj)
  end.

Definition insert_one (pl : nat) (tosort : list nat) (pi : nat) : list nat :=
  let vi := nth pi tosort 0 in
  let '(tosort, pj) := shift_up tosort pl (nth vi v nan) pi in
  <[pj := vi]> tosort.

Definition insertion_sort (tosort : list nat) (pl pr : nat) : list nat :=
  foldl (insert_one pl) tosort (seq (S pl) (pr - pl)).

(** [while ((pr - pl) > SMALL_QUICKSORT)]: a stack entry is a range and the
    depth left for it. *)
Fixpoint partition_ranges (fuel : nat) (tosort : list nat) (pl pr : nat) (cdepth : Z)
    (stack : list (nat * nat * Z)) : option (list nat * nat * nat * Z * list (nat * nat * Z)) :=
  match fuel with
  | 0 => None
  | S fuel =>
      if (SMALL_QUICKSORT <? pr - pl)%nat then
        '(tosort, pi) ← partition tosort pl pr;
        let cdepth := (cdepth - 1)%Z in
        if (pi - pl <? pr - pi)%nat
        then partition_ranges fuel tosort pl (pi - 1) cdepth ((pi + 1, pr, cdepth) :: stack)
        else partition_ranges fuel tosort (pi + 1) pr cdepth ((pl, pi - 1, cdepth) :: stack)
      else Some (tosort, pl, pr, cdepth, stack)
  end.

(** [while (1)] *)
Fixpoint quicksort_loop (fuel : nat) (tosort : list nat) (pl pr : nat) (cdepth : Z)
    (stack : list (nat * nat * Z)) : option (list nat) :=
  match fuel with
  | 0 => None
  | S fuel =>
      if (cdepth <? 0)%Z then None
      else
        '(tosort, pl, pr, cdepth, stack) ←
          partition_ranges (length tosort) tosort pl pr cdepth stack;
        let tosort := insertion_sort tosort pl pr in
        match stack with
        | [] => Some tosort
        | (pl, pr, cdepth) :: stack => quicksort_loop fuel tosort pl pr cdepth stack
        end
  end.

Definition aquicksort : option (list nat) :=
  let num := length v in
  match num with
  | 0 => Some []
  | S last => quicksort_loop num (seq 0 num) 0 last (2 * Z.log2 (Z.of_nat num)) []
  end.

End Quicksort.

(** pandas' [nargsort] with [na_position='last']: the positions of the
    values that are present, sorted, then the positions of the missing
    ones. *)
Definition nargsort (items : list float) : option (list nat) :=
  let idx := seq 0 (length items) in
  let non_nan_idx := List.filter (fun i => negb (is_nan (nth i items nan))) idx in
  let nan_idx := List.filter (fun i => is_nan (nth i items nan)) idx in
  order ← aquicksort (map (fun i => nth i items nan) non_nan_idx);
  Some (map (fun k => nth k non_nan_idx 0) order ++ nan_idx)%list.

(** The call [df.sort_values(key)] where numpy runs its generic routine. *)
Definition sort_values_quicksort (key : string) (df : DataFrame) : option DataFrame :=
  match floats key df with
  | Ok keys => idx ← nargsort keys; Some (take_rows idx df)
  | Raise _ => None
  end.

(** ** The button *)

(** The two [st.error] messages of the recommendation logic. *)
Inductive signal : Type :=
| NoSuitableVehicles (required : string)
| MissingFleetColumns (expected found : list string).

Inductive outcome : Type :=
| Signalled (s : signal)
| Recommended (best_vehicle : Row) (ranked : DataFrame).

(** Everything up to the call of [sort_values]. *)
Definition score_candidates (order_details : Row) (weights : float * float * float)
    (fleet_df : DataFrame) : result (signal + DataFrame) :=
  do perishable <- is_perishable order_details;
  do suitable <- suitable_vehicles perishable fleet_df;
  if empty suitable then
    Ok (inl (NoSuitableVehicles (if perishable then "Refrigerated" else "Standard")))
  else if negb (forallb (fun col => has_column col fleet_df) required_fleet_cols) then
    Ok (inl (MissingFleetColumns required_fleet_cols (column_names fleet_df)))
  else
    do predicted <- predict order_details suitable;
    do scored <- score weights predicted;
    Ok (inr scored).

Inductive optimize (order_details : Row) (weight_cost weight_time weight_co2 : float)
    (fleet_df : DataFrame) : outcome -> Prop :=
| optimize_signal s :
    score_candidates order_details
      (normalize_weights weight_cost weight_time weight_co2) fleet_df = Ok (inl s) ->
    optimize order_details weight_cost weight_time weight_co2 fleet_df (Signalled s)
| optimize_ranked scored ranked :
    score_candidates order_details
      (normalize_weights weight_cost weight_time weight_co2) fleet_df = Ok (inr scored) ->
    sort_values "optimization_score" scored ranked ->
    optimize order_details weight_cost weight_time weight_co2 fleet_df
      (Recommended (iloc 0 ranked) ranked).

(* ================================================================== *)
(** * Sample data *)
(* ================================================================== *)

Module Sample.

(** An order of 100 km with one hour of traffic and 5 of tolls. *)
Definition order100 : Row :=
  [ ("order_id", Str "ORD1"); ("product_category", Str "Electronics");
    ("special_handling", Str "Refrigerated");
    ("distance_km", Num 100); ("traffic_delays_hours", Num 1);
    ("toll_charges", Num 5) ].


Definition one_van : DataFrame :=
  {| index := [0];
     columns := [ ("vehicle_id", [Str "V1"]); ("vehicle_type", [Str "van"]);
                  ("fuel_efficiency_km_per_l", [Num 10]);
                  ("co2_emissions_kg_per_km", [Num 0.2]);
                  ("capacity_kg", [Num 800]) ] |}.

(** Two vans with the same figures. *)
Definition two_vans : DataFrame :=
  {| index := [0; 1];
     columns := [ ("vehicle_id", [Str "V1"; Str "V2"]);
                  ("vehicle_type", [Str "van"; Str "van"]);
                  ("fuel_efficiency_km_per_l", [Num 10; Num 10]);
                  ("co2_emissions_kg_per_km", [Num 0.2; Num 0.2]);
                  ("capacity_kg", [Num 800; Num 800]) ] |}.

(** Eighteen vans with the same figures. *)
Definition eighteen_vans : DataFrame :=
  {| index := seq 0 18;
     columns := [ ("vehicle_id",
                   [ Str "V0"; Str "V1"; Str "V2"; Str "V3"; Str "V4"; Str "V5"; Str "V6";
                     Str "V7"; Str "V8"; Str "V9"; Str "V10"; Str
                     "V11"; Str "V12"; Str "V13"; Str "V14"; Str
                     "V15"; Str "V16"; Str "V17" ]);
                  ("vehicle_type", repeat (Str "van") 18);
                  ("fuel_efficiency_km_per_l", repeat (Num 10) 18);
                  ("co2_emissions_kg_per_km", repeat (Num 0.2) 18);
                  ("capacity_kg", repeat (Num 800) 18) ] |}.

(** A van whose fuel efficiency is recorded as zero. *)
Definition van_zero_efficiency : DataFrame :=
  {| index := [0];
     columns := [ ("vehicle_id", [Str "V1"]); ("vehicle_type", [Str "van"]);
                  ("fuel_efficiency_km_per_l", [Num 0]);
                  ("co2_emissions_kg_per_km", [Num 0.2]);
                  ("capacity_kg", [Num 800]) ] |}.

Definition mixed_fleet : DataFrame :=
  {| index := [0; 1; 2];
     columns := [ ("vehicle_id", [Str "R1"; Str "V1"; Str "T1"]);
                  ("vehicle_type", [Str "refrigerated unit"; Str "van"; Str "truck"]);
                  ("fuel_efficiency_km_per_l", [Num 8; Num 10; Num 5]);
                  ("co2_emissions_kg_per_km", [Num 0.35; Num 0.2; Num 0.6]);
                  ("capacity_kg", [Num 1500; Num 800; Num 5000]) ] |}.

(** A fleet without the capacity column. *)
Definition fleet_no_capacity : DataFrame :=
  {| index := [0];
     columns := [ ("vehicle_id", [Str "V1"]); ("vehicle_type", [Str "van"]);
                  ("fuel_efficiency_km_per_l", [Num 10]);
                  ("co2_emissions_kg_per_km", [Num 0.2]) ] |}.

Definition orders : DataFrame :=
  {| index := [0; 1];
     columns := [ ("order_id", [Str "ORD1"; Str "ORD2"]);
                  ("product_category", [Str "Electronics"; Str "Food & Beverage"]) ] |}.

Definition performance : DataFrame :=
  {| index := [0];
     columns := [ ("order_id", [Str "ORD1"]);
                  ("promised_delivery_days", [Str "2024-01-05"]);
                  ("actual_delivery_days", [Str "2024-01-06"]);
                  ("customer_rating", [Num 4]) ] |}.

Definition routes : DataFrame :=
  {| index := [0; 1];
     columns := [ ("order_id", [Str "ORD2"; Str "ORD1"]);
                  ("distance_km", [Num 250; Num 100]);
                  ("traffic_delays_hours", [NA; Num 1]);
                  ("toll_charges", [Num 12; Num 5]) ] |}.

Definition costs : DataFrame :=
  {| index := [0];
     columns := [ ("order_id", [Str "ORD1"]); ("delivery_cost", [Num 80]) ] |}.


(** A date parser that knows two days in two formats, the date alone and
    the date with midnight UTC, at the resolution of nanoseconds.  As
    [pd.to_datetime] does, it reads a column of numbers as nanoseconds since
    1970, and a column of text in the format of its first entry that is
    present; an entry in another format, or that is no date, is no date. *)
Inductive date_format : Type :=
| date_only
| date_utc.

Definition read_date (f : date_format) (c : cell) : option Z :=
  match c, f with
  | Str s, date_only =>
      if String.eqb s "2024-01-05" then Some 1704412800000000000%Z
      else if String.eqb s "2024-01-06" then Some 1704499200000000000%Z
      else None
  | Str s, date_utc =>
      if String.eqb s "2024-01-05T00:00:00Z" then Some 1704412800000000000%Z
      else if String.eqb s "2024-01-06T00:00:00Z" then Some 1704499200000000000%Z
      else None
  | _, _ => None
  end.

Fixpoint guess_format (s : Series) : date_format :=
  match s with
  | [] => date_only
  | c :: t =>
      if isna c then guess_format t
      else match read_date date_utc c with
           | Some _ => date_utc
           | None => date_only
           end
  end.

(** The whole number of nanoseconds in a number, towards zero. *)
Definition truncate (x : float) : option Z :=
  match Prim2SF x with
  | S754_zero _ => Some 0%Z
  | S754_finite sign m e =>
      let magnitude :=
        match e with
        | Zneg k => (Zpos m / 2 ^ Zpos k)%Z
        | _ => (Zpos m * 2 ^ e)%Z
        end in
      Some (if sign then (- magnitude)%Z else magnitude)
  | _ => None
  end.

Definition epoch_nanoseconds (c : cell) : option Z :=
  match c with
  | Num x =>
      match truncate x with
      | Some t => if (int64_min <? t)%Z && (t <=? int64_max)%Z then Some t else None
      | None => None
      end
  | _ => None
  end.

Definition parse (s : Series) : datetimes :=
  if forallb is_num s then
    {| unit_of := Nanoseconds; tz_aware := false; stamps := map epoch_nanoseconds s |}
  else
    {| unit_of := Nanoseconds;
       tz_aware := match guess_format s with
                   | date_utc => true
                   | date_only => false
                   end;
       stamps := map (read_date (guess_format s)) s |}.

Definition float_of_Z (z : Z) : float :=
  match z with
  | Z0 => 0%float
  | Zpos _ => of_uint63 (Uint63.of_Z z)
  | Zneg p => (- of_uint63 (Uint63.of_Z (Zpos p)))%float
  end.

(** Seconds in a number of ticks. *)
Definition total_seconds (r : resolution) (ticks : Z) : float :=
  (float_of_Z ticks / float_of_Z (ticks_per_second r))%float.

Definition deliveries : DataFrame :=
  {| index := [0; 1];
     columns := [ ("order_id", [Str "ORD1"; Str "ORD2"]);
                  ("promised_delivery_days", [Str "2024-01-05"; Str "2024-01-05"]);
                  ("actual_delivery_days", [Str "2024-01-06"; Str "soon"]) ] |}.


(** The master table of the sample tables, before and after imputation. *)
Definition master : DataFrame :=
  Eval vm_compute in
    match merge_all orders performance routes costs with
    | Ok master_df => master_df
    | Raise _ => orders
    end.

Definition master_filled : DataFrame :=
  Eval vm_compute in
    match fill_numeric InPlace master with
    | Ok master_df => master_df
    | Raise _ => master
    end.

Definition sliders : float * float * float := normalize_weights 0.5 0.3 0.2.

(** The scored candidates of [order100] among [two_vans], and the same rows
    in the other order. *)
Definition two_vans_scored : DataFrame :=
  Eval vm_compute in
    match score_candidates order100 sliders two_vans with
    | Ok (inr scored) => scored
    | _ => two_vans
    end.

(** The scored candidates of [order100] among [eighteen_vans], and their
    ranking by numpy's generic quicksort. *)
Definition eighteen_vans_scored : DataFrame :=
  Eval vm_compute in
    match score_candidates order100 sliders eighteen_vans with
    | Ok (inr scored) => scored
    | _ => eighteen_vans
    end.

Definition eighteen_vans_ranked : DataFrame :=
  Eval vm_compute in
    match sort_values_quicksort "optimization_score" eighteen_vans_scored with
    | Some ranked => ranked
    | None => eighteen_vans_scored
    end.

Definition zero_efficiency_scored : DataFrame :=
  Eval vm_compute in
    match score_candidates order100 sliders van_zero_efficiency with
    | Ok (inr scored) => scored
    | _ => van_zero_efficiency
    end.

End Sample.

(* ================================================================== *)
(** * Notions used in the statements and proofs *)
(* ================================================================== *)

(** Equal as [==] has it, or the same value. *)
Definition same_value (x v : float) : Prop := x = v \/ (x =? v)%float = true.

(** Rows with equal score keep the order of their labels, the order of the
    fleet table. *)
Definition ties_keep_fleet_order (ranked : DataFrame) : Prop :=
  forall scores i j li lj x y,
    floats "optimization_score" ranked = Ok scores ->
    i < j ->
    index ranked !! i = Some li -> index ranked !! j = Some lj ->
    scores !! i = Some x -> scores !! j = Some y ->
    (x =? y)%float = true ->
    li < lj.

(** The entries a right-hand column contributes to a left join when no key
    matches two rows: per left key, the entry of the matching row, or a
    missing value. *)
Definition lookup_right (lkeys rkeys s : Series) : Series :=
  map (fun k => match matches k rkeys with j :: _ => nth j s NA | [] => NA end) lkeys.

Definition joined (left right : DataFrame) (lkeys rkeys : Series) : DataFrame :=
  {| index := seq 0 (length lkeys);
     columns :=
       map (fun cs => (suffixed "order_id" left right "_x" (fst cs), snd cs)) (columns left)
       ++ map (fun cs => (suffixed "order_id" left right "_y" (fst cs),
                          lookup_right lkeys rkeys (snd cs)))
              (drop_key "order_id" (columns right)) |}.

(** What the imputation loop leaves in the column [col] of a table [df]. *)
Definition filled_column (mode : pandas_mode) (df : DataFrame) (col : string)
  : result Series :=
  match getitem col df with
  | Ok s =>
      do median_val <- series_median s;
      Ok match mode with
         | InPlace => fillna median_val s
         | CopyOnWrite => s
         end
  | Raise _ => Ok (repeat (Num 0) (nrows df))
  end.

(** No header other than [order_id] is common to the two tables. *)
Definition share_no_header (a b : DataFrame) : Prop :=
  forall c, c <> "order_id" -> has_column c a = true -> has_column c b = false.






(** [m] is the least, [M] the greatest, of the values of [col] that are
    present. *)
Definition least_of (col : list float) (m : float) : Prop :=
  In m col /\ is_nan m = false
  /\ forall x, In x col -> is_nan x = false -> (m <=? x)%float = true.

Definition greatest_of (col : list float) (M : float) : Prop :=
  In M col /\ is_nan M = false
  /\ forall x, In x col -> is_nan x = false -> (x <=? M)%float = true.

Definition key_rel (keys : list float) (i j : nat) : Prop :=
  score_le (nth i keys nan) (nth j keys nan) = true.

(** Header strings. *)
Fixpoint all_chars (P : ascii -> Prop) (s : string) : Prop :=
  match s with
  | EmptyString => True
  | String c t => P c /\ all_chars P t
  end.

Definition settled (c : ascii) : Prop :=
  ColNames.lower_char c = c /\ ColNames.in_class c = false.

Fixpoint no_runs (s : string) : Prop :=
  match s with
  | String c (String d _ as t) =>
      (ColNames.is_underscore c && ColNames.is_underscore d = false) /\ no_runs t
  | _ => True
  end.

(** Binary64 values in their specification form. *)
Definition positive_float (s : bool) (x : spec_float) : Prop :=
  x = S754_infinity s \/ exists m e, x = S754_finite s m e.

Definition ordinary (x : spec_float) : Prop :=
  match x with
  | S754_zero _ | S754_finite _ _ _ => True
  | _ => False
  end.

(** Comparison of two numbers is the lexicographic order of these keys. *)
Definition sf_key (x : spec_float) : Z * Z * Z :=
  match x with
  | S754_zero _ => (0, 0, 0)%Z
  | S754_infinity false => (2, 0, 0)%Z
  | S754_infinity true => (-2, 0, 0)%Z
  | S754_nan => (3, 0, 0)%Z
  | S754_finite false m e => (1, e, Zpos m)%Z
  | S754_finite true m e => (-1, - e, Zneg m)%Z
  end.

Definition key_le (k k' : Z * Z * Z) : Prop :=
  let '(a, b, c) := k in
  let '(a', b', c') := k' in
  (a < a' \/ (a = a' /\ (b < b' \/ (b = b' /\ c <= c'))))%Z.

(* ================================================================== *)
(** * The rest of the page *)
(* ================================================================== *)

(** ** Reading the files *)

Definition DATA_PATH : string := "/content/NextGen_data/".

(** The seven files, in the order in which they are read. *)
Definition csv_files : list string :=
  [ "orders.csv"; "delivery_performance.csv"; "routes_distance.csv";
    "vehicle_fleet.csv"; "cost_breakdown.csv"; "warehouse_inventory.csv";
    "customer_feedback.csv" ].

(** What [pd.read_csv] does with one path: a table, [FileNotFoundError], or
    another exception. *)
Inductive read_csv_result : Type :=
| CsvTable (df : DataFrame)
| FileNotFoundError
| OtherException.

Fixpoint ends_with_slash (s : string) : bool :=
  match s with
  | EmptyString => false
  | String c EmptyString => Ascii.eqb c "/"
  | String _ t => ends_with_slash t
  end.

(** [os.path.join(path, name)] for a [name] that is not absolute. *)
Definition path_join (path name : string) : string :=
  match path with
  | EmptyString => name
  | _ => if ends_with_slash path then path ++ name else path ++ "/" ++ name
  end.

(** The two [except] clauses: the file that was not found, or the other
    error. *)
Inductive load_error : Type :=
| DataFileNotFound (filename : string)
| DataLoadingError.

Definition and_then {A B : Type} (m : load_error + A) (k : A -> load_error + B)
  : load_error + B :=
  match m with
  | inl e => inl e
  | inr a => k a
  end.

Notation "'load' x <- m ; k" := (and_then m (fun x => k))
  (at level 10, x name, m at level 100, k at level 200).

Section Page.

Variable files : string -> read_csv_result.
Variable parse : Series -> datetimes.
Variable total_seconds : resolution -> Z -> float.
Variable mode : pandas_mode.

Definition read_csv (path name : string) : load_error + DataFrame :=
  match files (path_join path name) with
  | CsvTable df => inr df
  | FileNotFoundError => inl (DataFileNotFound (path_join path name))
  | OtherException => inl DataLoadingError
  end.

(** The [try] block of [load_and_prepare_data]. *)
Definition read_all (path : string)
  : load_error
    + (DataFrame * DataFrame * DataFrame * DataFrame * DataFrame * DataFrame * DataFrame) :=
  load orders <- read_csv path "orders.csv";
  load performance <- read_csv path "delivery_performance.csv";
  load routes <- read_csv path "routes_distance.csv";
  load fleet <- read_csv path "vehicle_fleet.csv";
  load costs <- read_csv path "cost_breakdown.csv";
  load inventory <- read_csv path "warehouse_inventory.csv";
  load feedback <- read_csv path "customer_feedback.csv";
  inr (orders, performance, routes, fleet, costs, inventory, feedback).

(** [load_and_prepare_data(path)]: an error of the [try] block gives the four
    [None]s; otherwise [(master_df, fleet, inventory, feedback)]. *)
Definition load_and_prepare_data_at (path : string)
  : result (load_error + (DataFrame * DataFrame * DataFrame * DataFrame)) :=
  match read_all path with
  | inl e => Ok (inl e)
  | inr (orders, performance, routes, fleet, costs, inventory, feedback) =>
      do prepared <-
        load_and_prepare_data parse total_seconds mode
          orders performance routes fleet costs;
      Ok (inr (fst prepared, snd prepared,
               clean_col_names inventory, clean_col_names feedback))
  end.

End Page.

(** A file the folder can deliver, and the first file of a list that it
    cannot. *)
Definition readable (files : string -> read_csv_result) (path name : string) : Prop :=
  exists df, files (path_join path name) = CsvTable df.

Definition first_unreadable (files : string -> read_csv_result) (path : string)
    (names : list string) (name : string) : Prop :=
  exists before after,
    names = (before ++ name :: after)%list
    /\ Forall (readable files path) before
    /\ ~ readable files path name.

(** ** Sidebar filters *)



(** [s.isin(values)] *)
Definition isin (values : list cell) (s : Series) : list bool :=
  map (fun c => existsb (key_eqb c) values) s.

(** [master_df[master_df['product_category'].isin(category)
               & master_df['priority'].isin(priority)]] *)
Definition sidebar_filter (category priority : list cell) (master_df : DataFrame)
  : result DataFrame :=
  do categories <- getitem "product_category" master_df;
  do priorities <- getitem "priority" master_df;
  Ok (boolean_index (zip_with andb (isin category categories) (isin priority priorities))
        master_df).


(** ** Choosing the order *)

(** [entry == scalar] *)
Definition py_eq (a b : cell) : bool :=
  match a, b with
  | Num x, Num y => (x =? y)%float
  | Str s, Str t => String.eqb s t
  | Time s, Time t => Z.eqb s t
  | _, _ => false
  end.

(** The row chosen, or the [IndexError] of [.iloc[0]] on a table without
    rows. *)
Inductive selection : Type :=
| Selected (order_details : Row)
| IndexError.

(** [filtered_df[filtered_df['order_id'] == selected_order_id].iloc[0]] *)
Definition select_order (selected_order_id : cell) (filtered_df : DataFrame)
  : result selection :=
  do order_ids <- getitem "order_id" filtered_df;
  let rows :=
    boolean_index (map (fun c => py_eq c selected_order_id) order_ids) filtered_df in
  Ok (if Nat.eqb (nrows rows) 0 then IndexError else Selected (iloc 0 rows)).



(** ** Showing the recommendation *)





(** The columns the predictor and the scorer write. *)
Definition computed_columns : list string :=
  [ "avg_speed_kmh"; "predicted_time_hours"; "predicted_cost"; "predicted_co2_kg";
    "norm_cost"; "norm_time"; "norm_co2"; "optimization_score" ].

(** A header that ends with a suffix. *)
Fixpoint ends_with (sfx s : string) : bool :=
  String.eqb s sfx
  || match s with
     | EmptyString => false
     | String _ t => ends_with sfx t
     end.

(** More sample data. *)
Module Sample2.

(** A routes table that lists the first order twice. *)
Definition routes_twice : DataFrame :=
  {| index := [0; 1; 2];
     columns := [ ("order_id", [Str "ORD1"; Str "ORD2"; Str "ORD1"]);
                  ("distance_km", [Num 100; Num 250; Num 120]) ] |}.

(** An orders table that has a distance column of its own. *)
Definition orders_with_distance : DataFrame :=
  {| index := [0; 1];
     columns := [ ("order_id", [Str "ORD1"; Str "ORD2"]);
                  ("distance_km", [Num 90; Num 240]) ] |}.

Definition inventory : DataFrame :=
  {| index := [0]; columns := [ ("Warehouse ID", [Str "W1"]) ] |}.

Definition feedback : DataFrame :=
  {| index := [0]; columns := [ ("Order ID", [Str "ORD1"]) ] |}.

Definition orders : DataFrame :=
  {| index := [0; 1];
     columns := [ ("Order ID", [Str "ORD1"; Str "ORD2"]);
                  ("Product Category", [Str "Electronics"; Str "Food & Beverage"]);
                  ("Priority", [Str "Express"; Str "Standard"]) ] |}.

Definition performance : DataFrame :=
  {| index := [0; 1];
     columns := [ ("Order ID", [Str "ORD1"; Str "ORD2"]);
                  ("Promised Delivery Days", [Str "2024-01-05"; Str "2024-01-05"]);
                  ("Actual Delivery Days", [Str "2024-01-06"; Str "soon"]) ] |}.

Definition routes : DataFrame :=
  {| index := [0];
     columns := [ ("Order ID", [Str "ORD1"]); ("Distance (KM)", [Num 100]) ] |}.

Definition fleet : DataFrame :=
  {| index := [0];
     columns := [ ("Vehicle ID", [Str "V1"]); ("Vehicle Type", [Str "van"]) ] |}.

Definition costs : DataFrame :=
  {| index := [0];
     columns := [ ("Order ID", [Str "ORD1"]); ("Delivery Cost", [Num 80]) ] |}.

(** A data folder with the seven files, and one without the inventory. *)
Definition folder (path : string) : read_csv_result :=
  if String.eqb path "/content/NextGen_data/orders.csv" then CsvTable orders
  else if String.eqb path "/content/NextGen_data/delivery_performance.csv"
  then CsvTable performance
  else if String.eqb path "/content/NextGen_data/routes_distance.csv" then CsvTable routes
  else if String.eqb path "/content/NextGen_data/vehicle_fleet.csv" then CsvTable fleet
  else if String.eqb path "/content/NextGen_data/cost_breakdown.csv" then CsvTable costs
  else if String.eqb path "/content/NextGen_data/warehouse_inventory.csv"
  then CsvTable inventory
  else if String.eqb path "/content/NextGen_data/customer_feedback.csv"
  then CsvTable feedback
  else FileNotFoundError.

Definition folder_without_inventory (path : string) : read_csv_result :=
  if String.eqb path "/content/NextGen_data/warehouse_inventory.csv" then FileNotFoundError
  else folder path.

(** A master table with a missing category and a missing order id. *)
Definition master_small : DataFrame :=
  {| index := [0; 1; 2];
     columns := [ ("order_id", [Str "ORD1"; NA; Str "ORD1"]);
                  ("product_category", [Str "Electronics"; NA; Str "Food & Beverage"]);
                  ("priority", [Str "Express"; Str "Express"; Str "Standard"]) ] |}.



(** A performance table whose order ids are numbers, one with two columns
    of order ids, and an orders table with a distance column and a column
    that has the name a merge would give it. *)
Definition performance_numbered : DataFrame :=
  {| index := [0];
     columns := [ ("order_id", [Num 1]); ("customer_rating", [Num 4]) ] |}.

Definition performance_two_ids : DataFrame :=
  {| index := [0];
     columns := [ ("order_id", [Str "ORD1"]); ("order_id", [Str "ORD1"]);
                  ("customer_rating", [Num 4]) ] |}.

Definition orders_with_suffix : DataFrame :=
  {| index := [0; 1];
     columns := [ ("order_id", [Str "ORD1"; Str "ORD2"]);
                  ("distance_km", [Num 90; Num 240]);
                  ("distance_km_x", [Num 91; Num 241]) ] |}.



End Sample2.

(* ================================================================== *)
(** * Checks on the sample data *)
(* ================================================================== *)

Example clean_name_ex1 :
  ColNames.clean_name "Fuel Efficiency (KM/L)" = "fuel_efficiency_km_l".
Proof. reflexivity. Qed.

Example clean_name_ex2 :
  ColNames.clean_name " Order  ID " = "order_id".
Proof. reflexivity. Qed.

Example predict_one_van :
  bind (predict Sample.order100 Sample.one_van) (floats "predicted_cost")
  = Ok [73.333333333333343%float].
Proof. vm_compute. reflexivity. Qed.

Example two_vans_tie :
  floats "optimization_score" Sample.two_vans_scored = Ok [0%float; 0%float].
Proof. vm_compute. reflexivity. Qed.

Example merge_sample_rows :
  bind (merge_all Sample.orders Sample.performance Sample.routes Sample.costs)
       (getitem "distance_km")
  = Ok [Num 100; Num 250].
Proof. vm_compute. reflexivity. Qed.

(** The merges that [pd.merge] refuses: text keys against numeric keys, a
    key label that is not unique, and a suffix that produces a column the
    table already has. *)
Example merge_mixed_keys :
  merge Sample.orders Sample2.performance_numbered "order_id" = Raise ValueError.
Proof. reflexivity. Qed.

Example merge_repeated_key :
  merge Sample.orders Sample2.performance_two_ids "order_id" = Raise ValueError.
Proof. reflexivity. Qed.

Example merge_suffix_collision :
  merge Sample2.orders_with_suffix Sample.routes "order_id" = Raise MergeError.
Proof. reflexivity. Qed.

(* ================================================================== *)
(** * Facts about tables *)
(* ================================================================== *)

Section TableFacts.

Lemma bind_ok {A B} (m : result A) (k : A -> result B) b :
  bind m k = Ok b -> exists a, m = Ok a /\ k a = Ok b.
Proof. destruct m; simpl; [eauto|done]. Qed.

Lemma assoc_set_eq {V} k (v : V) l : assoc k (assoc_set k v l) = Some v.
Proof.
  induction l as [|[k' v'] t IH]; simpl.
  - by rewrite String.eqb_refl.
  - destruct (String.eqb k' k) eqn:E; simpl; [by rewrite String.eqb_refl|].
    by rewrite E.
Qed.

Lemma assoc_set_ne {V} k k' (v : V) l :
  k <> k' -> assoc k' (assoc_set k v l) = assoc k' l.
Proof.
  intros Hne. induction l as [|[k0 v0] t IH]; simpl.
  - apply String.eqb_neq in Hne. by rewrite Hne.
  - destruct (String.eqb k0 k) eqn:E; simpl.
    + apply String.eqb_eq in E. subst k0.
      apply String.eqb_neq in Hne. by rewrite Hne.
    + by rewrite IH.
Qed.

Lemma getitem_setitem_eq col s df : getitem col (setitem col s df) = Ok s.
Proof. unfold getitem, setitem. simpl. by rewrite assoc_set_eq. Qed.

Lemma getitem_setitem_ne col col' s df :
  col <> col' -> getitem col' (setitem col s df) = getitem col' df.
Proof. intros H. unfold getitem, setitem. simpl. by rewrite assoc_set_ne. Qed.

Lemma mapM_nums l : mapM as_float (nums l) = Ok l.
Proof. induction l as [|x t IH]; simpl; [done|]. by rewrite IH. Qed.

Lemma floats_setitem_eq col l df : floats col (setitem col (nums l) df) = Ok l.
Proof. unfold floats. rewrite getitem_setitem_eq. simpl. apply mapM_nums. Qed.

Lemma floats_setitem_ne col col' s df :
  col <> col' -> floats col' (setitem col s df) = floats col' df.
Proof. intros H. unfold floats. by rewrite getitem_setitem_ne. Qed.

Lemma nrows_setitem col s df : nrows (setitem col s df) = nrows df.
Proof. reflexivity. Qed.

Lemma mapM_length {A B} (f : A -> result B) l l' :
  mapM f l = Ok l' -> length l' = length l.
Proof.
  revert l'. induction l as [|a t IH]; simpl; intros l' H.
  - by injection H as <-.
  - apply bind_ok in H as (b & _ & H). apply bind_ok in H as (bs & Hbs & H).
    injection H as <-. simpl. f_equal. by apply IH.
Qed.

Lemma mapM_as_float_lookup s xs i x :
  mapM as_float s = Ok xs -> xs !! i = Some x -> s !! i = Some (Num x).
Proof.
  revert xs i. induction s as [|c t IH]; simpl; intros xs i H Hx.
  - injection H as <-. done.
  - apply bind_ok in H as (b & Hb & H). apply bind_ok in H as (bs & Hbs & H).
    injection H as <-. destruct c; try done. injection Hb as ->.
    destruct i; simpl in *; [by injection Hx as ->|]. eauto.
Qed.

Lemma strongly_sorted_lookup {A} (R : A -> A -> Prop) l :
  StronglySorted R l ->
  forall i j x y, i < j -> l !! i = Some x -> l !! j = Some y -> R x y.
Proof.
  induction 1 as [|a t Ht IH Ha]; intros i j x y Hij Hi Hj; [done|].
  destruct j as [|j]; [lia|]. simpl in Hj.
  destruct i as [|i]; simpl in Hi.
  - injection Hi as <-. rewrite Forall_forall in Ha. apply Ha.
    by eapply list_elem_of_lookup_2.
  - eapply IH; [|done..]. lia.
Qed.


End TableFacts.

Ltac inv_bind H :=
  repeat (let a := fresh "a" in
          let Ha := fresh "Ha" in
          apply bind_ok in H as (a & Ha & H)).

(* ================================================================== *)
(** * Facts about binary64 arithmetic *)
(* ================================================================== *)

Local Open Scope Z_scope.

Section SpecFloatFacts.

Lemma is_nan_Prim2SF x : is_nan x = true <-> Prim2SF x = S754_nan.
Proof.
  unfold Prim2SF. destruct (is_nan x); [done|].
  split; [done|].
  destruct (is_zero x); [done|]. destruct (is_infinity x); [done|].
  destruct (Z.frexp x) as [r e].
  destruct (shr_fexp _ _ _ _ _) as [s e']. destruct (shr_m s); done.
Qed.

Lemma is_nan_false_Prim2SF x : is_nan x = false <-> Prim2SF x <> S754_nan.
Proof.
  rewrite <- is_nan_Prim2SF. destruct (is_nan x); split; congruence.
Qed.

(** Digits of a positive number. *)
Lemma digits2_pos_bounds m :
  2 ^ (Zpos (digits2_pos m) - 1) <= Zpos m < 2 ^ Zpos (digits2_pos m).
Proof.
  induction m as [m IH|m IH|]; simpl digits2_pos.
  - rewrite Pos2Z.inj_succ. replace (Z.succ (Zpos (digits2_pos m)) - 1)
      with (Z.succ (Zpos (digits2_pos m) - 1)) by lia.
    rewrite !Z.pow_succ_r by lia. lia.
  - rewrite Pos2Z.inj_succ. replace (Z.succ (Zpos (digits2_pos m)) - 1)
      with (Z.succ (Zpos (digits2_pos m) - 1)) by lia.
    rewrite !Z.pow_succ_r by lia. lia.
  - simpl. lia.
Qed.

Lemma iter_xO m d : Zpos (Pos.iter xO m d) = Zpos m * 2 ^ Zpos d.
Proof.
  induction d as [|d IH] using Pos.peano_ind.
  - simpl. lia.
  - rewrite Pos.iter_succ, Pos2Z.inj_succ, Z.pow_succ_r by lia.
    rewrite Pos2Z.inj_xO, IH. lia.
Qed.

Lemma shl_align_spec m e e' :
  snd (shl_align m e e') = Z.min e e'
  /\ Zpos (fst (shl_align m e e')) = Zpos m * 2 ^ (e - Z.min e e').
Proof.
  unfold shl_align. destruct (e' - e) as [|d|d] eqn:E; simpl.
  - replace (Z.min e e') with e by lia. rewrite Z.sub_diag. simpl. lia.
  - replace (Z.min e e') with e by lia. rewrite Z.sub_diag. simpl. lia.
  - replace (Z.min e e') with e' by lia. split; [done|].
    rewrite iter_xO. f_equal. f_equal. lia.
Qed.

(** Shifting right. *)
Lemma shr_1_m mrs : 0 <= shr_m mrs -> shr_m (shr_1 mrs) = shr_m mrs / 2.
Proof.
  destruct mrs as [m r s]; simpl. intros Hm.
  destruct m as [|[p|p|]|p]; cbn [shr_m]; [| | | |lia].
  - reflexivity.
  - apply Z.div_unique with (r := 1); lia.
  - apply Z.div_unique with (r := 0); lia.
  - reflexivity.
Qed.

Lemma pow2_xO p : 2 ^ Zpos p~0 = 2 ^ Zpos p * 2 ^ Zpos p.
Proof.
  rewrite (Pos2Z.inj_xO p). replace (2 * Zpos p) with (Zpos p + Zpos p) by lia.
  by rewrite Z.pow_add_r by lia.
Qed.

Lemma pow2_xI p : 2 ^ Zpos p~1 = 2 * (2 ^ Zpos p * 2 ^ Zpos p).
Proof.
  rewrite (Pos2Z.inj_xI p). replace (2 * Zpos p + 1) with (Z.succ (Zpos p + Zpos p)) by lia.
  by rewrite Z.pow_succ_r, Z.pow_add_r by lia.
Qed.

Lemma iter_shr_1_m p : forall mrs,
  0 <= shr_m mrs -> shr_m (SpecFloat.iter_pos shr_1 p mrs) = shr_m mrs / 2 ^ Zpos p.
Proof.
  induction p as [p IH|p IH|]; intros mrs Hm; simpl SpecFloat.iter_pos.
  - assert (H1 : 0 <= shr_m (shr_1 mrs)).
    { rewrite shr_1_m by done. apply Z.div_pos; lia. }
    assert (H2 : 0 <= shr_m (SpecFloat.iter_pos shr_1 p (shr_1 mrs))).
    { rewrite IH by done. apply Z.div_pos; lia. }
    rewrite IH, IH, shr_1_m by done.
    rewrite !Z.div_div by lia. by rewrite pow2_xI.
  - assert (H2 : 0 <= shr_m (SpecFloat.iter_pos shr_1 p mrs)).
    { rewrite IH by done. apply Z.div_pos; lia. }
    rewrite IH, IH by done.
    rewrite !Z.div_div by lia. by rewrite pow2_xO.
  - rewrite shr_1_m by done. by rewrite Z.pow_1_r.
Qed.

Lemma shr_record_of_loc_m m l : shr_m (shr_record_of_loc m l) = m.
Proof. destruct l as [|[]]; reflexivity. Qed.

Lemma round_nearest_even_ge m l : m <= round_nearest_even m l.
Proof.
  destruct l as [|[]]; simpl; try lia. destruct (Z.even m); lia.
Qed.

Variables prec emax : Z.
Hypothesis prec_pos : 0 < prec.

Lemma fexp_ge_emin k : SpecFloat.emin prec emax <= fexp prec emax k.
Proof. unfold fexp. lia. Qed.

(** A non-negative mantissa stays non-negative. *)
Lemma shr_fexp_nonneg m e l :
  0 <= m -> 0 <= shr_m (fst (shr_fexp prec emax m e l)).
Proof.
  intros Hm. unfold shr_fexp, shr.
  destruct (fexp prec emax (Zdigits2 m + e) - e) as [|p|p]; simpl;
    rewrite ?iter_shr_1_m, ?shr_record_of_loc_m; rewrite ?shr_record_of_loc_m; try done.
  apply Z.div_pos; lia.
Qed.

(** A positive mantissa at an exponent not below [emin] stays positive:
    rounding never flushes it to zero. *)
Lemma shr_fexp_pos m e l :
  0 < m -> SpecFloat.emin prec emax <= e ->
  0 < shr_m (fst (shr_fexp prec emax m e l))
  /\ SpecFloat.emin prec emax <= snd (shr_fexp prec emax m e l).
Proof.
  intros Hm He. unfold shr_fexp, shr.
  destruct (fexp prec emax (Zdigits2 m + e) - e) as [|p|p] eqn:E; simpl;
    rewrite ?shr_record_of_loc_m; try done.
  rewrite iter_shr_1_m by (rewrite shr_record_of_loc_m; lia).
  rewrite shr_record_of_loc_m.
  destruct m as [|m|m]; try lia. simpl Zdigits2 in E.
  pose proof (digits2_pos_bounds m) as [Hlo _].
  unfold fexp in E.
  assert (Hp : Zpos p = Zpos (digits2_pos m) - prec) by lia.
  split; [|unfold SpecFloat.emin in *; lia].
  apply Z.div_str_pos. split; [lia|].
  eapply Z.le_trans; [|exact Hlo].
  apply Z.pow_le_mono_r; lia.
Qed.

Lemma binary_round_aux_not_nan s m e l :
  0 <= m -> binary_round_aux prec emax s m e l <> S754_nan.
Proof.
  intros Hm. unfold binary_round_aux.
  pose proof (shr_fexp_nonneg m e l Hm) as H1.
  destruct (shr_fexp prec emax m e l) as [mrs' e'] eqn:E1. simpl in H1.
  pose proof (round_nearest_even_ge (shr_m mrs') (loc_of_shr_record mrs')) as H2.
  pose proof (shr_fexp_nonneg (round_nearest_even (shr_m mrs') (loc_of_shr_record mrs'))
                e' loc_Exact ltac:(lia)) as H3.
  destruct (shr_fexp prec emax _ e' loc_Exact) as [mrs'' e''] eqn:E2. simpl in H3.
  destruct (shr_m mrs''); [done| |lia].
  destruct (e'' <=? emax - prec); done.
Qed.

Lemma binary_round_aux_pos s m e l :
  0 < m -> SpecFloat.emin prec emax <= e ->
  positive_float s (binary_round_aux prec emax s m e l).
Proof.
  intros Hm He. unfold binary_round_aux.
  pose proof (shr_fexp_pos m e l Hm He) as [H1 H1'].
  destruct (shr_fexp prec emax m e l) as [mrs' e'] eqn:E1. simpl in H1, H1'.
  pose proof (round_nearest_even_ge (shr_m mrs') (loc_of_shr_record mrs')) as H2.
  pose proof (shr_fexp_pos (round_nearest_even (shr_m mrs') (loc_of_shr_record mrs'))
                e' loc_Exact ltac:(lia) H1') as [H3 _].
  destruct (shr_fexp prec emax _ e' loc_Exact) as [mrs'' e''] eqn:E2. simpl in H3.
  destruct (shr_m mrs''); [lia| |lia].
  destruct (e'' <=? emax - prec); [right; eauto|left; done].
Qed.

Lemma binary_round_pos s m e :
  SpecFloat.emin prec emax <= e ->
  positive_float s (binary_round prec emax s m e).
Proof.
  intros He. unfold binary_round.
  pose proof (shl_align_spec m e (fexp prec emax (Zpos (digits2_pos m) + e))) as [H1 H2].
  destruct (shl_align _ _ _) as [mz ez]. simpl in H1, H2.
  apply binary_round_aux_pos; [lia|].
  pose proof (fexp_ge_emin (Zpos (digits2_pos m) + e)). lia.
Qed.


End SpecFloatFacts.

Section Subtraction.

Variables prec emax : Z.
Hypothesis prec_pos : 0 < prec.

Lemma bounded_digits m e :
  bounded prec emax m e = true ->
  Zpos (digits2_pos m) <= prec
  /\ SpecFloat.emin prec emax <= e
  /\ (SpecFloat.emin prec emax < e -> Zpos (digits2_pos m) = prec).
Proof.
  unfold bounded, canonical_mantissa, fexp. intros H.
  apply andb_prop in H as [H _]. apply Z.eqb_eq in H. lia.
Qed.

(** Of two valid finite numbers, the one that compares smaller has the
    smaller mantissa once both are brought to the lower exponent. *)
Lemma aligned_lt ma ea mb eb :
  bounded prec emax ma ea = true -> bounded prec emax mb eb = true ->
  ea < eb \/ (ea = eb /\ Zpos ma < Zpos mb) ->
  Zpos (fst (shl_align ma ea (Z.min ea eb))) < Zpos (fst (shl_align mb eb (Z.min ea eb))).
Proof.
  intros Ha Hb Hlt.
  apply bounded_digits in Ha as (Hda & Hea & _).
  apply bounded_digits in Hb as (_ & _ & Hdb).
  destruct (shl_align_spec ma ea (Z.min ea eb)) as [_ ->].
  destruct (shl_align_spec mb eb (Z.min ea eb)) as [_ ->].
  replace (Z.min ea (Z.min ea eb)) with (Z.min ea eb) by lia.
  replace (Z.min eb (Z.min ea eb)) with (Z.min ea eb) by lia.
  destruct Hlt as [Hlt|[-> Hlt]].
  - replace (Z.min ea eb) with ea by lia. rewrite Z.sub_diag, Z.pow_0_r, Z.mul_1_r.
    pose proof (digits2_pos_bounds ma) as [_ Hma].
    pose proof (digits2_pos_bounds mb) as [Hmb _].
    rewrite Hdb in Hmb by lia.
    assert (H2 : 2 ^ 1 <= 2 ^ (eb - ea)) by (apply Z.pow_le_mono_r; lia).
    assert (Hp : 2 ^ Zpos (digits2_pos ma) <= 2 ^ prec) by (apply Z.pow_le_mono_r; lia).
    assert (Hs : 2 ^ prec = 2 ^ (prec - 1) * 2 ^ 1).
    { rewrite <- Z.pow_add_r by lia. f_equal. lia. }
    assert (H0 : 0 < 2 ^ (prec - 1)) by (apply Z.pow_pos_nonneg; lia).
    nia.
  - replace (Z.min eb eb) with eb by lia. rewrite Z.sub_diag, Z.pow_0_r. lia.
Qed.

Lemma SFltb_zero_positive x : positive_float false x -> SFltb (S754_zero false) x = true.
Proof. intros [->|(m & e & ->)]; reflexivity. Qed.

Lemma binary_normalize_pos d e :
  0 < d -> SpecFloat.emin prec emax <= e ->
  positive_float false (binary_normalize prec emax d e false).
Proof.
  intros Hd He. destruct d as [|d|d]; try lia. simpl.
  by apply binary_round_pos.
Qed.

(** If [a < b] then [b - a] is positive: with gradual underflow the
    difference of two different numbers never rounds to zero. *)
Lemma SFsub_pos a b :
  SpecFloat.valid_binary prec emax a = true -> SpecFloat.valid_binary prec emax b = true ->
  SFltb a b = true ->
  SFltb (S754_zero false) (SFsub prec emax b a) = true.
Proof.
  intros Va Vb Hlt.
  destruct a as [sa|sa| |sa ma ea], b as [sb|sb| |sb mb eb];
    try discriminate Hlt;
    try (destruct sa, sb; try discriminate Hlt; reflexivity).
  unfold SFsub. apply SFltb_zero_positive. simpl in Va, Vb.
  pose proof (bounded_digits _ _ Va) as (_ & Hea & _).
  pose proof (bounded_digits _ _ Vb) as (_ & Heb & _).
  apply binary_normalize_pos; [|lia].
  unfold SFltb, SFcompare in Hlt.
  destruct sa, sb; simpl cond_Zopp; try discriminate Hlt.
  - (* both negative: |b| < |a| *)
    assert (H : eb < ea \/ (eb = ea /\ Zpos mb < Zpos ma)).
    { destruct (Z.compare_spec ea eb) as [->|?|?]; try discriminate Hlt; [|lia].
      right. split; [done|].
      change (Pos.compare_cont Eq ma mb) with (Pos.compare ma mb) in Hlt.
      destruct (Pos.compare_spec ma mb); try discriminate Hlt. lia. }
    pose proof (aligned_lt mb eb ma ea Vb Va H). lia.
  - lia.
  - assert (H : ea < eb \/ (ea = eb /\ Zpos ma < Zpos mb)).
    { destruct (Z.compare_spec ea eb) as [->|?|?]; try discriminate Hlt; [|lia].
      right. split; [done|].
      change (Pos.compare_cont Eq ma mb) with (Pos.compare ma mb) in Hlt.
      destruct (Pos.compare_spec ma mb); try discriminate Hlt. lia. }
    pose proof (aligned_lt ma ea mb eb Va Vb H).
    replace (Z.min eb ea) with (Z.min ea eb) by lia. lia.
Qed.

(** Two numbers that compare equal have a difference that is not
    positive (a zero, or [nan] for two infinities). *)
Lemma SFsub_eq_not_pos a b v :
  SFcompare a v = Some Eq -> SFcompare b v = Some Eq ->
  SFltb (S754_zero false) (SFsub prec emax b a) = false.
Proof.
  intros Ha Hb.
  assert (Hfin : forall s m e s' m' e',
             SFcompare (S754_finite s m e) (S754_finite s' m' e') = Some Eq ->
             s = s' /\ m = m' /\ e = e').
  { intros s m e s' m' e' H. simpl in H.
    destruct s, s'; try discriminate H;
      destruct (Z.compare_spec e e') as [->|?|?]; try discriminate H;
      change (Pos.compare_cont Eq m m') with (Pos.compare m m') in H;
      destruct (Pos.compare_spec m m') as [->|?|?]; try discriminate H; done. }
  destruct v as [sv|sv| |sv mv ev].
  - destruct a as [sa|sa| |sa ma ea]; try (destruct sa; discriminate Ha); try discriminate Ha;
    destruct b as [sb|sb| |sb mb eb]; try (destruct sb; discriminate Hb); try discriminate Hb.
    destruct sa, sb; reflexivity.
  - destruct a as [sa|sa| |sa ma ea]; try (destruct sv; discriminate Ha); try discriminate Ha;
    destruct b as [sb|sb| |sb mb eb]; try (destruct sv; discriminate Hb); try discriminate Hb.
    destruct sa, sb, sv; try discriminate Ha; try discriminate Hb; reflexivity.
  - destruct a; discriminate Ha.
  - destruct a as [sa|sa| |sa ma ea]; try (destruct sa; discriminate Ha);
      try (destruct sv; discriminate Ha); try discriminate Ha.
    destruct b as [sb|sb| |sb mb eb]; try (destruct sb; discriminate Hb);
      try (destruct sv; discriminate Hb); try discriminate Hb.
    apply Hfin in Ha as (-> & -> & ->). apply Hfin in Hb as (-> & -> & ->).
    unfold SFsub. rewrite Z.sub_diag. reflexivity.
Qed.

Lemma SFcompare_refl x : x <> S754_nan -> SFcompare x x = Some Eq.
Proof.
  destruct x as [s|s| |s m e]; try done; intros _; simpl.
  - by destruct s.
  - rewrite Z.compare_refl.
    change (Pos.compare_cont Eq m m) with (Pos.compare m m).
    rewrite Pos.compare_refl. by destruct s.
Qed.

End Subtraction.

Section Division.

Variables prec emax : Z.

Lemma SFdiv_not_nan x s m e :
  x <> S754_nan -> SFdiv prec emax x (S754_finite s m e) <> S754_nan.
Proof.
  intros Hx. destruct x as [sx|sx| |sx mx ex]; try done. unfold SFdiv.
  destruct (SFdiv_core_binary prec emax (Zpos mx) ex (Zpos m) e) as [[mz ez] lz] eqn:E.
  apply binary_round_aux_not_nan.
  unfold SFdiv_core_binary in E.
  set (s' := ex - e - _) in E.
  set (m' := match s' with Z0 => Zpos mx | Zpos _ => Z.shiftl (Zpos mx) s' | Zneg _ => 0 end) in E.
  assert (Hm' : 0 <= m').
  { subst m'. destruct s'; try lia. apply Z.shiftl_nonneg. lia. }
  pose proof (Z.div_pos m' (Zpos m) Hm' ltac:(lia)) as Hq.
  unfold Z.div in Hq. destruct (Z.div_eucl m' (Zpos m)) as [q r].
  simpl in Hq. injection E as <- _ _. done.
Qed.


End Division.

(** Comparison as a lexicographic order on integer keys. *)
Section Order.

Lemma SFleb_key x y :
  x <> S754_nan -> y <> S754_nan ->
  SFleb x y = true <-> key_le (sf_key x) (sf_key y).
Proof.
  intros Hx Hy. unfold SFleb.
  destruct x as [sx|sx| |sx mx ex], y as [sy|sy| |sy my ey]; try done;
    try (destruct sx; simpl; split; (done || lia));
    try (destruct sy; simpl; split; (done || lia));
    try (destruct sx, sy; simpl; split; (done || lia)).
  destruct sx, sy; simpl; try (split; (done || lia));
    change (Pos.compare_cont Eq mx my) with (Pos.compare mx my);
    destruct (Z.compare_spec ex ey); destruct (Pos.compare_spec mx my);
    simpl; split; (done || lia).
Qed.

Lemma SFltb_key x y :
  x <> S754_nan -> y <> S754_nan ->
  SFltb x y = true <-> ~ key_le (sf_key y) (sf_key x).
Proof.
  intros Hx Hy. unfold SFltb.
  destruct x as [sx|sx| |sx mx ex], y as [sy|sy| |sy my ey]; try done;
    try (destruct sx; simpl; split; (done || lia));
    try (destruct sy; simpl; split; (done || lia));
    try (destruct sx, sy; simpl; split; (done || lia)).
  destruct sx, sy; simpl; try (split; (done || lia));
    change (Pos.compare_cont Eq mx my) with (Pos.compare mx my);
    destruct (Z.compare_spec ex ey); destruct (Pos.compare_spec mx my);
    simpl; split; (done || lia).
Qed.

Lemma key_le_trans k1 k2 k3 : key_le k1 k2 -> key_le k2 k3 -> key_le k1 k3.
Proof. destruct k1 as [[??]?], k2 as [[??]?], k3 as [[??]?]. simpl. lia. Qed.

Lemma key_le_total k1 k2 : key_le k1 k2 \/ key_le k2 k1.
Proof. destruct k1 as [[??]?], k2 as [[??]?]. simpl. lia. Qed.

End Order.

Local Close Scope Z_scope.
Local Open Scope float_scope.

Section PrimFacts.

Lemma ltb_sub_pos a b : (a <? b) = true -> (0 <? b - a) = true.
Proof.
  rewrite !FloatAxioms.ltb_spec, sub_spec. intros H.
  change (Prim2SF 0) with (S754_zero false).
  apply SFsub_pos; [reflexivity|apply Prim2SF_valid..|done].
Qed.


Lemma same_value_compare x v :
  is_nan v = false -> same_value x v -> SFcompare (Prim2SF x) (Prim2SF v) = Some Eq.
Proof.
  intros Hv [->|H].
  - apply SFcompare_refl. by apply is_nan_false_Prim2SF.
  - rewrite FloatAxioms.eqb_spec in H. unfold SFeqb in H.
    destruct (SFcompare _ _) as [[]|]; done.
Qed.

Lemma same_value_nan x v : is_nan v = true -> same_value x v -> x = v.
Proof.
  intros Hv [->|H]; [done|]. exfalso.
  apply is_nan_Prim2SF in Hv. rewrite FloatAxioms.eqb_spec, Hv in H.
  unfold SFeqb in H. destruct (Prim2SF x); done.
Qed.

Lemma sub_same_value_not_pos a b v :
  same_value a v -> same_value b v -> (0 <? b - a) = false.
Proof.
  intros Ha Hb. rewrite FloatAxioms.ltb_spec, sub_spec.
  destruct (is_nan v) eqn:Hv.
  - apply same_value_nan in Ha, Hb; try done. subst.
    apply is_nan_Prim2SF in Hv. rewrite Hv. reflexivity.
  - apply (SFsub_eq_not_pos _ _ _ _ (Prim2SF v)); by apply same_value_compare.
Qed.

Lemma div_not_nan x y s m e :
  Prim2SF y = S754_finite s m e -> is_nan x = false -> is_nan (x / y) = false.
Proof.
  intros Hy Hx. apply is_nan_false_Prim2SF. rewrite div_spec, Hy.
  apply SFdiv_not_nan. by apply is_nan_false_Prim2SF.
Qed.

Lemma leb_key x y :
  is_nan x = false -> is_nan y = false ->
  (x <=? y) = true <-> key_le (sf_key (Prim2SF x)) (sf_key (Prim2SF y)).
Proof.
  intros Hx Hy. rewrite FloatAxioms.leb_spec.
  apply SFleb_key; by apply is_nan_false_Prim2SF.
Qed.

Lemma ltb_key x y :
  is_nan x = false -> is_nan y = false ->
  (x <? y) = true <-> ~ key_le (sf_key (Prim2SF y)) (sf_key (Prim2SF x)).
Proof.
  intros Hx Hy. rewrite FloatAxioms.ltb_spec.
  apply SFltb_key; by apply is_nan_false_Prim2SF.
Qed.

Lemma score_le_trans x y z :
  score_le x y = true -> score_le y z = true -> score_le x z = true.
Proof.
  unfold score_le. intros Hxy Hyz.
  destruct (is_nan z) eqn:Hz; [done|]. simpl in *.
  destruct (is_nan y) eqn:Hy; [done|]. simpl in *.
  destruct (is_nan x) eqn:Hx; [done|]. simpl in *.
  apply leb_key; [done..|]. apply leb_key in Hxy, Hyz; try done.
  by eapply key_le_trans.
Qed.

Lemma score_le_total x y : score_le x y = true \/ score_le y x = true.
Proof.
  unfold score_le.
  destruct (is_nan y) eqn:Hy; [by left|].
  destruct (is_nan x) eqn:Hx; [by right|]. simpl.
  rewrite !leb_key by done. apply key_le_total.
Qed.

Lemma score_le_refl x : score_le x x = true.
Proof. destruct (score_le_total x x); done. Qed.

Lemma key_le_dec k1 k2 : key_le k1 k2 \/ ~ key_le k1 k2.
Proof. destruct k1 as [[??]?], k2 as [[??]?]. simpl. lia. Qed.

Lemma leb_refl x : is_nan x = false -> (x <=? x) = true.
Proof.
  intros H. apply leb_key; [done..|]. by destruct (key_le_total (sf_key (Prim2SF x)) (sf_key (Prim2SF x))).
Qed.

Lemma leb_trans x y z :
  is_nan x = false -> is_nan y = false -> is_nan z = false ->
  (x <=? y) = true -> (y <=? z) = true -> (x <=? z) = true.
Proof.
  intros Hx Hy Hz. rewrite !leb_key by done. apply key_le_trans.
Qed.

Lemma ltb_leb x y :
  is_nan x = false -> is_nan y = false -> (x <? y) = true -> (x <=? y) = true.
Proof.
  intros Hx Hy H. apply leb_key; [done..|]. apply ltb_key in H; [|done..].
  by destruct (key_le_total (sf_key (Prim2SF x)) (sf_key (Prim2SF y))).
Qed.

Lemma ltb_false_leb x y :
  is_nan x = false -> is_nan y = false -> (x <? y) = false -> (y <=? x) = true.
Proof.
  intros Hx Hy H. apply leb_key; [done..|].
  destruct (key_le_dec (sf_key (Prim2SF y)) (sf_key (Prim2SF x))) as [K|K]; [done|].
  apply ltb_key in K; [congruence|done..].
Qed.


End PrimFacts.

Local Close Scope float_scope.
Local Open Scope string_scope.

(* ================================================================== *)
(** * The column normaliser *)
(* ================================================================== *)

Section CleanNames.
Import ColNames.

Lemma settle_char c :
  settled (if in_class (lower_char c) then "_"%char else lower_char c).
Proof.
  destruct c as [[] [] [] [] [] [] [] []]; vm_compute; split; reflexivity.
Qed.

Lemma lower_replace_settled s : all_chars settled (replace_class (lower s)).
Proof. induction s as [|c t IH]; simpl; auto using settle_char. Qed.

Lemma replace_runs_chars P s : all_chars P s -> all_chars P (replace_runs s).
Proof.
  induction s as [|c t IH]; simpl; [done|].
  intros [Hc Ht]. destruct t as [|d u]; [simpl; auto|].
  destruct (is_underscore c && is_underscore d); [auto|].
  split; auto.
Qed.

Lemma lstrip_chars P s : all_chars P s -> all_chars P (lstrip s).
Proof.
  induction s as [|c t IH]; simpl; [done|].
  intros [Hc Ht]. destruct (is_underscore c); simpl; auto.
Qed.

Lemma rstrip_chars P s : all_chars P s -> all_chars P (rstrip s).
Proof.
  induction s as [|c t IH]; simpl; [done|].
  intros [Hc Ht]. specialize (IH Ht).
  destruct (rstrip t); [destruct (is_underscore c); simpl; auto|].
  split; auto.
Qed.

Lemma replace_runs_head c t :
  exists u, replace_runs (String c t) = String c u.
Proof.
  revert c. induction t as [|d u IH]; intros c; simpl; [eauto|].
  destruct (is_underscore c && is_underscore d) eqn:E; [|eauto].
  apply andb_prop in E as [Hc Hd].
  apply Ascii.eqb_eq in Hc, Hd. subst. apply IH.
Qed.

Lemma replace_runs_no_runs s : no_runs (replace_runs s).
Proof.
  induction s as [|c t IH]; [done|].
  destruct t as [|d u]; [done|].
  change (replace_runs (String c (String d u)))
    with (if is_underscore c && is_underscore d then replace_runs (String d u)
          else String c (replace_runs (String d u))).
  destruct (is_underscore c && is_underscore d) eqn:E; [done|].
  destruct (replace_runs_head d u) as [v Hv]. rewrite Hv in IH |- *.
  split; done.
Qed.

Lemma lstrip_no_runs s : no_runs s -> no_runs (lstrip s).
Proof.
  induction s as [|c t IH]; [done|]. intros H. simpl.
  destruct (is_underscore c); [|done].
  apply IH. destruct t; [done|]. apply H.
Qed.

Lemma no_runs_tail c t : no_runs (String c t) -> no_runs t.
Proof. destruct t; [done|]. intros [_ H]. done. Qed.

Lemma rstrip_head c t u : rstrip (String c t) = u -> u = EmptyString \/ exists v, u = String c v.
Proof.
  simpl. destruct (rstrip t); [destruct (is_underscore c)|]; intros <-; eauto.
Qed.

Lemma rstrip_no_runs s : no_runs s -> no_runs (rstrip s).
Proof.
  induction s as [|c t IH]; [done|]. intros H.
  specialize (IH (no_runs_tail _ _ H)).
  simpl. destruct (rstrip t) as [|d v] eqn:E; [destruct (is_underscore c); done|].
  split; [|done].
  destruct t as [|d' t']; [done|].
  destruct (rstrip_head _ _ _ E) as [?|[w Hw]]; [done|].
  injection Hw as -> _. apply H.
Qed.

Lemma rstrip_cons c t :
  rstrip (String c t)
  = match rstrip t with
    | EmptyString => if is_underscore c then EmptyString else String c EmptyString
    | t' => String c t'
    end.
Proof. reflexivity. Qed.

Lemma rstrip_idem s : rstrip (rstrip s) = rstrip s.
Proof.
  induction s as [|c t IH]; [done|]. simpl.
  destruct (rstrip t) as [|d v] eqn:E.
  - destruct (is_underscore c) eqn:Hc; simpl; [done|]. by rewrite Hc.
  - rewrite rstrip_cons, IH. done.
Qed.

Lemma lstrip_rstrip s : lstrip s = s -> lstrip (rstrip s) = rstrip s.
Proof.
  destruct s as [|c t]; [done|]. intros H.
  destruct (is_underscore c) eqn:Hc.
  - exfalso. simpl in H. rewrite Hc in H.
    assert (Hlen : forall u, String.length (lstrip u) <= String.length u).
    { induction u as [|a u IHu]; simpl; [lia|].
      destruct (is_underscore a); simpl; lia. }
    specialize (Hlen t). rewrite H in Hlen. simpl in Hlen. lia.
  - simpl. destruct (rstrip t); rewrite ?Hc; simpl; by rewrite ?Hc.
Qed.

Lemma lstrip_idem s : lstrip (lstrip s) = lstrip s.
Proof.
  induction s as [|c t IH]; [done|]. simpl.
  destruct (is_underscore c) eqn:Hc; [done|]. simpl. by rewrite Hc.
Qed.

Lemma strip_idem s : strip (strip s) = strip s.
Proof.
  unfold strip. rewrite (lstrip_rstrip (lstrip s)) by apply lstrip_idem.
  apply rstrip_idem.
Qed.

Lemma settled_lower s : all_chars settled s -> lower s = s.
Proof.
  induction s as [|c t IH]; [done|]. intros [[Hc _] Ht]. simpl.
  by rewrite Hc, IH.
Qed.

Lemma settled_replace_class s : all_chars settled s -> replace_class s = s.
Proof.
  induction s as [|c t IH]; [done|]. intros [[_ Hc] Ht]. simpl.
  by rewrite Hc, IH.
Qed.

Lemma no_runs_replace_runs s : no_runs s -> replace_runs s = s.
Proof.
  induction s as [|c t IH]; [done|]. intros H.
  destruct t as [|d u]; [done|].
  destruct H as [E H].
  change (replace_runs (String c (String d u)))
    with (if is_underscore c && is_underscore d then replace_runs (String d u)
          else String c (replace_runs (String d u))).
  rewrite E. by rewrite IH.
Qed.

Lemma clean_name_idem s : clean_name (clean_name s) = clean_name s.
Proof.
  unfold clean_name.
  set (t := replace_runs (replace_class (lower s))).
  assert (Hc : all_chars settled (strip t)).
  { apply rstrip_chars, lstrip_chars, replace_runs_chars, lower_replace_settled. }
  assert (Hr : no_runs (strip t)).
  { apply rstrip_no_runs, lstrip_no_runs, replace_runs_no_runs. }
  rewrite (settled_lower _ Hc), (settled_replace_class _ Hc),
    (no_runs_replace_runs _ Hr).
  apply strip_idem.
Qed.

End CleanNames.

(** C9: the Column Normalizer is idempotent.  Cleaning a list of headers
    (lowercase; whitespace, parentheses and slashes to underscores; runs of
    underscores collapsed; leading and trailing underscores stripped) twice
    gives the same headers as cleaning it once, and so does cleaning the
    headers of a table twice. *)
Theorem clean_headers_idempotent (cols : list string) (df : DataFrame) :
  ColNames.clean_headers (ColNames.clean_headers cols) = ColNames.clean_headers cols
  /\ clean_col_names (clean_col_names df) = clean_col_names df.
Proof.
  split.
  - unfold ColNames.clean_headers. rewrite map_map.
    apply map_ext. intros s. apply clean_name_idem.
  - unfold clean_col_names. simpl. f_equal. rewrite map_map.
    apply map_ext. intros [c s]. simpl. by rewrite clean_name_idem.
Qed.

(* ================================================================== *)
(** * The record merger *)
(* ================================================================== *)

Section Columns.

Lemma has_column_getitem col df :
  has_column col df = true <-> exists s, getitem col df = Ok s.
Proof.
  unfold has_column, getitem, column_names, mem_string.
  induction (columns df) as [|[k v] t IH]; simpl.
  - split; [done|]. intros [s H]. done.
  - rewrite (String.eqb_sym col k). destruct (String.eqb k col); simpl; [|done].
    split; eauto.
Qed.

Lemma has_column_false col df :
  has_column col df = false <-> exists e, getitem col df = Raise e.
Proof.
  pose proof (has_column_getitem col df) as H.
  destruct (has_column col df); split; try done.
  - intros [e He]. destruct H as [[s Hs] _]; [done|]. congruence.
  - intros _. destruct (getitem col df) as [s|e] eqn:E; [|eauto].
    destruct H as [_ H]. discriminate H. eauto.
Qed.

Lemma getitem_cases col df :
  (exists s, getitem col df = Ok s /\ has_column col df = true)
  \/ (getitem col df = Raise (KeyError col) /\ has_column col df = false).
Proof.
  destruct (has_column col df) eqn:E.
  - left. apply has_column_getitem in E as [s Hs]. eauto.
  - right. split; [|done]. apply has_column_false in E as [e He].
    unfold getitem in *. destruct (assoc col (columns df)); [done|]. done.
Qed.

Lemma mem_string_In c l : mem_string c l = true <-> In c l.
Proof.
  unfold mem_string. rewrite existsb_exists. split.
  - intros (x & Hx & E). apply String.eqb_eq in E. by subst.
  - intros H. exists c. split; [done|apply String.eqb_refl].
Qed.

Lemma has_column_In col df : has_column col df = true <-> In col (column_names df).
Proof. apply mem_string_In. Qed.

Lemma getitem_In col df s : getitem col df = Ok s -> In (col, s) (columns df).
Proof.
  unfold getitem. induction (columns df) as [|[c v] t IH]; simpl; [done|].
  destruct (String.eqb_spec c col) as [->|_]; [intros [= ->]; by left|].
  intros H. right. by apply IH.
Qed.

Lemma count_label_zero col df : count_label col df = 0 <-> has_column col df = false.
Proof.
  unfold count_label, has_column, mem_string.
  induction (column_names df) as [|c t IH]; simpl; [done|].
  destruct (String.eqb col c); simpl; [done|]. apply IH.
Qed.

Lemma key_values_inv on df ks :
  key_values on df = Ok ks -> count_label on df = 1 /\ getitem on df = Ok ks.
Proof.
  unfold key_values. destruct (count_label on df) as [|[|n]]; done.
Qed.

Lemma key_values_missing on df :
  has_column on df = false -> key_values on df = Raise (KeyError on).
Proof. intros H. apply count_label_zero in H. unfold key_values. by rewrite H. Qed.

Lemma key_values_raises on df e :
  key_values on df = Raise e ->
  (e = KeyError on /\ has_column on df = false)
  \/ (e = ValueError /\ 2 <= count_label on df).
Proof.
  unfold key_values. destruct (count_label on df) as [|[|n]] eqn:E.
  - intros [= <-]. left. split; [done|]. by apply count_label_zero.
  - intros H. destruct (getitem_cases on df) as [(s & Hs & _)|[_ Hno]]; [congruence|].
    apply count_label_zero in Hno. lia.
  - intros [= <-]. right. split; [done|lia].
Qed.

(** What a merge that returns has checked and built. *)
Lemma merge_inv left right on merged :
  merge left right on = Ok merged ->
  exists lkeys rkeys,
    getitem on left = Ok lkeys
    /\ getitem on right = Ok rkeys
    /\ merged
       = {| index := seq 0 (length (left_join_indexer lkeys rkeys));
            columns :=
              map (fun cs => (suffixed on left right "_x" (fst cs),
                              take_left (left_join_indexer lkeys rkeys) (snd cs)))
                  (columns left)
              ++ map (fun cs => (suffixed on left right "_y" (fst cs),
                                 take_right (left_join_indexer lkeys rkeys) (snd cs)))
                     (drop_key on (columns right)) |}.
Proof.
  unfold merge. intros H.
  apply bind_ok in H as (rkeys & Hr & H). apply bind_ok in H as (lkeys & Hl & H).
  apply bind_ok in H as (checked & Hc & H).
  apply key_values_inv in Hr as [_ Hr]. apply key_values_inv in Hl as [_ Hl].
  exists lkeys, rkeys. split; [done|]. split; [done|].
  destruct (_ ++ _)%list in H; [|done]. by injection H as <-.
Qed.

Lemma merged_names left right on merged :
  merge left right on = Ok merged ->
  column_names merged
  = (map (suffixed on left right "_x") (column_names left)
     ++ map (fun cs => suffixed on left right "_y" (fst cs))
            (drop_key on (columns right)))%list.
Proof.
  intros H. apply merge_inv in H as (lk & rk & _ & _ & ->).
  unfold column_names. simpl. rewrite map_app, !map_map. done.
Qed.

Lemma merge_checks left right on merged :
  merge left right on = Ok merged ->
  exists lkeys rkeys,
    count_label on left = 1 /\ count_label on right = 1
    /\ getitem on left = Ok lkeys /\ getitem on right = Ok rkeys
    /\ coerce_merge_keys lkeys rkeys = Ok tt
    /\ (suffix_duplicates (map fst (columns left))
          (map (suffixed on left right "_x") (map fst (columns left)))
        ++ suffix_duplicates (map fst (drop_key on (columns right)))
             (map (suffixed on left right "_y") (map fst (drop_key on (columns right)))))%list
       = [].
Proof.
  unfold merge. intros H.
  apply bind_ok in H as (rkeys & Hr & H). apply bind_ok in H as (lkeys & Hl & H).
  apply bind_ok in H as ([] & Hc & H).
  apply key_values_inv in Hr as [Cr Hr]. apply key_values_inv in Hl as [Cl Hl].
  exists lkeys, rkeys. repeat (split; [done|]).
  by destruct (_ ++ _)%list in H |- *.
Qed.

Lemma merge_returns left right on lkeys rkeys :
  count_label on left = 1 -> count_label on right = 1 ->
  getitem on left = Ok lkeys -> getitem on right = Ok rkeys ->
  coerce_merge_keys lkeys rkeys = Ok tt ->
  (suffix_duplicates (map fst (columns left))
     (map (suffixed on left right "_x") (map fst (columns left)))
   ++ suffix_duplicates (map fst (drop_key on (columns right)))
        (map (suffixed on left right "_y") (map fst (drop_key on (columns right)))))%list
  = [] ->
  exists merged, merge left right on = Ok merged.
Proof.
  intros Cl Cr Hl Hr Hc Hd. unfold merge, key_values.
  rewrite Cl, Cr, Hl, Hr. cbn [bind]. rewrite Hc. cbn [bind]. rewrite Hd. eauto.
Qed.

End Columns.

Section LeftJoin.

Lemma concat_imap_singleton {A B} (g : nat -> A -> B) (l : list A) :
  concat (imap (fun i a => [g i a]) l) = imap g l.
Proof.
  revert g. induction l as [|a t IH]; intros g; simpl; [done|].
  f_equal. apply (IH (g ∘ S)).
Qed.

Lemma left_join_indexer_unique lkeys rkeys :
  (forall k, length (matches k rkeys) <= 1) ->
  left_join_indexer lkeys rkeys = imap (fun i k => (i, head (matches k rkeys))) lkeys.
Proof.
  intros Hu. unfold left_join_indexer.
  rewrite <- (concat_imap_singleton (fun i k => (i, head (matches k rkeys)))).
  f_equal. apply imap_ext. intros i k _. unfold left_join_row.
  specialize (Hu k). destruct (matches k rkeys) as [|j [|j' t]]; simpl in *; [done..|lia].
Qed.

Lemma take_left_unique (h : cell -> option nat) lkeys (s : Series) :
  length s = length lkeys ->
  take_left (imap (fun i k => (i, h k)) lkeys) s = s.
Proof.
  intros Hlen. unfold take_left. apply list_eq. intros i.
  rewrite list_lookup_fmap, list_lookup_imap.
  destruct (lkeys !! i) as [k|] eqn:E; simpl.
  - apply lookup_lt_Some in E. rewrite <- Hlen in E.
    apply lookup_lt_is_Some in E as [c Hc]. rewrite Hc. f_equal.
    by rewrite nth_lookup, Hc.
  - apply lookup_ge_None in E. symmetry. apply lookup_ge_None. lia.
Qed.

Lemma take_right_unique lkeys rkeys (s : Series) :
  take_right (imap (fun i k => (i, head (matches k rkeys))) lkeys) s
  = lookup_right lkeys rkeys s.
Proof.
  unfold take_right, lookup_right. apply list_eq. intros i.
  rewrite !list_lookup_fmap, list_lookup_imap.
  destruct (lkeys !! i) as [k|]; simpl; [|done].
  by destruct (matches k rkeys).
Qed.

Lemma merge_unique left right lkeys rkeys merged :
  merge left right "order_id" = Ok merged ->
  getitem "order_id" left = Ok lkeys ->
  getitem "order_id" right = Ok rkeys ->
  (forall k, length (matches k rkeys) <= 1) ->
  Forall (fun cs => length (snd cs) = length lkeys) (columns left) ->
  merged = joined left right lkeys rkeys.
Proof.
  intros H Hl Hr Hu Hlen. apply merge_inv in H as (lk & rk & Hl' & Hr' & ->).
  rewrite Hl in Hl'. rewrite Hr in Hr'. injection Hl' as <-. injection Hr' as <-.
  rewrite left_join_indexer_unique by done. unfold joined. f_equal.
  - by rewrite length_imap.
  - f_equal.
    + apply map_ext_Forall. eapply Forall_impl; [exact Hlen|].
      intros [c s] H. simpl in *. by rewrite take_left_unique.
    + apply map_ext. intros [c s]. simpl. by rewrite take_right_unique.
Qed.

Lemma suffix_x_not_order_id c : c ++ "_x" <> "order_id".
Proof.
  intros H.
  repeat (destruct c as [|? c]; simpl in H; [discriminate H|injection H as _ H]).
  destruct c; discriminate H.
Qed.

Lemma suffixed_x_order_id left right c :
  String.eqb (suffixed "order_id" left right "_x" c) "order_id" = String.eqb c "order_id".
Proof.
  unfold suffixed, overlaps.
  destruct (String.eqb_spec c "order_id") as [->|Hne]; simpl.
  - reflexivity.
  - destruct (_ && _); [|by apply String.eqb_neq].
    apply String.eqb_neq, suffix_x_not_order_id.
Qed.

Lemma joined_key left right lkeys rkeys :
  getitem "order_id" left = Ok lkeys ->
  getitem "order_id" (joined left right lkeys rkeys) = Ok lkeys.
Proof.
  unfold getitem, joined. simpl.
  induction (columns left) as [|[c s] t IH]; simpl; [done|].
  rewrite suffixed_x_order_id. destruct (String.eqb c "order_id"); done.
Qed.

Lemma joined_lengths left right lkeys rkeys :
  Forall (fun cs => length (snd cs) = length lkeys) (columns left) ->
  Forall (fun cs => length (snd cs) = length lkeys) (columns (joined left right lkeys rkeys)).
Proof.
  intros H. unfold joined. simpl. apply Forall_app. split.
  - apply Forall_fmap. eapply Forall_impl; [exact H|]. by intros [c s].
  - apply Forall_fmap, Forall_forall. intros [c s] _. simpl.
    unfold lookup_right. by rewrite length_map.
Qed.

Lemma joined_left left right lkeys rkeys c s :
  In (c, s) (columns left) ->
  exists c', In (c', s) (columns (joined left right lkeys rkeys)).
Proof.
  intros H. eexists. unfold joined. simpl. apply in_or_app. left.
  apply in_map_iff. exists (c, s). split; [reflexivity|done].
Qed.

Lemma joined_right left right lkeys rkeys c s :
  In (c, s) (columns right) -> c <> "order_id" ->
  exists c', In (c', lookup_right lkeys rkeys s) (columns (joined left right lkeys rkeys)).
Proof.
  intros H Hne. eexists. unfold joined. simpl. apply in_or_app. right.
  apply in_map_iff. exists (c, s). split; [reflexivity|].
  unfold drop_key. apply filter_In. split; [done|]. simpl.
  apply String.eqb_neq in Hne. by rewrite Hne.
Qed.

Lemma lookup_right_spec lkeys rkeys s i k :
  lkeys !! i = Some k ->
  (matches k rkeys = [] -> lookup_right lkeys rkeys s !! i = Some NA)
  /\ (forall j, matches k rkeys = [j] -> lookup_right lkeys rkeys s !! i = Some (nth j s NA)).
Proof.
  intros Hk. unfold lookup_right. rewrite list_lookup_fmap, Hk. simpl.
  split; [by intros ->|]. by intros j ->.
Qed.

Lemma suffix_y_not_order_id c : c ++ "_y" <> "order_id".
Proof.
  intros H.
  repeat (destruct c as [|? c]; simpl in H; [discriminate H|injection H as _ H]).
  destruct c; discriminate H.
Qed.

Lemma joined_count_key left right lkeys rkeys :
  count_label "order_id" (joined left right lkeys rkeys) = count_label "order_id" left.
Proof.
  unfold count_label, column_names, joined. cbn [columns].
  rewrite map_app, List.filter_app, length_app, !map_map. cbn [fst].
  assert (Hr : forall cols,
             List.filter (String.eqb "order_id")
               (map (fun cs : string * Series =>
                       suffixed "order_id" left right "_y" (fst cs))
                    (drop_key "order_id" cols)) = []).
  { intros cols. induction cols as [|[c s] t IH]; [done|].
    unfold drop_key. cbn [List.filter fst].
    destruct (String.eqb_spec c "order_id") as [->|Hne]; cbn [negb]; [exact IH|].
    cbn [map List.filter fst]. fold (drop_key "order_id" t). rewrite IH.
    unfold suffixed. destruct (overlaps _ _ _ _).
    - destruct (String.eqb_spec "order_id" (c ++ "_y")) as [E|_]; [|done].
      symmetry in E. by apply suffix_y_not_order_id in E.
    - destruct (String.eqb_spec "order_id" c) as [E|_]; [|done]. by subst. }
  rewrite Hr. cbn [length]. rewrite Nat.add_0_r.
  induction (columns left) as [|[c s] t IH]; [done|]. cbn [map List.filter fst].
  rewrite (String.eqb_sym "order_id" (suffixed _ _ _ _ _)), suffixed_x_order_id.
  rewrite (String.eqb_sym c "order_id").
  destruct (String.eqb "order_id" c); cbn [length]; by rewrite IH.
Qed.

Lemma share_no_header_overlaps left right c :
  share_no_header left right -> overlaps "order_id" left right c = false.
Proof.
  intros H. unfold overlaps.
  destruct (String.eqb_spec c "order_id") as [->|Hne]; simpl; [done|].
  specialize (H c Hne). unfold has_column in H.
  destruct (mem_string c (column_names left)); simpl; [by apply H|done].
Qed.

Lemma share_no_header_suffixed left right sfx labels :
  share_no_header left right ->
  map (suffixed "order_id" left right sfx) labels = labels.
Proof.
  intros H. rewrite <- (map_id labels) at 2. apply map_ext. intros c.
  unfold suffixed. by rewrite share_no_header_overlaps.
Qed.

Lemma suffix_duplicates_same l : suffix_duplicates l l = [].
Proof.
  unfold suffix_duplicates, duplicated.
  assert (H : forall seen,
             List.filter snd
               (zip l (zip_with (fun now earlier => now && negb earlier)
                         (duplicated_from seen l) (duplicated_from seen l)))
             = []); [|by rewrite H].
  induction l as [|c t IH]; intros seen; simpl; [done|].
  destruct (mem_string c seen); simpl; apply IH.
Qed.

Lemma share_no_header_duplicates left right :
  share_no_header left right ->
  (suffix_duplicates (map fst (columns left))
     (map (suffixed "order_id" left right "_x") (map fst (columns left)))
   ++ suffix_duplicates (map fst (drop_key "order_id" (columns right)))
        (map (suffixed "order_id" left right "_y")
           (map fst (drop_key "order_id" (columns right)))))%list
  = [].
Proof.
  intros H. rewrite !share_no_header_suffixed by done.
  by rewrite !suffix_duplicates_same.
Qed.

Lemma share_no_header_joined a b c lkeys rkeys :
  share_no_header a b -> share_no_header a c -> share_no_header b c ->
  share_no_header (joined a b lkeys rkeys) c.
Proof.
  intros Hab Hac Hbc col Hne Hin. apply has_column_In in Hin.
  unfold column_names, joined in Hin. simpl in Hin.
  rewrite map_app, !map_map in Hin. apply in_app_or in Hin as [Hin|Hin].
  - apply in_map_iff in Hin as ([c0 s] & E & Hin). simpl in E.
    unfold suffixed in E. rewrite share_no_header_overlaps in E by done. subst c0.
    apply (Hac col Hne). apply has_column_In, in_map_iff. by exists (col, s).
  - apply in_map_iff in Hin as ([c0 s] & E & Hin). simpl in E.
    unfold suffixed in E. rewrite share_no_header_overlaps in E by done. subst c0.
    apply (Hbc col Hne). apply has_column_In, in_map_iff. exists (col, s).
    split; [done|]. unfold drop_key in Hin. by apply filter_In in Hin as [Hin _].
Qed.

(** A left join on keys that match at most one row each returns, with the
    joined table, when the key columns pass the checks and no other header
    is shared. *)
Lemma merge_unique_returns left right lkeys rkeys :
  count_label "order_id" left = 1 -> count_label "order_id" right = 1 ->
  getitem "order_id" left = Ok lkeys -> getitem "order_id" right = Ok rkeys ->
  coerce_merge_keys lkeys rkeys = Ok tt ->
  share_no_header left right ->
  (forall k, length (matches k rkeys) <= 1) ->
  Forall (fun cs => length (snd cs) = length lkeys) (columns left) ->
  merge left right "order_id" = Ok (joined left right lkeys rkeys).
Proof.
  intros Cl Cr Hl Hr Hc Hs Hu Hlen.
  destruct (merge_returns left right "order_id" lkeys rkeys) as [merged H]; try done.
  - by apply share_no_header_duplicates.
  - rewrite H. f_equal. by apply merge_unique.
Qed.

Lemma share_no_header_check a b :
  forallb (fun c => String.eqb c "order_id" || negb (has_column c b)) (column_names a) = true ->
  share_no_header a b.
Proof.
  intros H c Hne Hin. rewrite forallb_forall in H.
  apply has_column_In in Hin. specialize (H c Hin).
  apply String.eqb_neq in Hne. rewrite Hne in H. simpl in H.
  by destruct (has_column c b).
Qed.

End LeftJoin.

(** C3: when the performance, routes and costs tables each have at most one
    row per order_id, the table the three left joins produce has exactly as
    many rows as the orders table, whatever the number of order_ids that
    find a match: the order_id column and every column of the orders table
    are kept as they are, and every column of a secondary table appears
    with, for each order, the entry of the matching row or a missing value
    when the order_id is absent from that table.  The joins do produce
    that table when each of the four tables has one order_id column, the
    order_id columns are of one kind (all numbers or all text) and no other
    header is common to two of the tables. *)
Theorem left_join_keeps_every_order
    orders performance routes costs okeys pkeys rkeys ckeys :
  wf_frame orders ->
  getitem "order_id" orders = Ok okeys ->
  getitem "order_id" performance = Ok pkeys ->
  getitem "order_id" routes = Ok rkeys ->
  getitem "order_id" costs = Ok ckeys ->
  (forall order_id, length (matches order_id pkeys) <= 1) ->
  (forall order_id, length (matches order_id rkeys) <= 1) ->
  (forall order_id, length (matches order_id ckeys) <= 1) ->
  (forall master,
      merge_all orders performance routes costs = Ok master ->
      nrows master = nrows orders
      /\ getitem "order_id" master = Ok okeys
      /\ (forall c s, In (c, s) (columns orders) -> exists c', In (c', s) (columns master))
      /\ (forall table tkeys,
             In (table, tkeys) [(performance, pkeys); (routes, rkeys); (costs, ckeys)] ->
             forall c s,
               In (c, s) (columns table) -> c <> "order_id" ->
               exists c' s',
                 In (c', s') (columns master)
                 /\ length s' = nrows orders
                 /\ forall i order_id,
                     okeys !! i = Some order_id ->
                     (matches order_id tkeys = [] -> s' !! i = Some NA)
                     /\ (forall j, matches order_id tkeys = [j] ->
                                   s' !! i = Some (nth j s NA))))
  /\ (Forall (fun table => count_label "order_id" table = 1)
        [orders; performance; routes; costs] ->
      Forall (fun tkeys => coerce_merge_keys okeys tkeys = Ok tt) [pkeys; rkeys; ckeys] ->
      share_no_header orders performance ->
      share_no_header orders routes -> share_no_header performance routes ->
      share_no_header orders costs -> share_no_header performance costs ->
      share_no_header routes costs ->
      exists master, merge_all orders performance routes costs = Ok master).
Proof.
  intros Hwf Ho Hp Hr Hc Hup Hur Huc.
  assert (Hn : length okeys = nrows orders).
  { apply getitem_In in Ho. unfold wf_frame in Hwf. rewrite Forall_forall in Hwf.
    apply (Hwf ("order_id", okeys)). by apply list_elem_of_In. }
  assert (H0 : Forall (fun cs => length (snd cs) = length okeys) (columns orders)).
  { eapply Forall_impl; [exact Hwf|]. intros cs H. simpl in *. congruence. }
  set (m1 := joined orders performance okeys pkeys).
  set (m2 := joined m1 routes okeys rkeys).
  set (m3 := joined m2 costs okeys ckeys).
  pose proof (joined_lengths orders performance okeys pkeys H0) as H1. fold m1 in H1.
  pose proof (joined_lengths m1 routes okeys rkeys H1) as H2. fold m2 in H2.
  pose proof (joined_key orders performance okeys pkeys Ho) as K1. fold m1 in K1.
  pose proof (joined_key m1 routes okeys rkeys K1) as K2. fold m2 in K2.
  pose proof (joined_key m2 costs okeys ckeys K2) as K3. fold m3 in K3.
  split.
  - intros master Hm. unfold merge_all in Hm.
    apply bind_ok in Hm as (m1' & E1 & Hm). apply bind_ok in Hm as (m2' & E2 & E3).
    apply (merge_unique orders performance okeys pkeys) in E1; try done.
    fold m1 in E1. subst m1'.
    apply (merge_unique m1 routes okeys rkeys) in E2; try done.
    fold m2 in E2. subst m2'.
    apply (merge_unique m2 costs okeys ckeys) in E3; try done.
    fold m3 in E3. subst master.
    split; [|split; [|split]].
    + unfold nrows at 1. simpl. by rewrite length_seq.
    + done.
    + intros c s H.
      destruct (joined_left orders performance okeys pkeys c s H) as [c1 I1]. fold m1 in I1.
      destruct (joined_left m1 routes okeys rkeys c1 s I1) as [c2 I2]. fold m2 in I2.
      apply (joined_left m2 costs okeys ckeys c2 s I2).
    + intros table tkeys Hin c s Hcs Hne.
      assert (Hs : exists c', In (c', lookup_right okeys tkeys s) (columns m3)).
      { simpl in Hin. destruct Hin as [[= <- <-]|[[= <- <-]|[[= <- <-]|[]]]].
        - destruct (joined_right orders performance okeys pkeys c s Hcs Hne) as [c1 I1].
          fold m1 in I1.
          destruct (joined_left m1 routes okeys rkeys c1 _ I1) as [c2 I2]. fold m2 in I2.
          apply (joined_left m2 costs okeys ckeys c2 _ I2).
        - destruct (joined_right m1 routes okeys rkeys c s Hcs Hne) as [c2 I2]. fold m2 in I2.
          apply (joined_left m2 costs okeys ckeys c2 _ I2).
        - apply (joined_right m2 costs okeys ckeys c s Hcs Hne). }
      destruct Hs as [c' Hs]. exists c', (lookup_right okeys tkeys s).
      split; [done|]. split.
      * unfold lookup_right. by rewrite length_map.
      * intros i order_id Hi. by apply lookup_right_spec.
  - intros Hcount Hkeys Sop Sor Spr Soc Spc Src.
    apply Forall_cons in Hcount as [Co Hcount]. apply Forall_cons in Hcount as [Cp Hcount].
    apply Forall_cons in Hcount as [Cr Hcount]. apply Forall_cons in Hcount as [Cc _].
    apply Forall_cons in Hkeys as [Kp Hkeys]. apply Forall_cons in Hkeys as [Kr Hkeys].
    apply Forall_cons in Hkeys as [Kc _].
    exists m3. unfold merge_all.
    rewrite (merge_unique_returns orders performance okeys pkeys) by done.
    cbn [bind]. fold m1.
    rewrite (merge_unique_returns m1 routes okeys rkeys); try done.
    + cbn [bind]. fold m2.
      apply (merge_unique_returns m2 costs okeys ckeys); try done.
      * unfold m2, m1. by rewrite !joined_count_key.
      * apply share_no_header_joined; [| |done]; by apply share_no_header_joined.
    + unfold m1. by rewrite joined_count_key.
    + by apply share_no_header_joined.
Qed.

(** The sample tables: two orders, of which the second is absent from the
    performance and costs tables. *)
Lemma left_join_keeps_every_order_witness :
  exists master,
    merge_all Sample.orders Sample.performance Sample.routes Sample.costs = Ok master
    /\ nrows master = 2.
Proof.
  destruct (left_join_keeps_every_order
              Sample.orders Sample.performance Sample.routes Sample.costs
              [Str "ORD1"; Str "ORD2"] [Str "ORD1"] [Str "ORD2"; Str "ORD1"] [Str "ORD1"])
    as [Hrows Hreturns].
  - repeat constructor.
  - reflexivity.
  - reflexivity.
  - reflexivity.
  - reflexivity.
  - intros k. unfold matches. simpl. destruct (key_eqb k _); simpl; lia.
  - intros k. unfold matches. destruct k as [x|s|t| ]; simpl; try lia.
    destruct (String.eqb_spec s "ORD2") as [->|_]; simpl; [lia|].
    destruct (String.eqb s "ORD1"); simpl; lia.
  - intros k. unfold matches. simpl. destruct (key_eqb k _); simpl; lia.
  - destruct Hreturns as [master H].
    + repeat constructor.
    + repeat constructor.
    + by apply share_no_header_check.
    + by apply share_no_header_check.
    + by apply share_no_header_check.
    + by apply share_no_header_check.
    + by apply share_no_header_check.
    + by apply share_no_header_check.
    + exists master. split; [exact H|]. by destruct (Hrows master H) as [-> _].
Defined.

(* ================================================================== *)
(** * Imputation *)
(* ================================================================== *)

Section Imputation.

Lemma fillna_selected_ok mode col v df s :
  getitem col df = Ok s ->
  exists df',
    fillna_selected mode col v df = Ok df'
    /\ index df' = index df
    /\ getitem col df' = Ok match mode with
                            | InPlace => fillna v s
                            | CopyOnWrite => s
                            end
    /\ (forall col', col <> col' -> getitem col' df' = getitem col' df).
Proof.
  intros Hs. unfold fillna_selected. rewrite Hs. cbn [bind].
  eexists. split; [done|]. destruct mode.
  - split; [done|]. split; [apply getitem_setitem_eq|].
    intros col' Hne. by apply getitem_setitem_ne.
  - done.
Qed.

Lemma fillna_selected_inv mode col v df df' :
  fillna_selected mode col v df = Ok df' ->
  exists s,
    getitem col df = Ok s
    /\ index df' = index df
    /\ getitem col df' = Ok match mode with
                            | InPlace => fillna v s
                            | CopyOnWrite => s
                            end
    /\ (forall col', col <> col' -> getitem col' df' = getitem col' df).
Proof.
  intros H. pose proof H as H'. unfold fillna_selected in H'.
  apply bind_ok in H' as (s & Hs & _). exists s. split; [done|].
  destruct (fillna_selected_ok mode col v df s Hs) as (df2 & E & Hi & Hg & Ho).
  rewrite H in E. injection E as <-. done.
Qed.

Lemma fill_num_col_eq mode df col df' :
  fill_num_col mode df col = Ok df' ->
  exists s', filled_column mode df col = Ok s' /\ getitem col df' = Ok s'.
Proof.
  unfold fill_num_col, filled_column. destruct (has_column col df) eqn:Hc.
  - apply has_column_getitem in Hc as [s Hs]. rewrite Hs. cbn [bind].
    intros H. apply bind_ok in H as (m & Hm & H).
    apply fillna_selected_inv in H as (s0 & Hs0 & _ & Hg & _).
    rewrite Hs in Hs0. injection Hs0 as <-.
    rewrite Hm. cbn [bind]. eexists. split; [done|]. exact Hg.
  - apply has_column_false in Hc as [e He]. rewrite He.
    intros [= <-]. eexists. split; [done|]. apply getitem_setitem_eq.
Qed.

Lemma fill_num_col_ne mode df col df' col' :
  col <> col' -> fill_num_col mode df col = Ok df' ->
  getitem col' df' = getitem col' df /\ nrows df' = nrows df.
Proof.
  intros Hne. unfold fill_num_col. destruct (has_column col df).
  - intros H. apply bind_ok in H as (s & Hs & H). apply bind_ok in H as (m & Hm & H).
    apply fillna_selected_inv in H as (s0 & _ & Hi & _ & Ho).
    split; [by apply Ho|]. unfold nrows. by rewrite Hi.
  - intros [= <-]. split; [by apply getitem_setitem_ne|done].
Qed.

Lemma fill_num_col_nrows mode df col df' :
  fill_num_col mode df col = Ok df' -> nrows df' = nrows df.
Proof.
  unfold fill_num_col. destruct (has_column col df).
  - intros H. apply bind_ok in H as (s & Hs & H). apply bind_ok in H as (m & Hm & H).
    apply fillna_selected_inv in H as (s0 & _ & Hi & _). unfold nrows. by rewrite Hi.
  - by intros [= <-].
Qed.

Lemma foldM_fill_ne mode cols : forall df df' col',
  ~ In col' cols -> foldM (fill_num_col mode) cols df = Ok df' ->
  getitem col' df' = getitem col' df /\ nrows df' = nrows df.
Proof.
  induction cols as [|c t IH]; intros df df' col' Hni H; simpl in H.
  - by injection H as <-.
  - apply bind_ok in H as (df1 & H1 & H).
    destruct (IH df1 df' col') as [E1 E2]; [intros ?; apply Hni; by right|done|].
    destruct (fill_num_col_ne mode df c df1 col') as [E3 E4];
      [intros ->; apply Hni; by left|done|].
    split; congruence.
Qed.

Lemma foldM_fill_eq mode cols : forall df df' col,
  NoDup cols -> In col cols -> foldM (fill_num_col mode) cols df = Ok df' ->
  exists s', filled_column mode df col = Ok s' /\ getitem col df' = Ok s'.
Proof.
  induction cols as [|c t IH]; intros df df' col Hnd Hin H; [done|].
  simpl in H. apply bind_ok in H as (df1 & H1 & H).
  apply NoDup_cons in Hnd as [Hc Hnd].
  destruct (String.eqb_spec c col) as [->|Hne].
  - destruct (fill_num_col_eq _ _ _ _ H1) as (s' & Hs1 & Hs2).
    exists s'. split; [done|].
    destruct (foldM_fill_ne mode t df1 df' col) as [E _]; [|done|congruence].
    intros Hi. apply Hc. by apply list_elem_of_In.
  - destruct Hin as [->|Hin]; [done|].
    destruct (IH df1 df' col Hnd Hin H) as (s' & Hs1 & Hs2).
    exists s'. split; [|done].
    destruct (fill_num_col_ne mode df c df1 col Hne H1) as [E1 E2].
    unfold filled_column in *. by rewrite <- E1, <- E2.
Qed.





Lemma num_cols_to_fill_NoDup : NoDup num_cols_to_fill.
Proof. apply (bool_decide_unpack _). by vm_compute. Qed.


End Imputation.

Section Median.

Lemma is_finite_Prim2SF x : is_finite x = true -> ordinary (Prim2SF x).
Proof.
  unfold is_finite, Prim2SF. intros H. apply negb_true_iff, orb_false_elim in H as [Hn Hi].
  rewrite Hn, Hi. destruct (is_zero x); [done|].
  destruct (Z.frexp x) as [r e]. destruct (shr_fexp _ _ _ _ _) as [s e'].
  destruct (shr_m s); done.
Qed.




Lemma median_all_missing xs :
  Forall (fun x => is_nan x = true) xs -> median xs = nan.
Proof.
  intros H. unfold median.
  assert (E : dropna xs = []).
  { induction H as [|x t Hx _ IH]; [done|]. unfold dropna in *. simpl. by rewrite Hx. }
  by rewrite E.
Qed.

Lemma is_nan_eq x : is_nan x = true -> x = nan.
Proof.
  intros H. apply is_nan_Prim2SF in H.
  rewrite <- (SF2Prim_Prim2SF x), H. reflexivity.
Qed.










End Median.




(* ================================================================== *)
(** * The delivery delay *)
(* ================================================================== *)

Section DelayFacts.






Lemma as_unit_length r d l : as_unit r d = Ok l -> length l = length (stamps d).
Proof. apply mapM_length. Qed.


Lemma ensure_matching_resos_lengths a p r sa sp :
  ensure_matching_resos a p = Ok (r, sa, sp) ->
  length sa = length (stamps a) /\ length sp = length (stamps p).
Proof.
  unfold ensure_matching_resos. destruct (_ <? _)%Z.
  - intros H. apply bind_ok in H as (l & Hl & [= <- <- <-]).
    split; [by apply as_unit_length in Hl|done].
  - destruct (_ <? _)%Z.
    + intros H. apply bind_ok in H as (l & Hl & [= <- <- <-]).
      split; [done|by apply as_unit_length in Hl].
    + by intros [= <- <- <-].
Qed.




Variable parse : Series -> datetimes.
Variable total_seconds : resolution -> Z -> float.

(** The assignments of the delay, with the two columns at hand. *)
Lemma add_delay_sub mode master promised actual :
  getitem "promised_delivery_days" master = Ok promised ->
  getitem "actual_delivery_days" master = Ok actual ->
  add_delay parse total_seconds mode master
  = do difference <- sub_datetimes (parse actual) (parse promised);
    fillna_selected mode "delivery_delay_hours" 0
      (setitem "delivery_delay_hours"
         (map (fun d => Num (delay_hours total_seconds (fst difference) d)) (snd difference))
         (setitem "actual_delivery_days" (datetime_cells (parse actual))
            (setitem "promised_delivery_days" (datetime_cells (parse promised)) master))).
Proof.
  intros Hp Ha. unfold add_delay, to_datetime. rewrite Hp. cbn [bind].
  rewrite getitem_setitem_ne, Ha by done. done.
Qed.

(** The table a subtraction that returns leaves: the delay column is the
    column of the delays in hours, filled where the fill reaches it. *)
Lemma add_delay_table mode master promised actual r deltas :
  getitem "promised_delivery_days" master = Ok promised ->
  getitem "actual_delivery_days" master = Ok actual ->
  sub_datetimes (parse actual) (parse promised) = Ok (r, deltas) ->
  exists master',
    add_delay parse total_seconds mode master = Ok master'
    /\ index master' = index master
    /\ getitem "promised_delivery_days" master' = Ok (datetime_cells (parse promised))
    /\ getitem "actual_delivery_days" master' = Ok (datetime_cells (parse actual))
    /\ getitem "delivery_delay_hours" master'
       = Ok (map (match mode with
                  | InPlace => fun c => if isna c then Num 0%float else c
                  | CopyOnWrite => fun c => c
                  end)
               (map (fun d => Num (delay_hours total_seconds r d)) deltas))
    /\ (forall col, col <> "promised_delivery_days" -> col <> "actual_delivery_days" ->
                    col <> "delivery_delay_hours" ->
                    getitem col master' = getitem col master).
Proof.
  intros Hp Ha Hsub. rewrite (add_delay_sub mode master promised actual Hp Ha), Hsub.
  cbn [bind fst snd].
  edestruct fillna_selected_ok as (master' & E & Hi & Hg & Ho);
    [apply getitem_setitem_eq|].
  exists master'. split; [exact E|]. split; [by rewrite Hi|].
  split; [rewrite Ho by done; by rewrite !getitem_setitem_ne, getitem_setitem_eq by done|].
  split; [rewrite Ho by done; by rewrite getitem_setitem_ne, getitem_setitem_eq by done|].
  split.
  - rewrite Hg. f_equal. destruct mode; [done|]. by rewrite map_id.
  - intros col H1 H2 H3. rewrite Ho by done. by rewrite !getitem_setitem_ne by done.
Qed.

(** What an assignment of the delay that returns has read. *)
Lemma add_delay_inv mode master master' :
  add_delay parse total_seconds mode master = Ok master' ->
  exists promised actual r deltas,
    getitem "promised_delivery_days" master = Ok promised
    /\ getitem "actual_delivery_days" master = Ok actual
    /\ sub_datetimes (parse actual) (parse promised) = Ok (r, deltas).
Proof.
  intros H. pose proof H as H'. unfold add_delay in H'.
  apply bind_ok in H' as (promised & Hp & H'). cbn [to_datetime bind] in H'.
  rewrite getitem_setitem_ne in H' by done.
  apply bind_ok in H' as (actual & Ha & _).
  rewrite (add_delay_sub mode master promised actual Hp Ha) in H.
  apply bind_ok in H as ([r deltas] & Hs & _). eauto 10.
Qed.

Lemma sub_datetimes_length a p r deltas :
  sub_datetimes a p = Ok (r, deltas) ->
  length deltas = Nat.min (length (stamps a)) (length (stamps p)).
Proof.
  unfold sub_datetimes. intros H. apply bind_ok in H as ([[r' sa] sp] & He & H).
  destruct (Bool.eqb _ _); [|done].
  apply bind_ok in H as (ds & Hd & [= <- <-]).
  apply mapM_length in Hd. apply ensure_matching_resos_lengths in He as [<- <-].
  by rewrite Hd, length_zip_with.
Qed.

Hypothesis total_seconds_number : forall r ticks, is_nan (total_seconds r ticks) = false.







End DelayFacts.


Section SampleClock.





End SampleClock.



(* ================================================================== *)
(** * The candidate filter *)
(* ================================================================== *)

Section Filter.

Lemma nonzero_from_In k mask i :
  In i (nonzero_from k mask) <-> exists j, i = k + j /\ mask !! j = Some true.
Proof.
  revert k. induction mask as [|b m IH]; intros k; simpl.
  - split; [done|]. intros (j & _ & H). done.
  - assert (Hstep : In i (nonzero_from (S k) m)
                    <-> exists j, i = k + S j /\ m !! j = Some true).
    { rewrite IH. split; intros (j & -> & H); exists j; split; auto; lia. }
    destruct b; simpl; rewrite Hstep; split.
    + intros [<-|(j & -> & H)]; [exists 0; split; [lia|done]|exists (S j); done].
    + intros ([|j] & -> & H); [left; lia|right; eauto].
    + intros (j & -> & H). exists (S j). done.
    + intros ([|j] & -> & H); [done|eauto].
Qed.

Lemma nonzero_from_ge k mask i : In i (nonzero_from k mask) -> k <= i.
Proof. rewrite nonzero_from_In. intros (j & -> & _). lia. Qed.

Lemma nonzero_from_sorted k mask : StronglySorted lt (nonzero_from k mask).
Proof.
  revert k. induction mask as [|b m IH]; intros k; simpl; [constructor|].
  destruct b; [|apply IH].
  constructor; [apply IH|].
  apply Forall_forall. intros i Hi. apply list_elem_of_In in Hi.
  apply nonzero_from_ge in Hi. lia.
Qed.

Lemma nonzero_In mask i : In i (nonzero mask) <-> mask !! i = Some true.
Proof.
  unfold nonzero. rewrite nonzero_from_In. split.
  - intros (j & -> & H). done.
  - intros H. exists i. done.
Qed.

Lemma nonzero_all_false mask :
  Forall (fun b => b = false) mask -> nonzero mask = [].
Proof.
  unfold nonzero. generalize 0. induction mask as [|b m IH]; intros k H; [done|].
  inversion H; subst. simpl. by apply IH.
Qed.







End Filter.

(* ================================================================== *)
(** * The request as a whole *)
(* ================================================================== *)

Section Pipeline.




Lemma score_candidates_scored order weights fleet scored :
  score_candidates order weights fleet = Ok (inr scored) ->
  exists perishable suitable predicted,
    is_perishable order = Ok perishable
    /\ suitable_vehicles perishable fleet = Ok suitable
    /\ empty suitable = false
    /\ forallb (fun col => has_column col fleet) required_fleet_cols = true
    /\ predict order suitable = Ok predicted
    /\ score weights predicted = Ok scored.
Proof.
  unfold score_candidates. intros H.
  apply bind_ok in H as (perishable & Hp & H).
  apply bind_ok in H as (suitable & Hs & H).
  destruct (empty suitable) eqn:He; [done|].
  destruct (forallb _ required_fleet_cols) eqn:Hc; simpl in H; [|done].
  apply bind_ok in H as (predicted & Hpr & H).
  apply bind_ok in H as (sc & Hsc & H).
  injection H as <-. eauto 10.
Qed.



End Pipeline.





(* ================================================================== *)
(** * The predictor *)
(* ================================================================== *)

Section Predictor.


Lemma get_speed_values v_type :
  get_speed v_type = 60%float \/ get_speed v_type = 45%float \/ get_speed v_type = 50%float.
Proof.
  destruct v_type as [x|s|t|]; simpl; auto.
  destruct (_ || _); [auto|]. destruct (String.eqb s "truck"); auto.
Qed.

Lemma zip_with_maps_flip {A B C D E} (f : C -> D -> E) (g : A -> C) (h : B -> D) la lb :
  zip_with f (map g la) (map h lb) = zip_with (fun b a => f (g a) (h b)) lb la.
Proof.
  revert lb. induction la as [|a ta IH]; intros [|b tb]; simpl; try done.
  by rewrite IH.
Qed.

Lemma predict_columns order suitable distance traffic tolls v_types eff co2 :
  row_get "distance_km" order = Ok (Num distance) ->
  row_get "traffic_delays_hours" order = Ok (Num traffic) ->
  row_get "toll_charges" order = Ok (Num tolls) ->
  getitem "vehicle_type" suitable = Ok v_types ->
  floats "fuel_efficiency_km_per_l" suitable = Ok eff ->
  floats "co2_emissions_kg_per_km" suitable = Ok co2 ->
  exists predicted,
    predict order suitable = Ok predicted
    /\ floats "avg_speed_kmh" predicted = Ok (map get_speed v_types)
    /\ floats "predicted_time_hours" predicted
       = Ok (map (fun v => (distance / get_speed v + traffic)%float) v_types)
    /\ floats "predicted_cost" predicted
       = Ok (zip_with
               (fun v e =>
                  (distance / e * 1.50
                   + (distance / get_speed v + traffic) * 20.00 + tolls)%float)
               v_types eff)
    /\ floats "predicted_co2_kg" predicted
       = Ok (map (fun c => (distance * c)%float) co2).
Proof.
  intros Hd Ht Hto Hv He Hc.
  unfold predict. rewrite Hd, Ht, Hto, Hv. cbn [bind as_float].
  rewrite floats_setitem_eq. cbn [bind].
  rewrite floats_setitem_ne, floats_setitem_ne, He by done. cbn [bind].
  rewrite floats_setitem_eq. cbn [bind].
  rewrite !floats_setitem_ne, Hc by done. cbn [bind].
  eexists. split; [reflexivity|].
  rewrite !(floats_setitem_ne _ "avg_speed_kmh") by done.
  rewrite !(floats_setitem_ne _ "predicted_time_hours") by done.
  rewrite !(floats_setitem_ne _ "predicted_cost") by done.
  rewrite !floats_setitem_eq.
  repeat split.
  - by rewrite map_map.
  - f_equal. rewrite !map_map. apply zip_with_maps_flip.
Qed.

End Predictor.



(* ================================================================== *)
(** * The normaliser *)
(* ================================================================== *)

Local Open Scope float_scope.

Section Normalizer.

Lemma foldl_pick (c : float -> float -> bool) (P : float -> Prop) t : forall x,
  P x -> Forall P t -> P (foldl (fun m v => if c m v then v else m) x t).
Proof.
  induction t as [|y t IH]; intros x Hx Ht; simpl; [done|].
  inversion Ht; subst. apply IH; [|done]. by destruct (c x y).
Qed.

Lemma same_value_not_nan x v : is_nan v = false -> same_value x v -> is_nan x = false.
Proof.
  intros Hv [->|H]; [done|].
  destruct (is_nan x) eqn:Hx; [|done].
  apply is_nan_Prim2SF in Hx. rewrite FloatAxioms.eqb_spec, Hx in H. done.
Qed.

Lemma dropna_all_nan col : Forall (fun x => is_nan x = true) col -> dropna col = [].
Proof.
  induction 1 as [|x t Hx _ IH]; [done|]. unfold dropna in *. simpl. by rewrite Hx.
Qed.

Lemma dropna_none_nan col : Forall (fun x => is_nan x = false) col -> dropna col = col.
Proof.
  induction 1 as [|x t Hx _ IH]; [done|]. unfold dropna in *. simpl. by rewrite Hx, IH.
Qed.

Lemma series_min_max_same col v :
  Forall (fun x => same_value x v) col ->
  (same_value (series_min col) v /\ same_value (series_max col) v)
  \/ (series_min col = nan /\ series_max col = nan).
Proof.
  intros Hall. unfold series_min, series_max.
  destruct (is_nan v) eqn:Hv.
  - right. rewrite dropna_all_nan; [done|].
    eapply Forall_impl; [exact Hall|]. intros x Hx. simpl.
    by rewrite (same_value_nan _ _ Hv Hx).
  - rewrite dropna_none_nan.
    2:{ eapply Forall_impl; [exact Hall|]. intros x. by apply same_value_not_nan. }
    destruct col as [|x t]; [by right|]. left. inversion Hall; subst.
    split.
    + apply (foldl_pick (fun m v => v <? m)); done.
    + apply (foldl_pick (fun m v => m <? v)); done.
Qed.

Lemma normalize_spread col :
  (series_min col <? series_max col) = true ->
  normalize col
  = Column (map (fun v => (v - series_min col) / (series_max col - series_min col)) col).
Proof.
  intros H. unfold normalize. by rewrite (ltb_sub_pos _ _ H).
Qed.

Lemma normalize_flat col v :
  Forall (fun x => same_value x v) col -> normalize col = Scalar 0.
Proof.
  intros H. unfold normalize.
  destruct (series_min_max_same col v H) as [[Hmin Hmax]|[-> ->]]; [|done].
  by rewrite (sub_same_value_not_pos _ _ v Hmin Hmax).
Qed.

(** The running minimum and maximum of values that are present. *)
Lemma foldl_min_spec t : forall x,
  Forall (fun y => is_nan y = false) (x :: t) ->
  In (foldl (fun m v => if v <? m then v else m) x t) (x :: t)
  /\ is_nan (foldl (fun m v => if v <? m then v else m) x t) = false
  /\ Forall (fun y => (foldl (fun m v => if v <? m then v else m) x t <=? y) = true)
       (x :: t).
Proof.
  induction t as [|y t IH]; intros x Hall.
  - apply Forall_cons in Hall as [Hx _]. simpl.
    split; [by left|]. split; [done|]. repeat constructor. by apply leb_refl.
  - apply Forall_cons in Hall as [Hx Hall]. apply Forall_cons in Hall as [Hy Ht].
    cbn [foldl]. set (x' := if y <? x then y else x).
    assert (Hx' : is_nan x' = false) by (unfold x'; by destruct (y <? x)).
    assert (Hle : (x' <=? x) = true /\ (x' <=? y) = true).
    { unfold x'. destruct (y <? x) eqn:E.
      - split; [by apply ltb_leb|by apply leb_refl].
      - split; [by apply leb_refl|by apply ltb_false_leb]. }
    destruct (IH x') as (Hin & Hr & Hfor); [by constructor|].
    set (r := foldl _ x' t) in *.
    apply Forall_cons in Hfor as [Hrx' Hfor]. split; [|split; [done|]].
    + destruct Hin as [E|Hin]; [|by right; right].
      rewrite <- E. unfold x'. destruct (y <? x); [right; by left|by left].
    + constructor; [by apply (leb_trans r x' x); try apply Hle|].
      constructor; [by apply (leb_trans r x' y); try apply Hle|done].
Qed.

Lemma foldl_max_spec t : forall x,
  Forall (fun y => is_nan y = false) (x :: t) ->
  In (foldl (fun m v => if m <? v then v else m) x t) (x :: t)
  /\ is_nan (foldl (fun m v => if m <? v then v else m) x t) = false
  /\ Forall (fun y => (y <=? foldl (fun m v => if m <? v then v else m) x t) = true)
       (x :: t).
Proof.
  induction t as [|y t IH]; intros x Hall.
  - apply Forall_cons in Hall as [Hx _]. simpl.
    split; [by left|]. split; [done|]. repeat constructor. by apply leb_refl.
  - apply Forall_cons in Hall as [Hx Hall]. apply Forall_cons in Hall as [Hy Ht].
    cbn [foldl]. set (x' := if x <? y then y else x).
    assert (Hx' : is_nan x' = false) by (unfold x'; by destruct (x <? y)).
    assert (Hle : (x <=? x') = true /\ (y <=? x') = true).
    { unfold x'. destruct (x <? y) eqn:E.
      - split; [by apply ltb_leb|by apply leb_refl].
      - split; [by apply leb_refl|by apply ltb_false_leb]. }
    destruct (IH x') as (Hin & Hr & Hfor); [by constructor|].
    set (r := foldl _ x' t) in *.
    apply Forall_cons in Hfor as [Hrx' Hfor]. split; [|split; [done|]].
    + destruct Hin as [E|Hin]; [|by right; right].
      rewrite <- E. unfold x'. destruct (x <? y); [right; by left|by left].
    + constructor; [by apply (leb_trans x x' r); try apply Hle|].
      constructor; [by apply (leb_trans y x' r); try apply Hle|done].
Qed.

Lemma dropna_spec col x : In x (dropna col) <-> In x col /\ is_nan x = false.
Proof. unfold dropna. rewrite filter_In, negb_true_iff. done. Qed.

Lemma dropna_present col :
  (exists x, In x col /\ is_nan x = false) -> exists x t, dropna col = x :: t.
Proof.
  intros (x & Hin & Hx). destruct (dropna col) as [|y t] eqn:E; [|eauto].
  assert (H : In x (dropna col)) by by apply dropna_spec. by rewrite E in H.
Qed.

Lemma series_min_least col :
  (exists x, In x col /\ is_nan x = false) -> least_of col (series_min col).
Proof.
  intros H. destruct (dropna_present col H) as (x0 & t & E).
  unfold series_min, least_of. rewrite E.
  destruct (foldl_min_spec t x0) as (Hin & Hr & Hfor).
  { rewrite <- E. apply Forall_forall. intros y Hy.
    by apply list_elem_of_In, dropna_spec in Hy as [_ Hy]. }
  rewrite <- E in Hin, Hfor. split; [by apply dropna_spec in Hin as [Hin _]|].
  split; [done|]. intros x Hx Hn. rewrite Forall_forall in Hfor.
  apply Hfor, list_elem_of_In, dropna_spec. done.
Qed.

Lemma series_max_greatest col :
  (exists x, In x col /\ is_nan x = false) -> greatest_of col (series_max col).
Proof.
  intros H. destruct (dropna_present col H) as (x0 & t & E).
  unfold series_max, greatest_of. rewrite E.
  destruct (foldl_max_spec t x0) as (Hin & Hr & Hfor).
  { rewrite <- E. apply Forall_forall. intros y Hy.
    by apply list_elem_of_In, dropna_spec in Hy as [_ Hy]. }
  rewrite <- E in Hin, Hfor. split; [by apply dropna_spec in Hin as [Hin _]|].
  split; [done|]. intros x Hx Hn. rewrite Forall_forall in Hfor.
  apply Hfor, list_elem_of_In, dropna_spec. done.
Qed.

(** A normalised column as it is written into the table. *)
Lemma broadcast_normalize n col :
  (forall v, Forall (fun x => same_value x v) col ->
             broadcast n (normalize col) = repeat 0 n)
  /\ exists m M,
      ((exists x, In x col /\ is_nan x = false) -> least_of col m /\ greatest_of col M)
      /\ ((m <? M) = true ->
          broadcast n (normalize col) = map (fun v => (v - m) / (M - m)) col).
Proof.
  split.
  - intros v H. by rewrite (normalize_flat col v H).
  - exists (series_min col), (series_max col). split.
    + intros H. split; [by apply series_min_least|by apply series_max_greatest].
    + intros H. by rewrite (normalize_spread col H).
Qed.

Lemma score_norm_columns weights predicted cost time co2 :
  floats "predicted_cost" predicted = Ok cost ->
  floats "predicted_time_hours" predicted = Ok time ->
  floats "predicted_co2_kg" predicted = Ok co2 ->
  exists scored,
    score weights predicted = Ok scored
    /\ floats "norm_cost" scored = Ok (broadcast (nrows predicted) (normalize cost))
    /\ floats "norm_time" scored = Ok (broadcast (nrows predicted) (normalize time))
    /\ floats "norm_co2" scored = Ok (broadcast (nrows predicted) (normalize co2))
    /\ floats "optimization_score" scored
       = Ok (zip3_with
               (fun c t e => weights.1.1 * c + weights.1.2 * t + weights.2 * e)
               (broadcast (nrows predicted) (normalize cost))
               (broadcast (nrows predicted) (normalize time))
               (broadcast (nrows predicted) (normalize co2))).
Proof.
  intros Hc Ht Hco. destruct weights as [[wc wt] wco]. unfold score.
  rewrite Hc. cbn [bind].
  rewrite floats_setitem_ne, Ht by done. cbn [bind].
  rewrite !floats_setitem_ne, Hco by done. cbn [bind].
  rewrite !(floats_setitem_ne "norm_co2") by done.
  rewrite !(floats_setitem_ne "norm_time" "norm_cost") by done.
  rewrite !floats_setitem_eq. cbn [bind].
  eexists. split; [reflexivity|].
  rewrite !(floats_setitem_ne "optimization_score") by done.
  rewrite !(floats_setitem_ne "norm_co2") by done.
  rewrite !(floats_setitem_ne "norm_time" "norm_cost") by done.
  rewrite !floats_setitem_eq. done.
Qed.

End Normalizer.

(** C5: for each of the three predicted metrics on its own, when the
    maximum of the metric over the candidates is strictly greater than its
    minimum, every candidate's normalised value is
    (value - min) / (max - min); when all the values are equal (a single
    candidate included), the normalised value is exactly 0.0 for every
    candidate, not NaN, and nothing is divided by zero.  The columns
    norm_cost, norm_time and norm_co2 of the scored table hold these
    values for predicted_cost, predicted_time_hours and predicted_co2_kg,
    with min the least and max the greatest of the values that are
    present. *)
Theorem normalize_min_max :
  (forall col,
      (series_min col <? series_max col) = true ->
      normalize col
      = Column (map (fun value =>
                       (value - series_min col) / (series_max col - series_min col)) col))
  /\ (forall col v n,
         Forall (fun x => x = v \/ (x =? v) = true) col ->
         normalize col = Scalar 0
         /\ broadcast n (normalize col) = repeat 0 n
         /\ Forall (fun x => x = 0 /\ is_nan x = false) (broadcast n (normalize col)))
  /\ (forall weights predicted cost time co2,
         floats "predicted_cost" predicted = Ok cost ->
         floats "predicted_time_hours" predicted = Ok time ->
         floats "predicted_co2_kg" predicted = Ok co2 ->
         exists scored,
           score weights predicted = Ok scored
           /\ forall norm values,
               In (norm, values)
                 [("norm_cost", cost); ("norm_time", time); ("norm_co2", co2)] ->
               (forall v,
                   Forall (fun x => x = v \/ (x =? v) = true) values ->
                   floats norm scored = Ok (repeat 0 (nrows predicted)))
               /\ exists min_val max_val,
                   ((exists x, In x values /\ is_nan x = false) ->
                    least_of values min_val /\ greatest_of values max_val)
                   /\ ((min_val <? max_val) = true ->
                       floats norm scored
                       = Ok (map (fun value =>
                                    (value - min_val) / (max_val - min_val)) values))).
Proof.
  split; [|split].
  - apply normalize_spread.
  - intros col v n H. rewrite (normalize_flat col v H). simpl.
    repeat split. apply Forall_forall. intros x Hx.
    apply list_elem_of_In, repeat_spec in Hx. by subst.
  - intros weights predicted cost time co2 Hc Ht Hco.
    destruct (score_norm_columns weights _ _ _ _ Hc Ht Hco) as (scored & H & H1 & H2 & H3 & _).
    exists scored. split; [done|]. intros norm values Hin.
    assert (Hn : floats norm scored = Ok (broadcast (nrows predicted) (normalize values))).
    { simpl in Hin. destruct Hin as [[= <- <-]|[[= <- <-]|[[= <- <-]|[]]]]; done. }
    destruct (broadcast_normalize (nrows predicted) values) as [Hflat (m & M & Hmm & Hspread)].
    split.
    + intros v Hv. by rewrite Hn, (Hflat v Hv).
    + exists m, M. split; [done|]. intros Hlt. by rewrite Hn, (Hspread Hlt).
Qed.

(** Two different values, and twice the same value. *)
Lemma normalize_min_max_witness :
  normalize [1%float; 3%float] = Column [0%float; 1%float]
  /\ normalize [7%float; 7%float] = Scalar 0.
Proof.
  split.
  - exact (proj1 normalize_min_max [1%float; 3%float] eq_refl).
  - assert (H : Forall (fun x => x = 7%float \/ (x =? 7)%float = true) [7%float; 7%float]).
    { repeat constructor. }
    exact (proj1 (proj1 (proj2 normalize_min_max) [7%float; 7%float] 7%float 2%nat H)).
Defined.

Local Close Scope float_scope.

(* ================================================================== *)
(** * The ranking *)
(* ================================================================== *)

Section Ranking.

Lemma insert_index_perm keys i l : Permutation (insert_index keys i l) (i :: l).
Proof.
  induction l as [|j t IH]; simpl; [done|].
  destruct (score_le _ _); [done|].
  rewrite IH. apply perm_swap.
Qed.

Lemma insertion_perm keys l : Permutation (foldr (insert_index keys) [] l) l.
Proof.
  induction l as [|i t IH]; simpl; [done|].
  rewrite insert_index_perm. by constructor.
Qed.

Lemma insert_index_sorted keys i l :
  StronglySorted (key_rel keys) l -> StronglySorted (key_rel keys) (insert_index keys i l).
Proof.
  induction 1 as [|j t Ht IH Hj]; simpl.
  - repeat constructor.
  - destruct (score_le (nth i keys nan) (nth j keys nan)) eqn:E.
    + constructor; [by constructor|].
      constructor; [done|].
      eapply Forall_impl; [exact Hj|]. intros k Hk. unfold key_rel in *.
      by eapply score_le_trans.
    + constructor; [done|].
      rewrite insert_index_perm. constructor; [|done].
      unfold key_rel. destruct (score_le_total (nth i keys nan) (nth j keys nan)); congruence.
Qed.

Lemma insertion_sorted keys l :
  StronglySorted (key_rel keys) (foldr (insert_index keys) [] l).
Proof.
  induction l as [|i t IH]; simpl; [constructor|]. by apply insert_index_sorted.
Qed.

Lemma sorted_ascending keys idx :
  StronglySorted (key_rel keys) idx ->
  ascending_na_last (map (fun i => nth i keys nan) idx).
Proof.
  intros Hs i j x y Hij Hi Hj.
  rewrite list_lookup_fmap in Hi, Hj.
  destruct (idx !! i) as [a|] eqn:Ea; [|done].
  destruct (idx !! j) as [b|] eqn:Eb; [|done].
  injection Hi as <-. injection Hj as <-.
  by apply (strongly_sorted_lookup _ _ Hs i j).
Qed.

Lemma assoc_map_snd {V W} (f : V -> W) k (l : list (string * V)) :
  assoc k (map (fun cs => (fst cs, f (snd cs))) l) = f <$> assoc k l.
Proof.
  induction l as [|[k' v] t IH]; simpl; [done|].
  destruct (String.eqb k' k); [done|]. apply IH.
Qed.

Lemma mapM_as_float_take s keys idx :
  mapM as_float s = Ok keys ->
  mapM as_float (take_series idx s) = Ok (map (fun i => nth i keys nan) idx).
Proof.
  intros H. unfold take_series.
  induction idx as [|i t IH]; [done|]. cbn [map mapM]. rewrite IH.
  assert (Hi : as_float (nth i s NA) = Ok (nth i keys nan)).
  { clear IH. revert keys H i. induction s as [|c u IHs]; intros keys H i; simpl in H.
    - injection H as <-. by destruct i.
    - apply bind_ok in H as (b & Hb & H). apply bind_ok in H as (bs & Hbs & H).
      injection H as <-. destruct i; simpl; [done|]. by apply IHs. }
  by rewrite Hi.
Qed.

Lemma floats_take_rows key idx df keys :
  floats key df = Ok keys ->
  floats key (take_rows idx df) = Ok (map (fun i => nth i keys nan) idx).
Proof.
  unfold floats, getitem, take_rows. simpl. rewrite assoc_map_snd.
  destruct (assoc key (columns df)) as [s|]; simpl; [|done].
  apply mapM_as_float_take.
Qed.

(** The call always has a result: the stable order is one. *)
Lemma sort_values_has_result key df keys :
  floats key df = Ok keys ->
  sort_values key df (take_rows (argsort_stable keys (nrows df)) df).
Proof.
  intros H. exists keys, (argsort_stable keys (nrows df)).
  split; [done|]. split; [apply insertion_perm|]. split; [|done].
  apply sorted_ascending, insertion_sorted.
Qed.

Lemma score_candidates_has_score order weights fleet scored :
  score_candidates order weights fleet = Ok (inr scored) ->
  exists scores, floats "optimization_score" scored = Ok scores.
Proof.
  intros H. apply score_candidates_scored in H as (p & s & pr & _ & _ & _ & _ & _ & H).
  unfold score in H. destruct weights as [[wc wt] wco].
  inv_bind H. injection H as <-. rewrite floats_setitem_eq. eauto.
Qed.

End Ranking.

(** C4, as the code has it: for every fleet with a candidate and every
    weight triple, the ranked output is the scored candidates rearranged so
    that optimization_score is ascending (rows whose score is missing come
    last), and the recommendation is its first row; a ranked output always
    exists.  The code sorts with the default sort kind, which is not a stable
    sort: nothing is promised about the order of candidates with equal
    score. *)
Theorem ranked_ascending :
  (forall order wc wt wco fleet best ranked,
      optimize order wc wt wco fleet (Recommended best ranked) ->
      best = iloc 0 ranked
      /\ exists scored idx scores,
          score_candidates order (normalize_weights wc wt wco) fleet = Ok (inr scored)
          /\ Permutation idx (seq 0 (nrows scored))
          /\ ranked = take_rows idx scored
          /\ floats "optimization_score" ranked = Ok scores
          /\ ascending_na_last scores)
  /\ (forall order wc wt wco fleet scored,
         score_candidates order (normalize_weights wc wt wco) fleet = Ok (inr scored) ->
         exists best ranked, optimize order wc wt wco fleet (Recommended best ranked)).
Proof.
  split.
  - intros order wc wt wco fleet best ranked H.
    inversion H as [|scored ranked' Hsc Hsort]; subst. split; [done|].
    destruct Hsort as (keys & idx & Hk & Hperm & Hasc & ->).
    exists scored, idx, (map (fun i => nth i keys nan) idx).
    repeat split; try done. by apply floats_take_rows.
  - intros order wc wt wco fleet scored H.
    destruct (score_candidates_has_score _ _ _ _ H) as [scores Hs].
    eexists _, _. eapply optimize_ranked; [exact H|].
    by apply sort_values_has_result.
Qed.

(** The two vans of the sample data, for the order of 100 km. *)
Lemma ranked_ascending_witness :
  exists best ranked scores,
    optimize Sample.order100 0.5 0.3 0.2 Sample.two_vans (Recommended best ranked)
    /\ best = iloc 0 ranked
    /\ floats "optimization_score" ranked = Ok scores
    /\ ascending_na_last scores.
Proof.
  assert (Hsc : score_candidates Sample.order100 (normalize_weights 0.5 0.3 0.2)
                  Sample.two_vans = Ok (inr Sample.two_vans_scored)).
  { vm_compute. reflexivity. }
  destruct (proj2 ranked_ascending Sample.order100 0.5%float 0.3%float 0.2%float
              Sample.two_vans Sample.two_vans_scored Hsc) as (best & ranked & Hopt).
  destruct (proj1 ranked_ascending Sample.order100 0.5%float 0.3%float 0.2%float
              Sample.two_vans best ranked Hopt)
    as (Hb & scored & idx & scores & _ & _ & _ & Hs & Hasc).
  exists best, ranked, scores.
  split; [exact Hopt|]. split; [exact Hb|]. split; [exact Hs|exact Hasc].
Defined.

(** Eighteen vans with the same figures get the same score, and numpy's
    generic quicksort ranks them in another order than the fleet table's:
    the partition of a range of more than 17 rows swaps rows of equal
    score. *)
Lemma ranking_not_stable :
  score_candidates Sample.order100 (normalize_weights 0.5 0.3 0.2) Sample.eighteen_vans
  = Ok (inr Sample.eighteen_vans_scored)
  /\ index Sample.eighteen_vans_scored = seq 0 18
  /\ floats "optimization_score" Sample.eighteen_vans_scored = Ok (repeat 0%float 18)
  /\ sort_values_quicksort "optimization_score" Sample.eighteen_vans_scored
     = Some Sample.eighteen_vans_ranked
  /\ index Sample.eighteen_vans_ranked
     = [0; 15; 14; 13; 12; 11; 10; 9; 8; 7; 6; 5; 4; 3; 2; 1; 16; 17]
  /\ optimize Sample.order100 0.5 0.3 0.2 Sample.eighteen_vans
       (Recommended (iloc 0 Sample.eighteen_vans_ranked) Sample.eighteen_vans_ranked)
  /\ ~ ties_keep_fleet_order Sample.eighteen_vans_ranked.
Proof.
  assert (Hsc : score_candidates Sample.order100 (normalize_weights 0.5 0.3 0.2)
                  Sample.eighteen_vans = Ok (inr Sample.eighteen_vans_scored)).
  { vm_compute. reflexivity. }
  split; [exact Hsc|]. split; [reflexivity|]. split; [vm_compute; reflexivity|].
  split; [vm_compute; reflexivity|]. split; [reflexivity|]. split.
  - apply optimize_ranked with (scored := Sample.eighteen_vans_scored); [exact Hsc|].
    exists (repeat 0%float 18),
      [0; 15; 14; 13; 12; 11; 10; 9; 8; 7; 6; 5; 4; 3; 2; 1; 16; 17].
    split; [vm_compute; reflexivity|]. split; [|split; [|vm_compute; reflexivity]].
    + change (Permutation ([0] ++ rev (seq 1 15) ++ [16; 17])
                          ([0] ++ seq 1 15 ++ [16; 17])).
      apply Permutation_app_head, Permutation_app_tail. symmetry. apply Permutation_rev.
    + assert (E : map (fun i => nth i (repeat 0%float 18) nan)
                    [0; 15; 14; 13; 12; 11; 10; 9; 8; 7; 6; 5; 4; 3; 2; 1; 16; 17]
                  = repeat 0%float 18) by (vm_compute; reflexivity).
      rewrite E. intros i j x y _ Hi Hj.
      apply list_elem_of_lookup_2, list_elem_of_In, repeat_spec in Hi, Hj.
      by subst.
  - intros Hties.
    specialize (Hties (repeat 0%float 18) 1 2 15 14 0%float 0%float).
    assert (H : 15 < 14); [|lia].
    apply Hties; try reflexivity; try lia.
Qed.

(** * The rest of the page: merges, imputation, loading and display *)

Section MergeFacts.

Lemma left_join_row_length rkeys i k :
  length (left_join_row rkeys i k) = Nat.max 1 (length (matches k rkeys)).
Proof.
  unfold left_join_row. destruct (matches k rkeys) as [|j t]; [done|].
  rewrite length_map. simpl. lia.
Qed.

Lemma left_join_row_fst rkeys i k p :
  In p (left_join_row rkeys i k) -> fst p = i.
Proof.
  unfold left_join_row. destruct (matches k rkeys) as [|j t].
  - intros [<-|[]]. done.
  - intros H. apply in_map_iff in H as (j' & <- & _). done.
Qed.

Lemma left_join_row_nonempty rkeys i k :
  exists j, In (i, j) (left_join_row rkeys i k).
Proof.
  unfold left_join_row. destruct (matches k rkeys) as [|j t].
  - exists None. by left.
  - exists (Some j). by left.
Qed.

Lemma indexer_length_from (f : nat -> nat) rkeys lkeys :
  length (concat (imap (fun i => left_join_row rkeys (f i)) lkeys))
  = sum_list (map (fun k => Nat.max 1 (length (matches k rkeys))) lkeys).
Proof.
  revert f. induction lkeys as [|k t IH]; intros f; simpl; [done|].
  rewrite length_app, left_join_row_length. f_equal. apply (IH (f ∘ S)).
Qed.

Lemma left_join_indexer_length lkeys rkeys :
  length (left_join_indexer lkeys rkeys)
  = sum_list (map (fun k => Nat.max 1 (length (matches k rkeys))) lkeys).
Proof. apply (indexer_length_from id). Qed.

Lemma sum_at_least_length (g : cell -> nat) lkeys :
  (forall k, 1 <= g k) -> length lkeys <= sum_list (map g lkeys).
Proof.
  intros Hg. induction lkeys as [|k t IH]; simpl; [lia|]. specialize (Hg k). lia.
Qed.

Lemma indexer_covers_from (f : nat -> nat) rkeys lkeys i :
  i < length lkeys ->
  exists j, In (f i, j) (concat (imap (fun i => left_join_row rkeys (f i)) lkeys)).
Proof.
  revert f i. induction lkeys as [|k t IH]; intros f i Hi; simpl in *; [lia|].
  destruct i as [|i].
  - destruct (left_join_row_nonempty rkeys (f 0) k) as [j Hj].
    exists j. apply in_or_app. by left.
  - destruct (IH (f ∘ S) i ltac:(lia)) as [j Hj].
    exists j. apply in_or_app. by right.
Qed.

Lemma indexer_in_range_from (f : nat -> nat) rkeys lkeys p :
  In p (concat (imap (fun i => left_join_row rkeys (f i)) lkeys)) ->
  exists i, i < length lkeys /\ fst p = f i.
Proof.
  revert f. induction lkeys as [|k t IH]; intros f H; simpl in *; [done|].
  apply in_app_or in H as [H|H].
  - exists 0. split; [lia|]. by apply left_join_row_fst in H.
  - destruct (IH (f ∘ S) H) as (i & Hi & E). exists (S i). split; [lia|done].
Qed.

Lemma merged_well_formed left right on lkeys rkeys merged :
  getitem on left = Ok lkeys -> getitem on right = Ok rkeys ->
  merge left right on = Ok merged ->
  nrows merged = length (left_join_indexer lkeys rkeys)
  /\ index merged = seq 0 (nrows merged)
  /\ wf_frame merged.
Proof.
  intros Hl Hr H. apply merge_inv in H as (lk & rk & Hl' & Hr' & ->).
  rewrite Hl in Hl'. rewrite Hr in Hr'. injection Hl' as <-. injection Hr' as <-.
  unfold nrows, wf_frame. simpl. rewrite length_seq. repeat split.
  apply Forall_app. split; apply Forall_fmap, Forall_forall; intros [c s] _; simpl;
    unfold take_left, take_right, nrows; simpl; by rewrite length_map, length_seq.
Qed.


End MergeFacts.

Section MergeErrors.

Lemma merged_count_key left right merged :
  merge left right "order_id" = Ok merged ->
  count_label "order_id" merged = count_label "order_id" left.
Proof.
  intros H. rewrite <- (joined_count_key left right [] []).
  unfold count_label. f_equal. f_equal.
  rewrite (merged_names _ _ _ _ H). unfold column_names, joined. cbn [columns].
  by rewrite map_app, !map_map.
Qed.


Lemma coerce_merge_keys_raises lkeys rkeys e :
  coerce_merge_keys lkeys rkeys = Raise e -> e = ValueError.
Proof.
  unfold coerce_merge_keys. destruct lkeys, rkeys; try done.
  destruct (dtype_eqb _ _); [done|]. by intros [= <-].
Qed.

(** A merge raises [KeyError] only for its key, when a table lacks it. *)
Lemma merge_raises_key left right on key :
  merge left right on = Raise (KeyError key) ->
  key = on /\ (has_column on right = false \/ has_column on left = false).
Proof.
  unfold merge. destruct (key_values on right) as [rkeys|e] eqn:Er; cbn [bind].
  - destruct (key_values on left) as [lkeys|e] eqn:El; cbn [bind].
    + destruct (coerce_merge_keys lkeys rkeys) as [u|e] eqn:Ec; cbn [bind].
      * by destruct (_ ++ _)%list.
      * apply coerce_merge_keys_raises in Ec as ->. done.
    + intros [= ->]. apply key_values_raises in El as [[[= ->] H]|[H _]]; [|done].
      split; [done|by right].
  - intros [= ->]. apply key_values_raises in Er as [[[= ->] H]|[H _]]; [|done].
    split; [done|by left].
Qed.

Lemma merge_missing_right left right on :
  has_column on right = false -> merge left right on = Raise (KeyError on).
Proof. intros H. unfold merge. by rewrite key_values_missing. Qed.

(** No header of [num_cols_to_fill] is another header with a suffix. *)
Lemma ends_with_app sfx d : ends_with sfx (d ++ sfx) = true.
Proof.
  induction d as [|c d IH]; simpl.
  - destruct sfx; simpl; [done|]. by rewrite Ascii.eqb_refl, String.eqb_refl.
  - rewrite IH. apply orb_true_r.
Qed.

Lemma fill_name_not_suffixed col d sfx :
  In col num_cols_to_fill -> sfx = "_x" \/ sfx = "_y" -> d ++ sfx <> col.
Proof.
  intros Hin Hs E. pose proof (ends_with_app sfx d) as H. rewrite E in H.
  simpl in Hin.
  destruct Hs as [-> | ->];
    repeat (destruct Hin as [<-|Hin]; [vm_compute in H; discriminate H|]); done.
Qed.

Lemma fill_name_not_key col : In col num_cols_to_fill -> col <> "order_id".
Proof.
  simpl. intros H E. subst.
  repeat (destruct H as [H|H]; [discriminate H|]). done.
Qed.

(** A column of the fill list keeps its plain name through a merge exactly
    when one of the two tables has it and the other has not. *)
Lemma merged_plain_column left right merged col :
  In col num_cols_to_fill ->
  merge left right "order_id" = Ok merged ->
  has_column col merged = xorb (has_column col left) (has_column col right).
Proof.
  intros Hin Hm. pose proof (fill_name_not_key col Hin) as Hk.
  pose proof (merged_names _ _ _ _ Hm) as Hnames.
  assert (Hov : overlaps "order_id" left right col
                = has_column col left && has_column col right).
  { unfold overlaps, has_column. apply String.eqb_neq in Hk. by rewrite Hk. }
  assert (Hiff : In col (column_names merged)
                 <-> overlaps "order_id" left right col = false
                     /\ (has_column col left = true \/ has_column col right = true)).
  { rewrite Hnames. split.
    - intros E. apply in_app_or in E as [E|E]; apply in_map_iff in E as (d & E & Hd);
        unfold suffixed in E.
      + destruct (overlaps "order_id" left right d) eqn:Od.
        * by apply (fill_name_not_suffixed col d "_x" Hin (or_introl eq_refl)) in E.
        * subst d. split; [done|]. left. by apply has_column_In.
      + destruct (overlaps "order_id" left right (fst d)) eqn:Od.
        * by apply (fill_name_not_suffixed col (fst d) "_y" Hin (or_intror eq_refl)) in E.
        * rewrite E in Od. split; [done|]. right. apply has_column_In.
          unfold drop_key in Hd. apply filter_In in Hd as [Hd _].
          apply in_map_iff. exists d. done.
    - intros [Hno [Hl|Hr]]; apply in_or_app.
      + left. apply in_map_iff. exists col. split; [|by apply has_column_In].
        unfold suffixed. by rewrite Hno.
      + right. apply has_column_getitem in Hr as [s Hs]. apply getitem_In in Hs.
        apply in_map_iff. exists (col, s). split.
        * unfold suffixed. simpl. by rewrite Hno.
        * unfold drop_key. apply filter_In. split; [done|]. simpl.
          apply String.eqb_neq in Hk. by rewrite Hk. }
  rewrite <- has_column_In, Hov in Hiff.
  destruct (has_column col merged), (has_column col left), (has_column col right);
    simpl in *; try done; intuition congruence.
Qed.

(** The two copies of a column that both tables of a merge have. *)
Lemma merged_suffixed_columns left right merged col :
  col <> "order_id" ->
  has_column col left = true -> has_column col right = true ->
  merge left right "order_id" = Ok merged ->
  has_column (col ++ "_x") merged = true /\ has_column (col ++ "_y") merged = true.
Proof.
  intros Hk Hl Hr Hm.
  assert (Hov : overlaps "order_id" left right col = true).
  { unfold overlaps. apply String.eqb_neq in Hk. rewrite Hk. simpl.
    unfold has_column in Hl, Hr. by rewrite Hl, Hr. }
  pose proof (merged_names _ _ _ _ Hm) as Hnames. split.
  - apply has_column_In. rewrite Hnames. apply in_or_app. left.
    apply in_map_iff. exists col. split; [|by apply has_column_In].
    unfold suffixed. by rewrite Hov.
  - apply has_column_In. rewrite Hnames. apply in_or_app. right.
    apply has_column_getitem in Hr as [s Hs]. apply getitem_In in Hs.
    apply in_map_iff. exists (col, s). split.
    + unfold suffixed. simpl. by rewrite Hov.
    + unfold drop_key. apply filter_In. split; [done|]. simpl.
      apply String.eqb_neq in Hk. by rewrite Hk.
Qed.

End MergeErrors.

(** X1: a left merge never loses a row of its left table.  When both tables
    carry the key column, the merged table has one row for each left row
    without a match and one row for each match of a left row that has some,
    so it has at least as many rows as the left table; its rows are
    relabelled 0, 1, ..., every column has that many cells, every left row
    appears in the result and no row comes from outside the left table. *)
Theorem merge_never_drops_rows left right on lkeys rkeys merged :
  getitem on left = Ok lkeys ->
  getitem on right = Ok rkeys ->
  merge left right on = Ok merged ->
  nrows merged = sum_list (map (fun k => Nat.max 1 (length (matches k rkeys))) lkeys)
  /\ length lkeys <= nrows merged
  /\ index merged = seq 0 (nrows merged)
  /\ wf_frame merged
  /\ (forall i, i < length lkeys ->
                exists j, In (i, j) (left_join_indexer lkeys rkeys))
  /\ (forall p, In p (left_join_indexer lkeys rkeys) -> fst p < length lkeys).
Proof.
  intros Hl Hr H.
  destruct (merged_well_formed _ _ _ _ _ _ Hl Hr H) as (Hn & Hi & Hwf).
  rewrite Hn, left_join_indexer_length.
  split; [done|]. split; [apply sum_at_least_length; lia|].
  rewrite <- left_join_indexer_length, <- Hn.
  split; [done|]. split; [done|]. split.
  - intros i Hlt. apply (indexer_covers_from id); done.
  - intros p Hp. apply (indexer_in_range_from id) in Hp as (i & Hlt & ->). done.
Qed.

Lemma merge_never_drops_rows_witness :
  exists merged,
    merge Sample.orders Sample2.routes_twice "order_id" = Ok merged
    /\ nrows merged = 3.
Proof.
  destruct (merge Sample.orders Sample2.routes_twice "order_id") as [merged|e] eqn:E;
    [|discriminate E].
  exists merged. split; [reflexivity|].
  exact (proj1 (merge_never_drops_rows Sample.orders Sample2.routes_twice "order_id"
                  [Str "ORD1"; Str "ORD2"] [Str "ORD1"; Str "ORD2"; Str "ORD1"] merged
                  eq_refl eq_refl E)).
Defined.

(** X2: what the three merges of the master table need of the column
    [order_id].  When they return, each of the four tables (orders, delivery
    performance, routes, costs) has exactly one column [order_id] after
    header cleaning, and so has the master table.  When one of the tables
    has no such column the merges raise, with [KeyError "order_id"] when it
    is the performance table; and a [KeyError] of the merges is always
    [KeyError "order_id"], for a table that has no such column.  The merges
    raise [ValueError] when the performance table has more than one column
    [order_id], and when the orders and the performance table have rows and
    their [order_id] columns are of different kinds (numbers against
    text). *)
Theorem merge_all_needs_order_id orders performance routes costs :
  (forall master,
      merge_all orders performance routes costs = Ok master ->
      Forall (fun table => count_label "order_id" table = 1)
        [orders; performance; routes; costs]
      /\ count_label "order_id" master = 1)
  /\ (forallb (has_column "order_id") [orders; performance; routes; costs] = false ->
      exists e, merge_all orders performance routes costs = Raise e)
  /\ (has_column "order_id" performance = false ->
      merge_all orders performance routes costs = Raise (KeyError "order_id"))
  /\ (forall key,
         merge_all orders performance routes costs = Raise (KeyError key) ->
         key = "order_id"
         /\ forallb (has_column "order_id") [orders; performance; routes; costs] = false)
  /\ (2 <= count_label "order_id" performance ->
      merge_all orders performance routes costs = Raise ValueError)
  /\ (forall okeys pkeys,
         count_label "order_id" orders = 1 -> count_label "order_id" performance = 1 ->
         getitem "order_id" orders = Ok okeys ->
         getitem "order_id" performance = Ok pkeys ->
         okeys <> [] -> pkeys <> [] -> dtype_of okeys <> dtype_of pkeys ->
         merge_all orders performance routes costs = Raise ValueError).
Proof.
  assert (Hok : forall master,
             merge_all orders performance routes costs = Ok master ->
             Forall (fun table => count_label "order_id" table = 1)
               [orders; performance; routes; costs]
             /\ count_label "order_id" master = 1).
  { intros master H. unfold merge_all in H.
    apply bind_ok in H as (m1 & E1 & H). apply bind_ok in H as (m2 & E2 & E3).
    pose proof (merged_count_key _ _ _ E3) as C3.
    destruct (merge_checks _ _ _ _ E1) as (? & ? & Co & Cp & _).
    destruct (merge_checks _ _ _ _ E2) as (? & ? & C1 & Cr & _).
    destruct (merge_checks _ _ _ _ E3) as (? & ? & C2 & Cc & _).
    split; [by repeat constructor|congruence]. }
  assert (Hhas : forall table, count_label "order_id" table = 1 ->
                               has_column "order_id" table = true).
  { intros table H. destruct (has_column "order_id" table) eqn:E; [done|].
    apply count_label_zero in E. lia. }
  split; [exact Hok|]. split; [|split; [|split; [|split]]].
  - intros Hno. destruct (merge_all orders performance routes costs) as [master|e] eqn:E;
      [|eauto].
    destruct (Hok master eq_refl) as [Hall _].
    apply Forall_cons in Hall as [Co Hall]. apply Forall_cons in Hall as [Cp Hall].
    apply Forall_cons in Hall as [Cr Hall]. apply Forall_cons in Hall as [Cc _].
    simpl in Hno. rewrite !Hhas in Hno by done. done.
  - intros Hp. unfold merge_all. by rewrite merge_missing_right.
  - intros key H. unfold merge_all in H. simpl.
    destruct (merge orders performance "order_id") as [m1|e1] eqn:E1; cbn [bind] in H.
    + destruct (merge_checks _ _ _ _ E1) as (? & ? & Co & Cp & _).
      pose proof (merged_count_key _ _ _ E1) as C1.
      destruct (merge m1 routes "order_id") as [m2|e2] eqn:E2; cbn [bind] in H.
      * destruct (merge_checks _ _ _ _ E2) as (? & ? & _ & Cr & _).
        pose proof (merged_count_key _ _ _ E2) as C2.
        apply merge_raises_key in H as [-> [Hc|H2]].
        -- split; [done|]. rewrite Hc. by rewrite !andb_false_r.
        -- apply count_label_zero in H2. lia.
      * injection H as ->. apply merge_raises_key in E2 as [-> [Hr|H1]].
        -- split; [done|]. rewrite Hr. by rewrite !andb_false_r.
        -- apply count_label_zero in H1. lia.
    + injection H as ->. apply merge_raises_key in E1 as [-> [Hp|Ho]].
      * split; [done|]. rewrite Hp. by rewrite !andb_false_r.
      * split; [done|]. by rewrite Ho.
  - intros Hp. unfold merge_all, merge, key_values.
    by destruct (count_label "order_id" performance) as [|[|n]]; [lia|lia|].
  - intros okeys pkeys Co Cp Ho Hp Hoe Hpe Hd.
    unfold merge_all, merge, key_values. rewrite Co, Cp, Ho, Hp. cbn [bind].
    unfold coerce_merge_keys. destruct okeys as [|o ot]; [done|].
    destruct pkeys as [|q qt]; [done|].
    by destruct (dtype_of (o :: ot)), (dtype_of (q :: qt)).
Qed.

(** The sample tables are merged; with an inventory file in the place of
    the performance file the merges raise. *)
Lemma merge_all_needs_order_id_witness :
  (exists master,
      merge_all Sample.orders Sample.performance Sample.routes Sample.costs = Ok master
      /\ count_label "order_id" master = 1)
  /\ merge_all Sample.orders Sample2.inventory Sample.routes Sample.costs
     = Raise (KeyError "order_id").
Proof.
  split.
  - exists Sample.master. split; [reflexivity|].
    exact (proj2 (proj1 (merge_all_needs_order_id Sample.orders Sample.performance
                           Sample.routes Sample.costs) Sample.master eq_refl)).
  - apply (proj1 (proj2 (proj2 (merge_all_needs_order_id Sample.orders Sample2.inventory
                                  Sample.routes Sample.costs)))).
    reflexivity.
Defined.

(** X3: a numeric column that an even number of the merged tables share is
    lost to the imputation.  A merge renames the two copies of a column that
    both of its tables have with the suffixes [_x] and [_y], and keeps the
    name of a column that only one of them has.  So a column of the
    imputation list is in the master table under its own name exactly when
    an odd number of the four tables has it; when two or all four of them
    have it, the imputation loop creates the plain column filled with 0 on
    every row, next to the suffixed copies. *)
Theorem shared_column_is_zeroed mode orders performance routes costs col master filled :
  In col num_cols_to_fill ->
  merge_all orders performance routes costs = Ok master ->
  fill_numeric mode master = Ok filled ->
  has_column col master
  = xorb (xorb (xorb (has_column col orders) (has_column col performance))
            (has_column col routes))
      (has_column col costs)
  /\ (has_column col master = false ->
      getitem col filled = Ok (repeat (Num 0) (nrows master)))
  /\ (forall left right merged,
         merge left right "order_id" = Ok merged ->
         has_column col left = true -> has_column col right = true ->
         has_column col merged = false
         /\ has_column (col ++ "_x") merged = true
         /\ has_column (col ++ "_y") merged = true).
Proof.
  intros Hin Hm Hf. unfold merge_all in Hm.
  apply bind_ok in Hm as (m1 & E1 & Hm). apply bind_ok in Hm as (m2 & E2 & E3).
  split; [|split].
  - rewrite (merged_plain_column _ _ _ _ Hin E3), (merged_plain_column _ _ _ _ Hin E2).
    by rewrite (merged_plain_column _ _ _ _ Hin E1).
  - intros Hnot.
    destruct (foldM_fill_eq _ _ _ _ _ num_cols_to_fill_NoDup Hin Hf) as (s' & Hs1 & Hs2).
    unfold filled_column in Hs1.
    apply has_column_false in Hnot as [e He]. rewrite He in Hs1.
    injection Hs1 as <-. done.
  - intros left right merged Hmerge Hl Hr. split.
    + by rewrite (merged_plain_column _ _ _ _ Hin Hmerge), Hl, Hr.
    + apply (merged_suffixed_columns left right merged col); try done.
      by apply fill_name_not_key.
Qed.

(** An orders table with a distance column of its own, merged with the
    sample routes table, which has one too. *)
Lemma shared_column_is_zeroed_witness :
  exists master filled,
    merge_all Sample2.orders_with_distance Sample.performance Sample.routes Sample.costs
    = Ok master
    /\ fill_numeric InPlace master = Ok filled
    /\ getitem "distance_km" filled = Ok [Num 0; Num 0].
Proof.
  destruct (merge_all Sample2.orders_with_distance Sample.performance Sample.routes
              Sample.costs) as [master|e] eqn:Em; [|by vm_compute in Em].
  destruct (fill_numeric InPlace master) as [filled|e] eqn:Ef.
  - exists master, filled. split; [done|]. split; [done|].
    destruct (shared_column_is_zeroed InPlace _ _ _ _ "distance_km" master filled
                (or_introl eq_refl) Em Ef) as (Hhas & Hzero & _).
    rewrite Hzero; [|by rewrite Hhas].
    vm_compute in Em. injection Em as <-. reflexivity.
  - vm_compute in Em. injection Em as <-. by vm_compute in Ef.
Defined.

Section Frames.

Lemma assoc_set_lengths {V} (P : V -> Prop) k (v : V) l :
  P v -> Forall (fun cs => P (snd cs)) l -> Forall (fun cs => P (snd cs)) (assoc_set k v l).
Proof.
  intros Hv. induction 1 as [|[k' v'] t Hh Ht IH]; simpl.
  - by repeat constructor.
  - destruct (String.eqb k' k); constructor; done.
Qed.

Lemma wf_setitem col s df :
  wf_frame df -> length s = nrows df -> wf_frame (setitem col s df).
Proof.
  intros Hwf Hs. unfold wf_frame, setitem. simpl.
  by apply (assoc_set_lengths (fun v : Series => length v = nrows df)).
Qed.

Lemma column_length col s df : wf_frame df -> getitem col df = Ok s -> length s = nrows df.
Proof.
  intros Hwf Hs. apply getitem_In in Hs. unfold wf_frame in Hwf.
  rewrite Forall_forall in Hwf. apply (Hwf (col, s)). by apply list_elem_of_In.
Qed.

Lemma fillna_selected_wf mode col v df df' :
  wf_frame df -> fillna_selected mode col v df = Ok df' -> wf_frame df'.
Proof.
  intros Hwf H. unfold fillna_selected in H. apply bind_ok in H as (s & Hs & H).
  injection H as <-. destruct mode; [|done].
  apply wf_setitem; [done|]. unfold fillna. rewrite length_map.
  by apply (column_length col).
Qed.

Lemma fill_num_col_index mode df col df' :
  fill_num_col mode df col = Ok df' -> index df' = index df.
Proof.
  unfold fill_num_col. destruct (has_column col df).
  - intros H. apply bind_ok in H as (s & Hs & H). apply bind_ok in H as (m & Hm & H).
    by apply fillna_selected_inv in H as (s0 & _ & Hi & _).
  - by intros [= <-].
Qed.

Lemma fill_num_col_wf mode df col df' :
  wf_frame df -> fill_num_col mode df col = Ok df' -> wf_frame df'.
Proof.
  intros Hwf. unfold fill_num_col. destruct (has_column col df).
  - intros H. apply bind_ok in H as (s & Hs & H). apply bind_ok in H as (m & Hm & H).
    by eapply fillna_selected_wf.
  - intros [= <-]. apply wf_setitem; [done|]. by rewrite repeat_length.
Qed.

Lemma foldM_fill_index mode cols : forall df df',
  foldM (fill_num_col mode) cols df = Ok df' -> index df' = index df.
Proof.
  induction cols as [|c t IH]; intros df df' H; simpl in H.
  - by injection H as <-.
  - apply bind_ok in H as (df1 & H1 & H).
    rewrite (IH _ _ H). by eapply fill_num_col_index.
Qed.

Lemma foldM_fill_wf mode cols : forall df df',
  wf_frame df -> foldM (fill_num_col mode) cols df = Ok df' -> wf_frame df'.
Proof.
  induction cols as [|c t IH]; intros df df' Hwf H; simpl in H.
  - by injection H as <-.
  - apply bind_ok in H as (df1 & H1 & H).
    eapply IH; [|done]. by eapply fill_num_col_wf.
Qed.

Lemma mapM_as_float_fillna m s xs :
  mapM as_float s = Ok xs -> exists ys, mapM as_float (fillna m s) = Ok ys.
Proof.
  revert xs. induction s as [|c t IH]; intros xs H; [simpl; eauto|].
  simpl in H.
  apply bind_ok in H as (b & Hb & H). apply bind_ok in H as (bs & Hbs & H).
  destruct (IH _ Hbs) as [ys Hys]. unfold fillna in *. cbn [map mapM]. rewrite Hys.
  destruct c; try done. simpl. destruct (is_nan x); simpl; eauto.
Qed.

Lemma mapM_as_float_repeat x n : mapM as_float (repeat (Num x) n) = Ok (repeat x n).
Proof. induction n as [|n IH]; simpl; [done|]. by rewrite IH. Qed.

Lemma filled_column_numeric mode df col s' :
  filled_column mode df col = Ok s' -> exists ys, mapM as_float s' = Ok ys.
Proof.
  unfold filled_column. destruct (getitem col df) as [s|e].
  - intros H. apply bind_ok in H as (m & Hm & H). injection H as <-.
    unfold series_median in Hm. apply bind_ok in Hm as (xs & Hxs & _).
    destruct mode; [by eapply mapM_as_float_fillna|eauto].
  - intros [= <-]. rewrite mapM_as_float_repeat. eauto.
Qed.

Lemma row_get_iloc col i df s :
  getitem col df = Ok s -> row_get col (iloc i df) = Ok (nth i s NA).
Proof.
  unfold getitem, row_get, iloc.
  induction (columns df) as [|[c v] t IH]; simpl; [done|].
  destruct (String.eqb c col); [by intros [= ->]|done].
Qed.

Lemma as_float_nth s xs i :
  mapM as_float s = Ok xs -> as_float (nth i s NA) = Ok (nth i xs nan).
Proof.
  revert xs i. induction s as [|c u IHs]; intros xs i H; simpl in H.
  - injection H as <-. by destruct i.
  - apply bind_ok in H as (b & Hb & H). apply bind_ok in H as (bs & Hbs & H).
    injection H as <-. destruct i; simpl; [done|]. by apply IHs.
Qed.

End Frames.

Section DelayFrame.

Variable parse : Series -> datetimes.
Variable total_seconds : resolution -> Z -> float.

(** The table an assignment of the delay that returns leaves. *)
Lemma add_delay_frame mode master master' :
  add_delay parse total_seconds mode master = Ok master' ->
  exists promised actual r deltas,
    getitem "promised_delivery_days" master = Ok promised
    /\ getitem "actual_delivery_days" master = Ok actual
    /\ length deltas = Nat.min (length (stamps (parse actual)))
                         (length (stamps (parse promised)))
    /\ index master' = index master
    /\ getitem "promised_delivery_days" master' = Ok (datetime_cells (parse promised))
    /\ getitem "actual_delivery_days" master' = Ok (datetime_cells (parse actual))
    /\ getitem "delivery_delay_hours" master'
       = Ok (map (match mode with
                  | InPlace => fun c => if isna c then Num 0%float else c
                  | CopyOnWrite => fun c => c
                  end)
               (map (fun d => Num (delay_hours total_seconds r d)) deltas))
    /\ (forall col, col <> "promised_delivery_days" -> col <> "actual_delivery_days" ->
                    col <> "delivery_delay_hours" ->
                    getitem col master' = getitem col master).
Proof.
  intros H.
  destruct (add_delay_inv parse total_seconds mode master master' H)
    as (promised & actual & r & deltas & Hp & Ha & Hs).
  destruct (add_delay_table parse total_seconds mode master promised actual r deltas
              Hp Ha Hs) as (m & E & Hi & Gp & Ga & Gd & Ho).
  rewrite H in E. injection E as <-.
  exists promised, actual, r, deltas. repeat (split; [done|]).
  split; [by eapply sub_datetimes_length|]. done.
Qed.


Lemma add_delay_wf mode master master' :
  (forall s, length (stamps (parse s)) = length s) ->
  wf_frame master ->
  add_delay parse total_seconds mode master = Ok master' ->
  wf_frame master'.
Proof.
  intros Hlen Hwf H.
  destruct (add_delay_inv parse total_seconds mode master master' H)
    as (promised & actual & r & deltas & Hp & Ha & Hs).
  pose proof (column_length _ _ _ Hwf Hp) as Hlp.
  pose proof (column_length _ _ _ Hwf Ha) as Hla.
  pose proof (sub_datetimes_length _ _ _ _ Hs) as Hd. rewrite !Hlen in Hd.
  rewrite (add_delay_sub parse total_seconds mode master promised actual Hp Ha), Hs in H.
  cbn [bind fst snd] in H. eapply fillna_selected_wf; [|exact H].
  repeat apply wf_setitem; try done.
  - unfold datetime_cells. by rewrite length_map, Hlen.
  - unfold datetime_cells. by rewrite length_map, Hlen.
  - rewrite length_map, Hd. unfold nrows in *. simpl. lia.
Qed.

End DelayFrame.

(** X4: the imputation loop touches nothing but the six numeric columns.
    It keeps the row labels, leaves every other column as it was, leaves
    each of the six columns present with a float in every entry (a number,
    or NaN where a value is still missing; never text or a timestamp), and
    keeps the table rectangular.  This holds whether or not the in-place
    fill reaches the table. *)
Theorem imputation_keeps_the_rest mode master filled :
  fill_numeric mode master = Ok filled ->
  index filled = index master
  /\ (forall col, ~ In col num_cols_to_fill -> getitem col filled = getitem col master)
  /\ (forall col, In col num_cols_to_fill ->
                  exists s xs, getitem col filled = Ok s /\ mapM as_float s = Ok xs)
  /\ (wf_frame master -> wf_frame filled).
Proof.
  intros H. split; [by eapply foldM_fill_index|]. split; [|split].
  - intros col Hni. by destruct (foldM_fill_ne _ _ _ _ _ Hni H).
  - intros col Hin.
    destruct (foldM_fill_eq _ _ _ _ _ num_cols_to_fill_NoDup Hin H) as (s' & Hs1 & Hs2).
    destruct (filled_column_numeric _ _ _ _ Hs1) as [ys Hys]. eauto.
  - intros Hwf. by eapply foldM_fill_wf.
Qed.

Lemma imputation_keeps_the_rest_witness :
  index Sample.master_filled = [0; 1]
  /\ getitem "order_id" Sample.master_filled = Ok [Str "ORD1"; Str "ORD2"].
Proof.
  destruct (imputation_keeps_the_rest InPlace Sample.master Sample.master_filled eq_refl)
    as (Hi & Hrest & _).
  split; [exact Hi|].
  rewrite (Hrest "order_id"); [reflexivity|].
  simpl. intros H. repeat (destruct H as [H|H]; [discriminate H|]). exact H.
Defined.

(** X5: computing the delay keeps the row labels and every column other
    than the two timestamps and the delay itself; the delay column has a
    float on every row, and no missing value where the in-place fill of the
    selected column reaches the table (pandas 2); and the table stays
    rectangular when date parsing returns one value per cell. *)
Theorem delay_keeps_the_rest
    (parse : Series -> datetimes) (total_seconds : resolution -> Z -> float)
    (mode : pandas_mode) (master master' : DataFrame) :
  add_delay parse total_seconds mode master = Ok master' ->
  index master' = index master
  /\ (forall col,
         col <> "promised_delivery_days" -> col <> "actual_delivery_days" ->
         col <> "delivery_delay_hours" ->
         getitem col master' = getitem col master)
  /\ (exists delay,
         getitem "delivery_delay_hours" master' = Ok delay
         /\ Forall (fun c => exists x, c = Num x) delay
         /\ (mode = InPlace -> Forall (fun c => isna c = false) delay))
  /\ ((forall s, length (stamps (parse s)) = length s) ->
      wf_frame master -> wf_frame master').
Proof.
  intros H. pose proof H as H'.
  apply add_delay_frame in H'
    as (promised & actual & r & deltas & _ & _ & _ & Hi & _ & _ & Gd & Ho).
  split; [done|]. split; [exact Ho|]. split.
  - eexists. split; [exact Gd|]. split.
    + rewrite map_map. apply Forall_fmap, Forall_forall. intros d _. simpl.
      destruct mode; [|eauto]. destruct (isna _); eauto.
    + intros ->. rewrite map_map. apply Forall_fmap, Forall_forall. intros d _. simpl.
      by destruct (is_nan (delay_hours total_seconds r d)) eqn:E.
  - intros Hlen Hwf. by eapply add_delay_wf.
Qed.

Lemma delay_keeps_the_rest_witness :
  exists master',
    add_delay Sample.parse Sample.total_seconds InPlace Sample.deliveries = Ok master'
    /\ getitem "order_id" master' = Ok [Str "ORD1"; Str "ORD2"].
Proof.
  eexists. split; [reflexivity|].
  exact (proj1 (proj2 (delay_keeps_the_rest Sample.parse Sample.total_seconds InPlace
                         Sample.deliveries _ eq_refl))
           "order_id" ltac:(discriminate) ltac:(discriminate) ltac:(discriminate)).
Defined.

Section Prepared.




End Prepared.



Section Loading.

Variable files : string -> read_csv_result.

Lemma read_csv_cases path name :
  (exists df, files (path_join path name) = CsvTable df
              /\ read_csv files path name = inr df)
  \/ (~ readable files path name
      /\ exists e, read_csv files path name = inl e
         /\ (forall f, e = DataFileNotFound f ->
               f = path_join path name /\ files f = FileNotFoundError)).
Proof.
  unfold read_csv, readable.
  destruct (files (path_join path name)) as [df| |] eqn:E.
  - left. eauto.
  - right. split; [by intros [df Hdf]|]. eexists. split; [done|].
    intros f [= <-]. done.
  - right. split; [by intros [df Hdf]|]. eexists. split; [done|]. done.
Qed.

Lemma read_all_cases path :
  (Forall (readable files path) csv_files /\ exists tables, read_all files path = inr tables)
  \/ (exists name e,
        first_unreadable files path csv_files name
        /\ read_all files path = inl e
        /\ (forall f, e = DataFileNotFound f ->
              f = path_join path name /\ files f = FileNotFoundError)).
Proof.
  unfold read_all, csv_files.
  destruct (read_csv_cases path "orders.csv") as [(t1 & R1 & ->)|(N & e & -> & He)];
    [|right; exists "orders.csv", e; split;
       [by exists [], (tl csv_files)|done]].
  destruct (read_csv_cases path "delivery_performance.csv")
    as [(t2 & R2 & ->)|(N & e & -> & He)];
    [|right; exists "delivery_performance.csv", e; split;
       [exists (take 1 csv_files), (drop 2 csv_files);
        repeat split; [|done]; repeat constructor; by eexists|done]].
  destruct (read_csv_cases path "routes_distance.csv")
    as [(t3 & R3 & ->)|(N & e & -> & He)];
    [|right; exists "routes_distance.csv", e; split;
       [exists (take 2 csv_files), (drop 3 csv_files);
        repeat split; [|done]; repeat constructor; by eexists|done]].
  destruct (read_csv_cases path "vehicle_fleet.csv")
    as [(t4 & R4 & ->)|(N & e & -> & He)];
    [|right; exists "vehicle_fleet.csv", e; split;
       [exists (take 3 csv_files), (drop 4 csv_files);
        repeat split; [|done]; repeat constructor; by eexists|done]].
  destruct (read_csv_cases path "cost_breakdown.csv")
    as [(t5 & R5 & ->)|(N & e & -> & He)];
    [|right; exists "cost_breakdown.csv", e; split;
       [exists (take 4 csv_files), (drop 5 csv_files);
        repeat split; [|done]; repeat constructor; by eexists|done]].
  destruct (read_csv_cases path "warehouse_inventory.csv")
    as [(t6 & R6 & ->)|(N & e & -> & He)];
    [|right; exists "warehouse_inventory.csv", e; split;
       [exists (take 5 csv_files), (drop 6 csv_files);
        repeat split; [|done]; repeat constructor; by eexists|done]].
  destruct (read_csv_cases path "customer_feedback.csv")
    as [(t7 & R7 & ->)|(N & e & -> & He)];
    [|right; exists "customer_feedback.csv", e; split;
       [exists (take 6 csv_files), (drop 7 csv_files);
        repeat split; [|done]; repeat constructor; by eexists|done]].
  left. split; [|simpl; eauto]. repeat constructor; by eexists.
Qed.

Lemma first_unreadable_some path names name :
  first_unreadable files path names name -> In name names /\ ~ readable files path name.
Proof.
  intros (before & after & -> & _ & N). split; [|done].
  apply in_or_app. right. by left.
Qed.

End Loading.

(** X7: the load needs all seven files, the two unused ones included.  If
    any of the seven cannot be read, the load returns no table but an
    error; the error comes from the first file, in reading order, that
    cannot be read, and when it reports a file as not found, that file is
    the path of this first file and the folder does not have it. *)
Theorem missing_file_stops_the_load
    (files : string -> read_csv_result)
    (parse : Series -> datetimes) (total_seconds : resolution -> Z -> float)
    (mode : pandas_mode) (path name : string) :
  In name csv_files ->
  (forall df, files (path_join path name) <> CsvTable df) ->
  exists e first,
    load_and_prepare_data_at files parse total_seconds mode path = Ok (inl e)
    /\ first_unreadable files path csv_files first
    /\ (forall f, e = DataFileNotFound f ->
          f = path_join path first /\ files f = FileNotFoundError).
Proof.
  intros Hin Hno. unfold load_and_prepare_data_at.
  destruct (read_all_cases files path) as [[Hall _]|(first & e & Hfirst & -> & He)].
  - exfalso. rewrite Forall_forall in Hall.
    destruct (Hall name) as [df Hdf]; [by apply list_elem_of_In|].
    by apply (Hno df).
  - exists e, first. done.
Qed.

Lemma missing_file_stops_the_load_witness :
  load_and_prepare_data_at Sample2.folder_without_inventory
    Sample.parse Sample.total_seconds InPlace DATA_PATH
  = Ok (inl (DataFileNotFound "/content/NextGen_data/warehouse_inventory.csv")).
Proof.
  destruct (missing_file_stops_the_load Sample2.folder_without_inventory
              Sample.parse Sample.total_seconds InPlace DATA_PATH
              "warehouse_inventory.csv")
    as (e & first & He & _ & _).
  - simpl. tauto.
  - intros df H. vm_compute in H. discriminate H.
  - rewrite He. vm_compute in He. injection He as <-. reflexivity.
Defined.

Section Sidebar.




Lemma take_labels_all (idx : list nat) :
  map (fun i => nth i idx 0) (seq 0 (length idx)) = idx.
Proof.
  apply nth_ext with (d := 0) (d' := 0).
  - by rewrite length_map, length_seq.
  - intros i Hi. rewrite length_map, length_seq in Hi.
    rewrite (nth_indep _ 0 (nth 0 idx 0)) by (by rewrite length_map, length_seq).
    rewrite (map_nth (fun i => nth i idx 0)), seq_nth by done. done.
Qed.







Lemma isin_lookup values s i :
  isin values s !! i = Some true
  <-> exists c, s !! i = Some c /\ existsb (key_eqb c) values = true.
Proof.
  unfold isin. rewrite list_lookup_fmap. destruct (s !! i) as [c|]; simpl.
  - split; [intros [= H]; eauto|]. by intros (c' & [= <-] & ->).
  - split; [done|]. by intros (c' & ? & _).
Qed.

Lemma nonzero_no_true mask : (forall i, mask !! i <> Some true) -> nonzero mask = [].
Proof.
  intros H. apply nonzero_all_false. apply Forall_forall. intros b Hb.
  apply list_elem_of_lookup in Hb as [i Hi]. destruct b; [|done]. by destruct (H i).
Qed.

End Sidebar.

(** X8: the sidebar filter keeps exactly the rows of the master table whose
    product category is among the selected categories and whose priority
    is among the selected priorities, in the order of the master table; a
    missing value counts as selected when the selection holds a missing
    value.  With an empty selection in either widget the filtered table is
    empty. *)
Theorem sidebar_filter_rows category priority master categories priorities :
  getitem "product_category" master = Ok categories ->
  getitem "priority" master = Ok priorities ->
  exists idx,
    sidebar_filter category priority master = Ok (take_rows idx master)
    /\ StronglySorted lt idx
    /\ (forall i,
           In i idx
           <-> exists c p,
                 categories !! i = Some c /\ priorities !! i = Some p
                 /\ existsb (key_eqb c) category = true
                 /\ existsb (key_eqb p) priority = true)
    /\ (category = [] \/ priority = [] -> empty (take_rows idx master) = true).
Proof.
  intros Hc Hp.
  exists (nonzero (zip_with andb (isin category categories) (isin priority priorities))).
  assert (Hrows : forall i,
    zip_with andb (isin category categories) (isin priority priorities) !! i = Some true
    <-> exists c p,
          categories !! i = Some c /\ priorities !! i = Some p
          /\ existsb (key_eqb c) category = true
          /\ existsb (key_eqb p) priority = true).
  { intros i. rewrite lookup_zip_with. split.
    - intros H. destruct (isin category categories !! i) as [a|] eqn:Ea; [|done].
      destruct (isin priority priorities !! i) as [b|] eqn:Eb; [|done].
      simpl in H. injection H as H. apply andb_prop in H as [-> ->].
      apply isin_lookup in Ea as (c & ? & ?). apply isin_lookup in Eb as (p & ? & ?).
      eauto 10.
    - intros (c & p & H1 & H2 & H3 & H4).
      assert (Ea : isin category categories !! i = Some true)
        by (apply isin_lookup; eauto).
      assert (Eb : isin priority priorities !! i = Some true)
        by (apply isin_lookup; eauto).
      by rewrite Ea, Eb. }
  split; [|split; [|split]].
  - unfold sidebar_filter. rewrite Hc, Hp. reflexivity.
  - apply nonzero_from_sorted.
  - intros i. by rewrite nonzero_In, Hrows.
  - intros Hnone. rewrite nonzero_no_true.
    + reflexivity.
    + intros i Hi. apply Hrows in Hi as (c & p & _ & _ & H3 & H4).
      destruct Hnone as [-> | ->]; done.
Qed.

Lemma sidebar_filter_rows_witness :
  exists idx,
    sidebar_filter [Str "Electronics"] [Str "Express"; Str "Standard"] Sample2.master_small
    = Ok (take_rows idx Sample2.master_small)
    /\ StronglySorted lt idx.
Proof.
  destruct (sidebar_filter_rows [Str "Electronics"] [Str "Express"; Str "Standard"]
              Sample2.master_small
              [Str "Electronics"; NA; Str "Food & Beverage"]
              [Str "Express"; Str "Express"; Str "Standard"] eq_refl eq_refl)
    as (idx & H & Hs & _).
  exists idx. split; [exact H|exact Hs].
Defined.



Section Selection.

Lemma nonzero_from_first k mask i :
  mask !! i = Some true ->
  (forall j, j < i -> mask !! j <> Some true) ->
  exists rest, nonzero_from k mask = (k + i) :: rest.
Proof.
  revert k i. induction mask as [|b m IH]; intros k i Hi Hbefore; [done|].
  destruct i as [|i]; simpl in *.
  - injection Hi as ->. rewrite Nat.add_0_r. eauto.
  - destruct b; [by destruct (Hbefore 0 ltac:(lia))|].
    destruct (IH (S k) i Hi) as [rest Hrest].
    + intros j Hj. apply (Hbefore (S j)). lia.
    + exists rest. rewrite Hrest. f_equal. lia.
Qed.

Lemma iloc_take_rows i rest df : iloc 0 (take_rows (i :: rest) df) = iloc i df.
Proof.
  unfold iloc, take_rows. simpl. rewrite map_map. by apply map_ext.
Qed.

Lemma nrows_take_rows idx df : nrows (take_rows idx df) = length idx.
Proof. unfold nrows, take_rows. simpl. by rewrite length_map. Qed.

Lemma eqb_nan_r x y : is_nan x = true -> (y =? x)%float = false.
Proof.
  intros H. apply is_nan_eq in H as ->.
  rewrite FloatAxioms.eqb_spec. change (Prim2SF nan) with S754_nan.
  unfold SFeqb. by destruct (Prim2SF y).
Qed.

Lemma py_eq_missing c sel : isna sel = true -> py_eq c sel = false.
Proof.
  destruct sel as [x|s|t| ], c as [y|s'|t'| ]; simpl; try done.
  apply eqb_nan_r.
Qed.

End Selection.

(** X10: the order shown is the first row of the filtered table whose
    order_id equals the chosen one, so of several rows with the same
    order_id only the first can be reached; when no row has an equal
    order_id the lookup of the first row fails with an IndexError, and so it
    is whenever the chosen order_id is a missing value, which equals
    nothing. *)
Theorem select_order_first_match selected_order_id filtered_df order_ids :
  getitem "order_id" filtered_df = Ok order_ids ->
  (forall i c,
      order_ids !! i = Some c ->
      py_eq c selected_order_id = true ->
      (forall j d, j < i -> order_ids !! j = Some d -> py_eq d selected_order_id = false) ->
      select_order selected_order_id filtered_df = Ok (Selected (iloc i filtered_df)))
  /\ ((forall c, In c order_ids -> py_eq c selected_order_id = false) ->
      select_order selected_order_id filtered_df = Ok IndexError)
  /\ (isna selected_order_id = true ->
      select_order selected_order_id filtered_df = Ok IndexError).
Proof.
  intros Hids. unfold select_order. rewrite Hids. cbn [bind].
  assert (Hnone : (forall c, In c order_ids -> py_eq c selected_order_id = false) ->
    Ok (if Nat.eqb (nrows (boolean_index
                             (map (fun c => py_eq c selected_order_id) order_ids)
                             filtered_df)) 0
        then IndexError
        else Selected (iloc 0 (boolean_index
                                 (map (fun c => py_eq c selected_order_id) order_ids)
                                 filtered_df)))
    = Ok IndexError :> result selection).
  { intros H. unfold boolean_index. rewrite nonzero_all_false; [done|].
    apply Forall_fmap, Forall_forall. intros c Hc. simpl.
    apply H. by apply list_elem_of_In. }
  split; [|split].
  - intros i c Hi Hc Hfirst.
    destruct (nonzero_from_first 0 (map (fun c => py_eq c selected_order_id) order_ids) i)
      as [rest Hrest].
    + by rewrite list_lookup_fmap, Hi; simpl; rewrite Hc.
    + intros j Hj. rewrite list_lookup_fmap.
      destruct (order_ids !! j) as [d|] eqn:Ed; [|done]. simpl.
      by rewrite (Hfirst j d Hj Ed).
    + unfold boolean_index, nonzero.
      by rewrite Hrest, nrows_take_rows, iloc_take_rows.
  - exact Hnone.
  - intros Hna. apply Hnone. intros c _. by apply py_eq_missing.
Qed.

(** The first order appears twice in the table; the first of its rows is
    the one shown. *)
Lemma select_order_first_match_witness :
  select_order (Str "ORD1") Sample2.master_small
  = Ok (Selected (iloc 0 Sample2.master_small)).
Proof.
  apply (proj1 (select_order_first_match (Str "ORD1") Sample2.master_small
                  [Str "ORD1"; NA; Str "ORD1"] eq_refl) 0 (Str "ORD1")).
  - reflexivity.
  - reflexivity.
  - intros j d Hj. lia.
Defined.

Section ScoredFrame.

Lemma take_rows_wf idx df : wf_frame (take_rows idx df).
Proof.
  unfold wf_frame, take_rows, nrows. simpl.
  apply Forall_fmap, Forall_forall. intros [c s] _. simpl.
  unfold take_series. by rewrite !length_map.
Qed.

Lemma getitem_take_rows col idx df :
  getitem col (take_rows idx df)
  = match getitem col df with
    | Ok s => Ok (take_series idx s)
    | Raise e => Raise e
    end.
Proof.
  unfold getitem, take_rows. simpl. rewrite assoc_map_snd.
  by destruct (assoc col (columns df)).
Qed.

Lemma floats_length col df xs :
  wf_frame df -> floats col df = Ok xs -> length xs = nrows df.
Proof.
  intros Hwf H. unfold floats in H. apply bind_ok in H as (s & Hs & H).
  apply mapM_length in H. rewrite H. by eapply column_length.
Qed.

Lemma length_nums l : length (nums l) = length l.
Proof. unfold nums. apply length_map. Qed.

Lemma predict_inv order suitable predicted :
  predict order suitable = Ok predicted ->
  exists speed time cost co2,
    predicted
    = setitem "predicted_co2_kg" (nums co2)
        (setitem "predicted_cost" (nums cost)
           (setitem "predicted_time_hours" (nums time)
              (setitem "avg_speed_kmh" (nums speed) suitable)))
    /\ (wf_frame suitable ->
        length speed = nrows suitable /\ length time = nrows suitable
        /\ length cost = nrows suitable /\ length co2 = nrows suitable).
Proof.
  unfold predict. intros H.
  apply bind_ok in H as (distance & _ & H).
  apply bind_ok in H as (traffic & _ & H).
  apply bind_ok in H as (tolls & _ & H).
  apply bind_ok in H as (v_types & Hv & H).
  apply bind_ok in H as (speed & Hs & H).
  apply bind_ok in H as (eff & He & H).
  apply bind_ok in H as (time & Ht & H).
  apply bind_ok in H as (co2 & Hc & H).
  injection H as <-.
  rewrite floats_setitem_eq in Hs. injection Hs as <-.
  rewrite floats_setitem_eq in Ht. injection Ht as <-.
  rewrite !floats_setitem_ne in He by done.
  rewrite !floats_setitem_ne in Hc by done.
  eexists _, _, _, _. split; [reflexivity|].
  intros Hwf.
  pose proof (column_length _ _ _ Hwf Hv) as Lv.
  pose proof (floats_length _ _ _ Hwf He) as Le.
  pose proof (floats_length _ _ _ Hwf Hc) as Lc.
  rewrite length_zip_with, !length_map. lia.
Qed.

Lemma length_broadcast n col : length col = n -> length (broadcast n (normalize col)) = n.
Proof.
  intros H. unfold normalize.
  destruct (0 <? series_max col - series_min col)%float; simpl.
  - by rewrite length_map.
  - by rewrite repeat_length.
Qed.

Lemma length_zip3_with {A B C D} (f : A -> B -> C -> D) n la lb lc :
  length la = n -> length lb = n -> length lc = n -> length (zip3_with f la lb lc) = n.
Proof.
  revert la lb lc. induction n as [|n IH]; intros [|a la] [|b lb] [|c lc]; simpl;
    try done.
  intros [= Ha] [= Hb] [= Hc]. f_equal. by apply IH.
Qed.

Lemma score_inv weights predicted scored :
  score weights predicted = Ok scored ->
  exists norm_cost norm_time norm_co2 total,
    scored
    = setitem "optimization_score" (nums total)
        (setitem "norm_co2" (nums norm_co2)
           (setitem "norm_time" (nums norm_time)
              (setitem "norm_cost" (nums norm_cost) predicted)))
    /\ (wf_frame predicted ->
        length norm_cost = nrows predicted /\ length norm_time = nrows predicted
        /\ length norm_co2 = nrows predicted /\ length total = nrows predicted).
Proof.
  unfold score. destruct weights as [[wc wt] wco]. intros H.
  apply bind_ok in H as (cost & Hc & H).
  apply bind_ok in H as (time & Ht & H).
  apply bind_ok in H as (co2 & Hco & H).
  apply bind_ok in H as (ncost & Hnc & H).
  apply bind_ok in H as (ntime & Hnt & H).
  apply bind_ok in H as (nco2 & Hnco & H).
  injection H as <-.
  rewrite !floats_setitem_ne in Ht by done.
  rewrite !floats_setitem_ne in Hco by done.
  rewrite !(floats_setitem_ne "norm_co2") in Hnc by done.
  rewrite !(floats_setitem_ne "norm_time") in Hnc by done.
  rewrite floats_setitem_eq in Hnc. injection Hnc as <-.
  rewrite !(floats_setitem_ne "norm_co2") in Hnt by done.
  rewrite floats_setitem_eq in Hnt. injection Hnt as <-.
  rewrite floats_setitem_eq in Hnco. injection Hnco as <-.
  eexists _, _, _, _. split; [reflexivity|].
  intros Hwf.
  pose proof (length_broadcast _ _ (floats_length _ _ _ Hwf Hc)) as L1.
  pose proof (length_broadcast _ _ (floats_length _ _ _ Hwf Ht)) as L2.
  pose proof (length_broadcast _ _ (floats_length _ _ _ Hwf Hco)) as L3.
  repeat split; try done. by apply length_zip3_with.
Qed.

Lemma has_column_setitem c k s df :
  has_column c (setitem k s df) = has_column c df || String.eqb c k.
Proof.
  unfold has_column, column_names, mem_string, setitem. simpl.
  induction (columns df) as [|[k' v'] t IH]; simpl.
  - by rewrite orb_false_r.
  - destruct (String.eqb k' k) eqn:E; simpl.
    + apply String.eqb_eq in E. subst k'.
      destruct (String.eqb c k); simpl; [done|]. by rewrite orb_false_r.
    + rewrite IH. by rewrite orb_assoc.
Qed.

Lemma has_column_take_rows c idx df : has_column c (take_rows idx df) = has_column c df.
Proof.
  unfold has_column, column_names, take_rows. simpl. by rewrite map_map.
Qed.

Lemma not_computed col :
  ~ In col computed_columns ->
  col <> "avg_speed_kmh" /\ col <> "predicted_time_hours" /\ col <> "predicted_cost"
  /\ col <> "predicted_co2_kg" /\ col <> "norm_cost" /\ col <> "norm_time"
  /\ col <> "norm_co2" /\ col <> "optimization_score".
Proof. simpl. intros H. repeat split; intros ->; apply H; tauto. Qed.

(** What [score_candidates] hands to the sort. *)
Lemma scored_frame order weights fleet scored :
  score_candidates order weights fleet = Ok (inr scored) ->
  exists idx,
    candidates order fleet = Ok (take_rows idx fleet)
    /\ StronglySorted lt idx
    /\ idx <> []
    /\ index scored = index (take_rows idx fleet)
    /\ (forall col, ~ In col computed_columns ->
                    getitem col scored = getitem col (take_rows idx fleet))
    /\ (forall col, has_column col scored
                    = has_column col fleet || mem_string col computed_columns)
    /\ wf_frame scored
    /\ (forall col, In col computed_columns ->
          exists xs, floats col scored = Ok xs /\ length xs = nrows scored).
Proof.
  intros H.
  apply score_candidates_scored in H
    as (perishable & suitable & predicted & Hp & Hs & Hne & _ & Hpr & Hsc).
  unfold suitable_vehicles in Hs. apply bind_ok in Hs as (v_types & Hv & Hs).
  injection Hs as <-. unfold boolean_index in *.
  set (idx := nonzero (map (eligible perishable) v_types)) in *.
  pose proof (take_rows_wf idx fleet) as Hwf0.
  apply predict_inv in Hpr as (speed & time & cost & co2 & -> & Lp).
  destruct (Lp Hwf0) as (L1 & L2 & L3 & L4).
  assert (Hwf1 : wf_frame
    (setitem "predicted_co2_kg" (nums co2)
       (setitem "predicted_cost" (nums cost)
          (setitem "predicted_time_hours" (nums time)
             (setitem "avg_speed_kmh" (nums speed) (take_rows idx fleet)))))).
  { repeat apply wf_setitem; try done; by rewrite length_nums. }
  apply score_inv in Hsc as (nc & nt & nco & total & -> & Ls).
  destruct (Ls Hwf1) as (M1 & M2 & M3 & M4).
  rewrite !nrows_setitem in M1, M2, M3, M4.
  exists idx. split; [unfold candidates, suitable_vehicles; by rewrite Hp; cbn [bind]; rewrite Hv|].
  split; [apply nonzero_from_sorted|]. split; [|split; [done|]].
  { intros E. unfold empty in Hne. rewrite nrows_take_rows, E in Hne. done. }
  split; [|split; [|split]].
  - intros col Hcol. apply not_computed in Hcol as (?&?&?&?&?&?&?&?).
    by rewrite !getitem_setitem_ne by done.
  - intros col. rewrite !has_column_setitem, has_column_take_rows.
    unfold computed_columns, mem_string. simpl.
    destruct (has_column col fleet); simpl; [done|].
    destruct (String.eqb col "avg_speed_kmh"), (String.eqb col "predicted_time_hours"),
      (String.eqb col "predicted_cost"), (String.eqb col "predicted_co2_kg"),
      (String.eqb col "norm_cost"), (String.eqb col "norm_time"),
      (String.eqb col "norm_co2"), (String.eqb col "optimization_score"); done.
  - repeat apply wf_setitem; try done; by rewrite length_nums.
  - intros col Hcol. simpl in Hcol. rewrite !nrows_setitem.
    repeat (destruct Hcol as [<-|Hcol];
            [rewrite ?(floats_setitem_ne "optimization_score"),
                     ?(floats_setitem_ne "norm_co2"),
                     ?(floats_setitem_ne "norm_time"),
                     ?(floats_setitem_ne "norm_cost"),
                     ?(floats_setitem_ne "predicted_co2_kg"),
                     ?(floats_setitem_ne "predicted_cost"),
                     ?(floats_setitem_ne "predicted_time_hours") by done;
             rewrite floats_setitem_eq; eauto|]).
    done.
Qed.

End ScoredFrame.

Section Unchecked.

Lemma predict_reads order suitable predicted :
  predict order suitable = Ok predicted ->
  exists distance traffic tolls v_types eff co2,
    row_get "distance_km" order = Ok (Num distance)
    /\ row_get "traffic_delays_hours" order = Ok (Num traffic)
    /\ row_get "toll_charges" order = Ok (Num tolls)
    /\ getitem "vehicle_type" suitable = Ok v_types
    /\ floats "fuel_efficiency_km_per_l" suitable = Ok eff
    /\ floats "co2_emissions_kg_per_km" suitable = Ok co2.
Proof.
  unfold predict. intros H.
  apply bind_ok in H as (distance & Hd & H). apply bind_ok in H as (traffic & Ht & H).
  apply bind_ok in H as (tolls & Hto & H). apply bind_ok in H as (v_types & Hv & H).
  apply bind_ok in H as (speed & _ & H). apply bind_ok in H as (eff & He & H).
  apply bind_ok in H as (time & _ & H). apply bind_ok in H as (co2 & Hc & _).
  rewrite !floats_setitem_ne in He by done. rewrite !floats_setitem_ne in Hc by done.
  assert (Hnum : forall col x, bind (row_get col order) as_float = Ok x ->
                               row_get col order = Ok (Num x)).
  { intros col x E. apply bind_ok in E as (c & -> & E).
    destruct c; try done. by injection E as ->. }
  exists distance, traffic, tolls, v_types, eff, co2. auto 10.
Qed.

(** The request is scored whatever numbers the fuel-efficiency column
    holds. *)
Lemma score_candidates_any_efficiency order weights fleet scored eff :
  score_candidates order weights fleet = Ok (inr scored) ->
  exists scored',
    score_candidates order weights (setitem "fuel_efficiency_km_per_l" (nums eff) fleet)
    = Ok (inr scored').
Proof.
  intros H.
  apply score_candidates_scored in H
    as (perishable & suitable & predicted & Hp & Hs & He & Hc & Hpr & _).
  set (fleet' := setitem "fuel_efficiency_km_per_l" (nums eff) fleet).
  unfold suitable_vehicles in Hs. apply bind_ok in Hs as (types & Hty & Hs).
  injection Hs as <-. set (mask := map (eligible perishable) types) in *.
  destruct (predict_reads _ _ _ Hpr)
    as (distance & traffic & tolls & v_types & eff0 & co2 & Hd & Ht & Hto & Hv & _ & Hco).
  assert (Hs' : suitable_vehicles perishable fleet' = Ok (boolean_index mask fleet')).
  { unfold suitable_vehicles, fleet'. by rewrite getitem_setitem_ne, Hty by done. }
  assert (He' : empty (boolean_index mask fleet') = false).
  { unfold empty, boolean_index in *. rewrite nrows_take_rows in *.
    apply orb_false_elim in He as [He _]. rewrite He. simpl.
    unfold take_rows, fleet', setitem. cbn [columns]. rewrite length_map.
    by destruct (columns fleet) as [|[c s] t]; simpl; [|destruct (String.eqb c _)]. }
  assert (Hc' : forallb (fun col => has_column col fleet') required_fleet_cols = true).
  { rewrite forallb_forall in Hc. apply forallb_forall. intros col Hin.
    unfold fleet'. by rewrite has_column_setitem, (Hc col Hin). }
  assert (Hv' : getitem "vehicle_type" (boolean_index mask fleet') = Ok v_types).
  { unfold boolean_index, fleet' in *. rewrite getitem_take_rows in *.
    by rewrite getitem_setitem_ne by done. }
  assert (Heff : exists eff', floats "fuel_efficiency_km_per_l" (boolean_index mask fleet')
                              = Ok eff').
  { eexists. unfold boolean_index. apply floats_take_rows.
    unfold fleet'. apply floats_setitem_eq. }
  destruct Heff as [eff' Heff].
  assert (Hco' : floats "co2_emissions_kg_per_km" (boolean_index mask fleet') = Ok co2).
  { unfold floats, boolean_index, fleet' in *. rewrite getitem_take_rows in *.
    by rewrite getitem_setitem_ne by done. }
  destruct (predict_columns order _ _ _ _ _ _ _ Hd Ht Hto Hv' Heff Hco')
    as (predicted' & Hpr' & _ & Htime & Hcost & Hco2).
  destruct (score_norm_columns weights _ _ _ _ Hcost Htime Hco2) as (scored' & Hsc' & _).
  exists scored'. unfold score_candidates.
  rewrite Hp. cbn [bind]. rewrite Hs'. cbn [bind]. rewrite He', Hc'. cbn [negb].
  rewrite Hpr'. cbn [bind]. by rewrite Hsc'.
Qed.

End Unchecked.

(** C6, as the code has it: avg_speed_kmh is 60, 45 or 50 for every vehicle
    and so never zero.  The one check before the predictor is on the columns
    of the fleet table, and it is made when the candidate filter has left a
    vehicle: when fuel_efficiency_km_per_l, co2_emissions_kg_per_km or
    capacity_kg is absent the request ends with the missing-columns signal,
    which lists the expected and the found columns, and nothing is
    predicted.  An absent vehicle_type column is not reported: the candidate
    filter reads it first and raises [KeyError].  With no candidate the
    request ends with the no-vehicle signal, whatever the columns.  The
    candidates are scored only when the four columns are there; the value of
    fuel_efficiency_km_per_l is not looked at: a request that is scored is
    scored whatever numbers that column holds. *)
Theorem predictor_guards :
  (forall v_type,
      (get_speed v_type = 60%float \/ get_speed v_type = 45%float
       \/ get_speed v_type = 50%float)
      /\ (get_speed v_type =? 0)%float = false)
  /\ (forall order weights fleet scored,
         score_candidates order weights fleet = Ok (inr scored) ->
         Forall (fun col => has_column col fleet = true) required_fleet_cols)
  /\ (forall order weights fleet perishable suitable,
         is_perishable order = Ok perishable ->
         suitable_vehicles perishable fleet = Ok suitable ->
         empty suitable = false ->
         (exists col,
             In col ["fuel_efficiency_km_per_l"; "co2_emissions_kg_per_km"; "capacity_kg"]
             /\ has_column col fleet = false) ->
         score_candidates order weights fleet
         = Ok (inl (MissingFleetColumns required_fleet_cols (column_names fleet))))
  /\ (forall order weights fleet perishable,
         is_perishable order = Ok perishable ->
         has_column "vehicle_type" fleet = false ->
         score_candidates order weights fleet = Raise (KeyError "vehicle_type"))
  /\ (forall order weights fleet perishable suitable,
         is_perishable order = Ok perishable ->
         suitable_vehicles perishable fleet = Ok suitable ->
         empty suitable = true ->
         score_candidates order weights fleet
         = Ok (inl (NoSuitableVehicles (if perishable then "Refrigerated" else "Standard"))))
  /\ (forall order weights fleet scored efficiency,
         score_candidates order weights fleet = Ok (inr scored) ->
         length efficiency = nrows fleet ->
         exists scored',
           score_candidates order weights
             (setitem "fuel_efficiency_km_per_l" (nums efficiency) fleet)
           = Ok (inr scored')).
Proof.
  split; [|split; [|split; [|split; [|split]]]].
  - intros v_type. split; [apply get_speed_values|].
    destruct (get_speed_values v_type) as [->|[->| ->]]; reflexivity.
  - intros order weights fleet scored H.
    apply score_candidates_scored in H as (p & s & pr & _ & _ & _ & Hc & _).
    apply Forall_forall. intros col Hin. apply list_elem_of_In in Hin.
    rewrite forallb_forall in Hc. by apply Hc.
  - intros order weights fleet perishable suitable Hp Hs He (col & Hin & Hc).
    unfold score_candidates. rewrite Hp. cbn [bind]. rewrite Hs. cbn [bind]. rewrite He.
    assert (Hf : forallb (fun col => has_column col fleet) required_fleet_cols = false).
    { destruct (forallb _ required_fleet_cols) eqn:E; [|done].
      rewrite forallb_forall in E. specialize (E col). rewrite Hc in E.
      symmetry. apply E. simpl in *. tauto. }
    by rewrite Hf.
  - intros order weights fleet perishable Hp Hv.
    unfold score_candidates. rewrite Hp. cbn [bind]. unfold suitable_vehicles.
    destruct (getitem_cases "vehicle_type" fleet) as [(s & _ & Hyes)|[-> _]];
      [congruence|done].
  - intros order weights fleet perishable suitable Hp Hs He.
    unfold score_candidates. rewrite Hp. cbn [bind]. rewrite Hs. cbn [bind]. by rewrite He.
  - intros order weights fleet scored efficiency H _.
    by eapply score_candidates_any_efficiency.
Qed.

(** A fleet table without the capacity column. *)
Lemma predictor_guards_witness :
  score_candidates Sample.order100 Sample.sliders Sample.fleet_no_capacity
  = Ok (inl (MissingFleetColumns required_fleet_cols
               ["vehicle_id"; "vehicle_type"; "fuel_efficiency_km_per_l";
                "co2_emissions_kg_per_km"])).
Proof.
  apply (proj1 (proj2 (proj2 predictor_guards)) Sample.order100 Sample.sliders
           Sample.fleet_no_capacity false (take_rows [0] Sample.fleet_no_capacity)).
  - reflexivity.
  - reflexivity.
  - reflexivity.
  - exists "capacity_kg". split; [simpl; tauto|reflexivity].
Defined.

(** A van whose fuel efficiency is 0 is scored like any other: nothing is
    reported, and its predicted cost is infinite. *)
Lemma zero_efficiency_unguarded :
  score_candidates Sample.order100 Sample.sliders Sample.van_zero_efficiency
  = Ok (inr Sample.zero_efficiency_scored)
  /\ floats "fuel_efficiency_km_per_l" Sample.zero_efficiency_scored = Ok [0%float]
  /\ floats "predicted_cost" Sample.zero_efficiency_scored = Ok [infinity]
  /\ exists best ranked,
      optimize Sample.order100 0.5 0.3 0.2 Sample.van_zero_efficiency
        (Recommended best ranked)
      /\ floats "predicted_cost" ranked = Ok [infinity].
Proof.
  split; [vm_compute; reflexivity|].
  split; [vm_compute; reflexivity|].
  split; [vm_compute; reflexivity|].
  exists (iloc 0 (take_rows [0] Sample.zero_efficiency_scored)),
    (take_rows [0] Sample.zero_efficiency_scored).
  split; [|vm_compute; reflexivity].
  apply optimize_ranked with (scored := Sample.zero_efficiency_scored).
  - vm_compute. reflexivity.
  - exists [0%float], [0]. split; [vm_compute; reflexivity|].
    split; [reflexivity|]. split; [|reflexivity].
    intros i j x y Hij Hi Hj.
    destruct i as [|i]; destruct j as [|j]; simpl in *; try lia; discriminate.
Qed.

Section RankedFrame.

Lemma take_series_compose (idx idx2 : list nat) (s : Series) :
  Forall (fun i => i < length idx) idx2 ->
  take_series idx2 (take_series idx s)
  = take_series (map (fun i => nth i idx 0) idx2) s.
Proof.
  intros H. unfold take_series. rewrite (map_map (fun i => nth i idx 0)).
  apply map_ext_in. intros i Hi. rewrite Forall_forall in H.
  apply list_elem_of_In, H in Hi.
  rewrite (nth_indep _ NA (nth 0 s NA)) by (by rewrite length_map).
  by rewrite (map_nth (fun i => nth i s NA)).
Qed.

Lemma take_labels_compose (idx idx2 : list nat) (labels : list nat) :
  Forall (fun i => i < length idx) idx2 ->
  map (fun i => nth i (map (fun j => nth j labels 0) idx) 0) idx2
  = map (fun j => nth j labels 0) (map (fun i => nth i idx 0) idx2).
Proof.
  intros H. rewrite (map_map (fun i => nth i idx 0)).
  apply map_ext_in. intros i Hi.
  rewrite Forall_forall in H. apply list_elem_of_In, H in Hi.
  rewrite (nth_indep _ 0 (nth 0 labels 0)) by (by rewrite length_map).
  by rewrite (map_nth (fun j => nth j labels 0)).
Qed.

Lemma perm_seq_in_range idx n :
  Permutation idx (seq 0 n) -> Forall (fun i => i < n) idx.
Proof.
  intros H. apply Forall_forall. intros i Hi.
  apply list_elem_of_In in Hi. apply (Permutation_in _ H), in_seq in Hi. lia.
Qed.

Lemma sort_values_inv key df out :
  sort_values key df out ->
  exists keys idx,
    floats key df = Ok keys
    /\ Permutation idx (seq 0 (nrows df))
    /\ Forall (fun i => i < nrows df) idx
    /\ ascending_na_last (map (fun i => nth i keys nan) idx)
    /\ out = take_rows idx df.
Proof.
  intros (keys & idx & Hk & Hp & Ha & ->). exists keys, idx.
  repeat split; try done. by apply perm_seq_in_range.
Qed.

End RankedFrame.

(** X11: the ranked table lists every eligible vehicle exactly once and
    leaves the fleet's data alone.  Its rows are a rearrangement of the
    candidate rows of the fleet and carry their labels; every column other
    than the eight computed ones holds, row by row, what the fleet table
    holds; every column has one entry per row; and each of the eight
    computed columns is present and holds a number on every row. *)
Theorem ranking_keeps_fleet_rows order wc wt wco fleet best ranked :
  optimize order wc wt wco fleet (Recommended best ranked) ->
  exists eligible_rows rows,
    candidates order fleet = Ok (take_rows eligible_rows fleet)
    /\ Permutation rows eligible_rows
    /\ index ranked = index (take_rows rows fleet)
    /\ (forall col, ~ In col computed_columns ->
                    getitem col ranked = getitem col (take_rows rows fleet))
    /\ wf_frame ranked
    /\ (forall col, In col computed_columns ->
          exists xs, floats col ranked = Ok xs /\ length xs = nrows ranked).
Proof.
  intros H. inversion H as [|scored ranked' Hsc Hsort]; subst. clear H.
  destruct (scored_frame _ _ _ _ Hsc)
    as (idx & Hcand & Hsorted & Hne & Hi & Hrest & _ & Hwf & Hcomp).
  apply sort_values_inv in Hsort as (keys & idx2 & Hk & Hperm & Hrange & _ & ->).
  assert (Hn : nrows scored = length idx).
  { unfold nrows at 1. rewrite Hi. simpl. by rewrite length_map. }
  rewrite Hn in Hperm, Hrange.
  exists idx, (map (fun i => nth i idx 0) idx2).
  split; [done|]. split; [|split; [|split; [|split]]].
  - apply (Permutation_map (fun i => nth i idx 0)) in Hperm.
    by rewrite take_labels_all in Hperm.
  - unfold take_rows at 1. cbn [index]. rewrite Hi. unfold take_rows. cbn [index].
    by apply take_labels_compose.
  - intros col Hcol. rewrite getitem_take_rows, (Hrest col Hcol), !getitem_take_rows.
    destruct (getitem col fleet) as [s|e]; [|done].
    by rewrite take_series_compose.
  - apply take_rows_wf.
  - intros col Hcol. destruct (Hcomp col Hcol) as (xs & Hxs & _).
    rewrite (floats_take_rows _ idx2 _ _ Hxs). eexists. split; [done|].
    by rewrite length_map, nrows_take_rows.
Qed.

Lemma ranking_keeps_fleet_rows_witness :
  exists ranked eligible_rows rows,
    optimize Sample.order100 0.5 0.3 0.2 Sample.two_vans
      (Recommended (iloc 0 ranked) ranked)
    /\ candidates Sample.order100 Sample.two_vans
       = Ok (take_rows eligible_rows Sample.two_vans)
    /\ Permutation rows eligible_rows
    /\ getitem "vehicle_id" ranked
       = getitem "vehicle_id" (take_rows rows Sample.two_vans).
Proof.
  assert (Hsc : score_candidates Sample.order100 (normalize_weights 0.5 0.3 0.2)
                  Sample.two_vans = Ok (inr Sample.two_vans_scored)).
  { vm_compute. reflexivity. }
  assert (Hopt : optimize Sample.order100 0.5 0.3 0.2 Sample.two_vans
                   (Recommended
                      (iloc 0 (take_rows (argsort_stable [0%float; 0%float] 2)
                                 Sample.two_vans_scored))
                      (take_rows (argsort_stable [0%float; 0%float] 2)
                         Sample.two_vans_scored))).
  { eapply optimize_ranked; [exact Hsc|].
    apply (sort_values_has_result "optimization_score" Sample.two_vans_scored
             [0%float; 0%float]).
    vm_compute. reflexivity. }
  destruct (ranking_keeps_fleet_rows _ _ _ _ _ _ _ Hopt)
    as (eligible_rows & rows & Hc & Hperm & _ & Hrest & _).
  eexists _, eligible_rows, rows.
  split; [exact Hopt|]. split; [exact Hc|]. split; [exact Hperm|].
  apply Hrest. simpl. intros H.
  repeat (destruct H as [H|H]; [discriminate H|]). exact H.
Defined.

(** X12: the recommended vehicle has the least optimisation score of all
    candidates.  The score read from the recommended row is one of the
    scores of the scored candidates, and it comes before or ties with every
    one of them in the order of the sort (ascending, missing scores last). *)
Theorem recommended_vehicle_has_least_score order wc wt wco fleet best ranked :
  optimize order wc wt wco fleet (Recommended best ranked) ->
  exists scored scores b,
    score_candidates order (normalize_weights wc wt wco) fleet = Ok (inr scored)
    /\ floats "optimization_score" scored = Ok scores
    /\ length scores = nrows scored
    /\ bind (row_get "optimization_score" best) as_float = Ok b
    /\ In b scores
    /\ (forall x, In x scores -> score_le b x = true).
Proof.
  intros H. inversion H as [|scored ranked' Hsc Hsort]; subst. clear H.
  destruct (scored_frame _ _ _ _ Hsc)
    as (idx & _ & _ & Hne & Hi & _ & _ & Hwf & _).
  apply sort_values_inv in Hsort as (keys & idx2 & Hk & Hperm & Hrange & Hasc & ->).
  pose proof (floats_length _ _ _ Hwf Hk) as Hlen.
  assert (Hn : nrows scored <> 0).
  { unfold nrows. rewrite Hi. simpl. rewrite length_map. by destruct idx. }
  destruct idx2 as [|i0 rest].
  { apply Permutation_length in Hperm. rewrite length_seq in Hperm. simpl in Hperm. lia. }
  assert (Hi0 : i0 < length keys).
  { rewrite Hlen. by inversion Hrange. }
  exists scored, keys, (nth i0 keys nan).
  split; [done|]. split; [done|]. split; [done|]. split; [|split].
  - rewrite iloc_take_rows. unfold floats in Hk. apply bind_ok in Hk as (s & Hs & Hm).
    rewrite (row_get_iloc _ i0 _ _ Hs). simpl. by apply as_float_nth.
  - by apply nth_In.
  - intros x Hx. apply In_nth with (d := nan) in Hx as (j & Hj & <-).
    assert (Hin : In j (i0 :: rest)).
    { apply (Permutation_in _ (Permutation_sym Hperm)), in_seq. lia. }
    destruct Hin as [<-|Hin]; [apply score_le_refl|].
    apply list_elem_of_In, list_elem_of_lookup in Hin as [p Hp].
    apply (Hasc 0 (S p)); [lia|done|].
    simpl. by rewrite list_lookup_fmap, Hp.
Qed.

Lemma recommended_vehicle_has_least_score_witness :
  exists ranked b,
    optimize Sample.order100 0.5 0.3 0.2 Sample.mixed_fleet
      (Recommended (iloc 0 ranked) ranked)
    /\ bind (row_get "optimization_score" (iloc 0 ranked)) as_float = Ok b.
Proof.
  destruct (score_candidates Sample.order100 (normalize_weights 0.5 0.3 0.2)
              Sample.mixed_fleet) as [[s|scored]|e] eqn:Hsc;
    try (vm_compute in Hsc; discriminate Hsc).
  destruct (score_candidates_has_score _ _ _ _ Hsc) as [scores Hs].
  pose proof (optimize_ranked Sample.order100 0.5 0.3 0.2 Sample.mixed_fleet scored _ Hsc
                (sort_values_has_result "optimization_score" scored scores Hs)) as Hopt.
  destruct (recommended_vehicle_has_least_score _ _ _ _ _ _ _ Hopt)
    as (scored' & scores' & b & _ & _ & _ & Hb & _).
  eexists _, b. split; [exact Hopt|exact Hb].
Defined.

Section Display.




End Display.



Section Weights.

Local Open Scope float_scope.

Lemma ltb_zero_positive t :
  (0 <? t) = true ->
  Prim2SF t = S754_infinity false \/ exists m e, Prim2SF t = S754_finite false m e.
Proof.
  rewrite FloatAxioms.ltb_spec. change (Prim2SF 0) with (S754_zero false).
  unfold SFltb. destruct (Prim2SF t) as [s|s| |s m e]; simpl; try done.
  - destruct s; [done|]. by left.
  - destruct s; [done|]. right. eauto.
Qed.

Lemma div_by_positive_not_nan x t :
  is_finite x = true -> (0 <? t) = true -> is_nan (x / t) = false.
Proof.
  intros Hx Ht. apply ltb_zero_positive in Ht as [Ht|(m & e & Ht)].
  - apply is_nan_false_Prim2SF. rewrite div_spec, Ht.
    apply is_finite_Prim2SF in Hx. by destruct (Prim2SF x).
  - apply (div_not_nan x t false m e Ht).
    apply is_nan_false_Prim2SF. apply is_finite_Prim2SF in Hx.
    by destruct (Prim2SF x).
Qed.

Lemma binary_round_aux_sign s m e l :
  match binary_round_aux prec emax s m e l with
  | S754_zero s' | S754_infinity s' | S754_finite s' _ _ => s' = s
  | S754_nan => True
  end.
Proof.
  unfold binary_round_aux.
  destruct (shr_fexp prec emax m e l) as [mrs' e'].
  destruct (shr_fexp prec emax _ e' loc_Exact) as [mrs'' e''].
  destruct (shr_m mrs''); [done| |done].
  by destruct (e'' <=? emax - prec)%Z.
Qed.

Lemma leb_zero_cases r :
  match r with
  | S754_zero _ => True
  | S754_infinity s | S754_finite s _ _ => s = false
  | S754_nan => False
  end ->
  SFleb (S754_zero false) r = true.
Proof. destruct r as [s|s| |s m e]; try done; by intros ->. Qed.

Lemma div_by_positive_nonneg x t :
  is_finite x = true -> (0 <=? x) = true -> (0 <? t) = true -> (0 <=? x / t) = true.
Proof.
  intros Hf Hx Ht.
  pose proof (div_by_positive_not_nan x t Hf Ht) as Hn.
  apply is_nan_false_Prim2SF in Hn. rewrite div_spec in Hn.
  rewrite FloatAxioms.leb_spec in *. rewrite div_spec.
  change (Prim2SF 0) with (S754_zero false) in *.
  apply leb_zero_cases.
  apply ltb_zero_positive in Ht as [Ht|(m & e & Ht)]; rewrite Ht in *.
  - apply is_finite_Prim2SF in Hf. by destruct (Prim2SF x).
  - apply is_finite_Prim2SF in Hf.
    destruct (Prim2SF x) as [s|s| |s mx ex]; try done.
    destruct s; [done|]. unfold SF64div, SFdiv in *.
    destruct (SFdiv_core_binary prec emax (Z.pos mx) ex (Z.pos m) e) as [[mz ez] lz].
    pose proof (binary_round_aux_sign (xorb false false) mz ez lz) as Hs.
    destruct (binary_round_aux prec emax (xorb false false) mz ez lz); done.
Qed.

End Weights.

(** X14: for sliders that are finite and not negative, each of the three
    normalised weights is a number (not NaN) and not negative; when the
    sum of the sliders is not positive, each weight is 1/3. *)
Theorem weights_are_numbers (weight_cost weight_time weight_co2 : float) :
  is_finite weight_cost = true /\ (0 <=? weight_cost)%float = true ->
  is_finite weight_time = true /\ (0 <=? weight_time)%float = true ->
  is_finite weight_co2 = true /\ (0 <=? weight_co2)%float = true ->
  let '(wc, wt, wco) := normalize_weights weight_cost weight_time weight_co2 in
  (is_nan wc = false /\ is_nan wt = false /\ is_nan wco = false)
  /\ ((0 <=? wc)%float = true /\ (0 <=? wt)%float = true /\ (0 <=? wco)%float = true)
  /\ ((0 <? weight_cost + weight_time + weight_co2)%float = false ->
      wc = (1 / 3)%float /\ wt = (1 / 3)%float /\ wco = (1 / 3)%float).
Proof.
  intros [Fc Pc] [Ft Pt] [Fco Pco]. unfold normalize_weights.
  destruct (0 <? weight_cost + weight_time + weight_co2)%float eqn:E.
  - split; [|split; [|done]].
    + repeat split; by apply div_by_positive_not_nan.
    + repeat split; by apply div_by_positive_nonneg.
  - repeat split; reflexivity.
Qed.

Lemma weights_are_numbers_witness :
  is_nan (fst (fst (normalize_weights 0.5 0.3 0.2))) = false.
Proof.
  pose proof (weights_are_numbers 0.5 0.3 0.2 (conj eq_refl eq_refl)
                (conj eq_refl eq_refl) (conj eq_refl eq_refl)) as H.
  destruct (normalize_weights 0.5 0.3 0.2) as [[wc wt] wco]. exact (proj1 (proj1 H)).
Defined.

Section Timestamps.


Variable parse : Series -> datetimes.
Variable total_seconds : resolution -> Z -> float.






End Timestamps.



Section OrderCard.


End OrderCard.



Section CleanShape.

Import ColNames.

Lemma lstrip_head s c t : lstrip s = String c t -> is_underscore c = false.
Proof.
  induction s as [|d u IH]; simpl; [done|].
  destruct (is_underscore d) eqn:E; [done|]. by intros [= <- _].
Qed.

Lemma rstrip_no_trailing s t : rstrip s <> t ++ "_".
Proof.
  revert t. induction s as [|c u IH]; intros t; simpl.
  - by destruct t.
  - destruct (rstrip u) as [|d v] eqn:E.
    + destruct (is_underscore c) eqn:Ec; [by destruct t|].
      destruct t as [|a [|b t]]; simpl; try done.
      intros [= ->]. done.
    + destruct t as [|a t]; simpl; [done|].
      intros [= _ H]. by apply (IH t).
Qed.

Lemma strip_no_leading s t : strip s <> String "_" t.
Proof.
  unfold strip. intros H.
  destruct (lstrip s) as [|c u] eqn:E; [done|].
  apply lstrip_head in E.
  apply rstrip_head in H as [H|[v H]]; [done|].
  injection H as <- _. vm_compute in E. discriminate E.
Qed.

End CleanShape.

(** X17: what header cleaning leaves.  [clean_col_names] changes only the
    headers: the row labels, the number and order of the columns and their
    entries stay.  Every cleaned header is made of characters that
    lowercasing leaves alone and that are neither white space, nor a
    parenthesis, nor a slash; it has no two underscores in a row; and it
    neither begins nor ends with an underscore. *)
Theorem cleaned_headers_shape (df : DataFrame) :
  index (clean_col_names df) = index df
  /\ map snd (columns (clean_col_names df)) = map snd (columns df)
  /\ column_names (clean_col_names df) = ColNames.clean_headers (column_names df)
  /\ Forall (fun name =>
               all_chars settled name
               /\ no_runs name
               /\ (forall t, name <> String "_" t)
               /\ (forall t, name <> t ++ "_"))
            (column_names (clean_col_names df)).
Proof.
  unfold clean_col_names, column_names, ColNames.clean_headers. simpl.
  rewrite !map_map. simpl. repeat split.
  apply Forall_fmap, Forall_forall. intros [c s] _. simpl.
  unfold ColNames.clean_name. repeat split.
  - apply rstrip_chars, lstrip_chars, replace_runs_chars, lower_replace_settled.
  - apply rstrip_no_runs, lstrip_no_runs, replace_runs_no_runs.
  - apply strip_no_leading.
  - apply rstrip_no_trailing.
Qed.
